(** * bittrade4: price aggregation and arbitrage detection

    A shallow embedding of the collection/normalisation code of
    [unified_price_system.py] and of the detection/scheduling code of
    [arbitrage_analyzer.py], followed by the properties proved about it.

    Numbers are modelled as the code has them:
    - [decimal.Decimal] values (prices in the collector) are rationals, and
      every arithmetic operation rounds its exact result to the 28
      significant digits of Python's default context (ROUND_HALF_EVEN);
      a price read from a reply may also be an infinity, a NaN or the
      negative zero, which [Decimal(...)] accepts;
    - Python floats (prices and profits in the analyzer) are the kernel's
      binary64 floats, so every formula evaluates bit for bit as in Python;
    - Python ints (timestamps, fee tiers, raw pool state) are [Z]. *)

From Stdlib Require Import ZArith QArith Qabs Qround Qpower Lia Lqa.
From Stdlib Require Import List String Ascii DecimalString.
From Stdlib Require Import Permutation Sorted.
From Stdlib Require Import PrimFloat Uint63 FloatOps.
From stdpp Require Import gmap strings.

Local Open Scope Z_scope.

(** ** Exceptions

    Code that may raise returns a [result]; [try ... except] is [catch]. *)

Inductive exn : Set :=
| ZeroDivisionError
| KeyError
| InvalidOperation   (* decimal: malformed literal, division by zero,
                        comparison with a NaN, Infinity - Infinity *)
| TimeoutError       (* asyncio.TimeoutError *)
| TransportError.    (* any other exception of an HTTP or RPC call *)

Inductive result (A : Type) : Type :=
| Ok (a : A)
| Raise (e : exn).
Arguments Ok {A} a.
Arguments Raise {A} e.

#[export] Instance result_ret : MRet result := fun A a => Ok a.
#[export] Instance result_bind : MBind result := fun A B k r =>
  match r with
  | Ok a => k a
  | Raise e => Raise e
  end.

(** [try: r except Exception: h] *)
Definition catch {A} (r : result A) (h : exn -> A) : A :=
  match r with
  | Ok a => a
  | Raise e => h e
  end.

(** ** Python's [decimal.Decimal] under the default context *)

Module Dec.
Local Open Scope Q_scope.

(** [getcontext().prec] *)
Definition prec : Z := 28.

Definition pow10 (e : Z) : Q := (10 # 1) ^ e.

(** Number of decimal digits of a positive integer; the fuel (the number
    of binary digits) is never exhausted. *)
Fixpoint digits_fuel (fuel : nat) (n : Z) : Z :=
  match fuel with
  | O => 0
  | S f => if (n <=? 0)%Z then 0%Z else (1 + digits_fuel f (n / 10))%Z
  end.

Definition ndigits (n : Z) : Z :=
  digits_fuel (S (Z.to_nat (Z.log2 n))) n.

(** ROUND_HALF_EVEN to an integer. *)
Definition round_half_even (y : Q) : Z :=
  let f := Qfloor y in
  match Qcompare (y - inject_Z f)%Q (1 # 2)%Q with
  | Lt => f
  | Gt => (f + 1)%Z
  | Eq => if Z.even f then f else (f + 1)%Z
  end.

(** Exponent of the last kept digit of a positive [x]: the coefficient
    [x / 10^e] then has [prec] digits before the point. *)
Definition quantum_exp (x : Q) : Z :=
  let e1 := (ndigits (Qnum x) - ndigits (Zpos (Qden x)) - (prec - 1))%Z in
  if Qle_bool (pow10 (prec - 1)) (x / pow10 e1) then e1 else (e1 - 1)%Z.

Definition rnd_pos (x : Q) : Q :=
  let e := quantum_exp x in
  inject_Z (round_half_even (x / pow10 e)) * pow10 e.

(** The context rounding every operation applies to its exact result.
    (The exponent limits of the context, +-999999, are out of reach of
    the 160-bit pool states and the prices handled here.) *)
Definition rnd (x : Q) : Q :=
  match Qcompare x 0%Q with
  | Eq => 0
  | Gt => rnd_pos x
  | Lt => - rnd_pos (- x)
  end.

(** [Decimal(n)] for an int [n] is exact. *)
Definition of_int (n : Z) : Q := inject_Z n.

Definition add (a b : Q) : Q := rnd (a + b).
Definition sub (a b : Q) : Q := rnd (a - b).
Definition mul (a b : Q) : Q := rnd (a * b).

(** [a / b]: raises [DivisionByZero] (or [InvalidOperation] for 0/0). *)
Definition div (a b : Q) : result Q :=
  if Qeq_bool b 0 then Raise InvalidOperation else Ok (rnd (a / b)).

(** [Decimal(10) ** k] for an int [k]: a power of ten has a single
    significant digit, so the result is exact. *)
Definition pow10_int (k : Z) : Q := pow10 k.

(** Comparisons of Decimals are exact. *)
Definition gtb (a b : Q) : bool := negb (Qle_bool a b).
Definition ltb (a b : Q) : bool := negb (Qle_bool b a).

(** Unit roundoff: half a unit in the 28th significant digit. *)
Definition u : Q := 1 # (2 * 10 ^ 27).

(** *** Values read from text

    [Decimal(s)] reads finite numbers and also the special values:
    ["Infinity"], ["-Infinity"], ["NaN"], ["sNaN"] and the negative zero
    ["-0"].  A finite value is its rational.  The negative zero is kept
    apart because an infinity divided by it is negative; the sign of a
    zero that an operation computes is not tracked, nothing modelled
    here depends on it.  [NaN] stands for a quiet or a signalling NaN:
    the code either stores such a value or compares it with [<] or [>]
    first, which raises for both kinds; the other operations below give
    a NaN operand the result of a quiet NaN, and are not reached with
    one. *)
Inductive dec : Type :=
| Finite (q : Q)
| NegZero
| Infinity (negative : bool)
| NaN.

(** The rational of a finite value. *)
Definition finite_value (d : dec) : Q :=
  match d with
  | Finite q => q
  | _ => 0
  end.

(** The sign bit. *)
Definition is_negative (d : dec) : bool :=
  match d with
  | Finite q => ltb q 0
  | NegZero => true
  | Infinity negative => negative
  | NaN => false
  end.

(** [a < b]: an ordering comparison with a NaN signals
    [InvalidOperation], which the default context traps. *)
Definition less (a b : dec) : result bool :=
  match a, b with
  | NaN, _ | _, NaN => Raise InvalidOperation
  | Infinity na, Infinity nb => Ok (na && negb nb)
  | Infinity na, _ => Ok na
  | _, Infinity nb => Ok (negb nb)
  | _, _ => Ok (ltb (finite_value a) (finite_value b))
  end.

(** [a > b] *)
Definition greater (a b : dec) : result bool := less b a.

(** [a == b], for values that are not NaN. *)
Definition equal (a b : dec) : bool :=
  match a, b with
  | NaN, _ | _, NaN => false
  | Infinity na, Infinity nb => Bool.eqb na nb
  | Infinity _, _ | _, Infinity _ => false
  | _, _ => Qeq_bool (finite_value a) (finite_value b)
  end.

(** [a - b]: the difference of two infinities of one sign is an
    [InvalidOperation]. *)
Definition subtract (a b : dec) : result dec :=
  match a, b with
  | NaN, _ | _, NaN => Ok NaN
  | Infinity na, Infinity nb =>
      if Bool.eqb na nb then Raise InvalidOperation else Ok (Infinity na)
  | Infinity na, _ => Ok (Infinity na)
  | _, Infinity nb => Ok (Infinity (negb nb))
  | _, _ => Ok (Finite (sub (finite_value a) (finite_value b)))
  end.

(** [a / b]: a finite value divided by zero raises; an infinity divided
    by a finite value, zero included, is an infinity with the sign of
    the quotient; a finite value divided by an infinity is zero. *)
Definition divide (a b : dec) : result dec :=
  match a, b with
  | NaN, _ | _, NaN => Ok NaN
  | Infinity _, Infinity _ => Raise InvalidOperation
  | Infinity na, _ => Ok (Infinity (xorb na (is_negative b)))
  | _, Infinity _ => Ok (Finite 0)
  | _, _ => q ← div (finite_value a) (finite_value b); Ok (Finite q)
  end.

(** [a * b]: zero times an infinity is an [InvalidOperation]. *)
Definition multiply (a b : dec) : result dec :=
  match a, b with
  | NaN, _ | _, NaN => Ok NaN
  | Infinity na, Infinity nb => Ok (Infinity (xorb na nb))
  | Infinity na, _ =>
      if Qeq_bool (finite_value b) 0 then Raise InvalidOperation
      else Ok (Infinity (xorb na (is_negative b)))
  | _, Infinity nb =>
      if Qeq_bool (finite_value a) 0 then Raise InvalidOperation
      else Ok (Infinity (xorb (is_negative a) nb))
  | _, _ => Ok (Finite (mul (finite_value a) (finite_value b)))
  end.
End Dec.

(** ** Python dict literals and strings *)

(** A dict literal, in source order.  Lookups go through [as_map], where a
    repeated key keeps its last value, as in Python. *)
Definition as_map {K : Type} `{Countable K} {V : Type} (items : list (K * V))
  : gmap K V :=
  foldl (fun m kv => <[kv.1 := kv.2]> m) ∅ items.

Definition keys {V : Type} (items : list (string * V)) : list string :=
  map fst items.

Definition values {V : Type} (items : list (string * V)) : list V :=
  map snd items.

(** [{v: k for k, v in d.items()}] *)
Definition reverse_dict (items : list (string * string)) : gmap string string :=
  as_map (map (fun kv => (kv.2, kv.1)) items).

Definition lower_ascii (c : ascii) : ascii :=
  let n := nat_of_ascii c in
  if (Nat.leb 65 n && Nat.leb n 90)%bool then ascii_of_nat (n + 32) else c.

(** [str.lower] on ASCII text *)
Fixpoint lower (s : string) : string :=
  match s with
  | EmptyString => EmptyString
  | String c s' => String (lower_ascii c) (lower s')
  end.

(** [str(n)] for an int *)
Definition str_of_int (n : Z) : string := NilZero.string_of_int (Z.to_int n).

(** ** The collector: [unified_price_system.py] *)

Module Collector.

Record TokenConfig := {
  symbol : string;
  decimals : Z;
  coingecko_id : string;
  binance_symbol : string;
  bybit_symbol : string
}.

Record ChainConfig := {
  name : string;
  rpc_url : string;
  chain_id : Z;
  usdc_address : string;
  uniswap_v3_factory : string;
  chain_tokens : list (string * string);
  chain_pool_fee : Z
}.

(** [PriceData].  [price] is the value [Decimal(...)] read from a reply,
    or the one the on-chain adapter computed.  The on-chain adapter
    stores the synthetic bid in [market_cap], the ask in [volume_24h]
    and the fee rate in [price_change_24h]; these three fields only
    hold values the adapters compute or write as constants, all
    finite. *)
Record PriceData := {
  source : string;
  chain : string;
  token : string;
  price : Dec.dec;
  timestamp : float;
  market_cap : option Q;
  volume_24h : option Q;
  price_change_24h : option Q
}.

(** An entry of [pool_address_cache]. *)
Record PoolCacheEntry := {
  pool_address : string;
  pool_fee : Z;
  token_is_token0 : bool
}.

(** The configuration held by a [UnifiedPriceSystem] instance;
    [web3_instances] are the chains [initialize] could connect to. *)
Record UnifiedPriceSystem := {
  tokens : list (string * TokenConfig);
  cex_symbols_binance : list (string * string);
  cex_symbols_bybit : list (string * string);
  chains : list (string * ChainConfig);
  web3_instances : list string
}.

(** *** What the network answers *)

(** A field of a JSON record that the code converts with [Decimal(...)]:
    [Present d] is a value the constructor reads as [d], a special value
    included. *)
Inductive field (A : Type) : Type :=
| Absent                (* the key is missing: KeyError *)
| Malformed             (* a value the constructor raises on *)
| Present (a : A).
Arguments Absent {A}.
Arguments Malformed {A}.
Arguments Present {A} a.

Definition to_decimal (f : field Dec.dec) : result Dec.dec :=
  match f with
  | Absent => Raise KeyError
  | Malformed => Raise InvalidOperation
  | Present q => Ok q
  end.

(** The outcome of one HTTP request: an exception, or a status with the
    body as [await response.json()] returns it. *)
Inductive http (A : Type) : Type :=
| HttpRaise (e : exn)
| HttpResponse (status : Z) (body : result A).
Arguments HttpRaise {A} e.
Arguments HttpResponse {A} status body.

(** A record of Binance's [ticker/price] list. *)
Record ticker := {
  tk_symbol : option string;
  tk_price : field Dec.dec
}.

(** A record of the [list] of a Bybit [tickers] reply. *)
Record bybit_ticker := {
  bt_symbol : option string;
  bt_lastPrice : field Dec.dec
}.

Record bybit_reply := {
  retCode : option Z;
  (** [data['result']['list']]: [None] when ['result'] is missing,
      [Some None] when ['list'] is. *)
  result_list : option (option (list bybit_ticker))
}.

Record Env := {
  (** [time.time()] *)
  now : float;
  (** the reply to the bulk request of attempt 0, 1, 2 *)
  binance_bulk : nat -> http (list ticker);
  (** the reply to [ticker/price?symbol=...] *)
  binance_single : string -> http (field Dec.dec);
  bybit_single : string -> http bybit_reply;
  (** Hyperliquid's [allMids]: symbol to price *)
  hyperliquid_mids : http (list (string * field Dec.dec));
  (** dYdX's [perpetualMarkets]: ['markets'], each with or without
      ['oraclePrice'] *)
  dydx_markets : http (option (list (string * option (field Dec.dec))));
  (** [factory.getPool(token, usdc, fee).call()] on a chain *)
  getPool : string -> string -> string -> Z -> result string;
  (** [pool.slot0().call()[0]] on a chain *)
  slot0 : string -> string -> result Z
}.

Section Adapters.
Variable self : UnifiedPriceSystem.
Variable env : Env.

(** *** Binance *)

Definition binance_record (tok : string) (p : Dec.dec) : PriceData :=
  {| source := "binance"; chain := "reference"; token := tok; price := p;
     timestamp := now env; market_cap := None; volume_24h := None;
     price_change_24h := None |}.

(** The body of the loop over [all_data], for one record. *)
Definition binance_step (results : list PriceData) (t : ticker)
  : result (list PriceData) :=
  match tk_symbol t with
  | None => Raise KeyError
  | Some sym =>
      match reverse_dict (cex_symbols_binance self) !! sym with
      | Some tok =>
          p ← to_decimal (tk_price t);
          Ok (results ++ [binance_record tok p])
      | None => Ok results
      end
  end.

Fixpoint binance_parse (results : list PriceData) (all_data : list ticker)
  : result (list PriceData) :=
  match all_data with
  | [] => Ok results
  | t :: rest => r ← binance_step results t; binance_parse r rest
  end.

(** [fetch_binance_price]: the result and the delays slept. *)
Definition fetch_binance_price (token_symbol : string)
  : result (option PriceData) * list Q :=
  match as_map (tokens self) !! token_symbol with
  | None => (Ok None, [])
  | Some _ =>
      match as_map (cex_symbols_binance self) !! token_symbol with
      | None => (Raise KeyError, [])
      | Some sym =>
          match binance_single env sym with
          | HttpRaise _ => (Ok None, [1 # 5]%Q)
          | HttpResponse status body =>
              if status =? 200 then
                (Ok (catch (data ← body; p ← to_decimal data;
                            Ok (Some (binance_record token_symbol p)))
                           (fun _ => None)),
                 [1 # 5]%Q)
              else if status =? 429 then (Ok None, [1 # 5; 1]%Q)
              else (Ok None, [1 # 5]%Q)
          end
      end
  end.

(** [_fetch_binance_individual]: the first five tokens only. *)
Fixpoint binance_individual_loop (toks : list string)
  (results : list PriceData) (slept : list Q) : list PriceData * list Q :=
  match toks with
  | [] => (results, slept)
  | tok :: rest =>
      let '(r, s) := fetch_binance_price tok in
      match r with
      | Ok (Some pd) =>
          binance_individual_loop rest (results ++ [pd]) (slept ++ s)
      | Ok None | Raise _ => binance_individual_loop rest results (slept ++ s)
      end
  end.

Definition _fetch_binance_individual : list PriceData * list Q :=
  binance_individual_loop (firstn 5 (keys (tokens self))) [] [].

Definition max_retries : nat := 3.

(** The loop [for attempt in range(max_retries)] of
    [fetch_all_binance_prices], then the fallback. *)
Fixpoint binance_attempts (attempts : list nat) (slept : list Q)
  : list PriceData * list Q :=
  match attempts with
  | [] =>
      let '(r, s) := _fetch_binance_individual in (r, slept ++ s)
  | attempt :: rest =>
      let on_exception :=
        binance_attempts rest
          (slept ++ if (attempt <? max_retries - 1)%nat then [1%Q] else [])
      in
      match binance_bulk env attempt with
      | HttpRaise _ => on_exception
      | HttpResponse status body =>
          if status =? 200 then
            match all_data ← body; binance_parse [] all_data with
            | Ok results => (results, slept)
            | Raise _ => on_exception
            end
          else if status =? 429 then
            binance_attempts rest (slept ++ [inject_Z (2 ^ Z.of_nat attempt)])
          else binance_attempts rest slept
      end
  end.

Definition fetch_all_binance_prices : list PriceData * list Q :=
  binance_attempts (seq 0 max_retries) [].

(** *** Bybit *)

Definition bybit_record (tok : string) (p : Dec.dec) : PriceData :=
  {| source := "bybit"; chain := "reference"; token := tok; price := p;
     timestamp := now env; market_cap := None; volume_24h := None;
     price_change_24h := None |}.

(** The [try] block of [fetch_single_bybit]. *)
Definition bybit_try (sym : string) : result (option PriceData) :=
  match bybit_single env sym with
  | HttpRaise e => Raise e
  | HttpResponse status body =>
      if status =? 200 then
        data ← body;
        match retCode data, result_list data with
        | Some 0, Some (Some tickers) =>
            match tickers with
            | [] => Ok None
            | t :: _ =>
                match bt_symbol t with
                | None => Raise KeyError
                | Some s =>
                    if String.eqb s sym then
                      match reverse_dict (cex_symbols_bybit self) !! sym with
                      | Some tok =>
                          p ← to_decimal (bt_lastPrice t);
                          Ok (Some (bybit_record tok p))
                      | None => Ok None
                      end
                    else Ok None
                end
            end
        | _, _ => Ok None
        end
      else Ok None
  end.

Definition fetch_single_bybit (sym : string) : option PriceData :=
  catch (bybit_try sym) (fun _ => None).

(** [fetch_all_bybit_prices]: one request per symbol, gathered in
    order; only [PriceData] results are kept. *)
Definition fetch_all_bybit_prices : list PriceData :=
  omap fetch_single_bybit (values (cex_symbols_bybit self)).

(** [get_cex_prices] *)
Definition get_cex_prices : list PriceData :=
  fetch_all_binance_prices.1 ++ fetch_all_bybit_prices.

(** *** Hyperliquid and dYdX v4 *)

Definition hyperliquid_mappings : list (string * string) :=
  [("BTC", "WBTC"); ("ETH", "WETH"); ("LINK", "LINK"); ("UNI", "UNI");
   ("MATIC", "MATIC"); ("AAVE", "AAVE"); ("CRV", "CRV"); ("COMP", "COMP");
   ("MKR", "MKR"); ("SUSHI", "SUSHI"); ("OP", "OP"); ("ARB", "ARB")].

Definition perpetual_record (src tok : string) (p : Dec.dec) : PriceData :=
  {| source := src; chain := "perpetual"; token := tok; price := p;
     timestamp := now env; market_cap := None; volume_24h := None;
     price_change_24h := Some (2 # 10000)%Q |}.

Fixpoint hyperliquid_parse (results : list PriceData)
  (items : list (string * field Dec.dec)) : result (list PriceData) :=
  match items with
  | [] => Ok results
  | (hl_symbol, price_str) :: rest =>
      match as_map hyperliquid_mappings !! hl_symbol with
      | Some tok =>
          p ← to_decimal price_str;
          hyperliquid_parse (results ++ [perpetual_record "hyperliquid" tok p]) rest
      | None => hyperliquid_parse results rest
      end
  end.

Definition fetch_all_hyperliquid_prices : list PriceData :=
  match hyperliquid_mids env with
  | HttpRaise _ => []
  | HttpResponse status body =>
      if status =? 200 then
        catch (data ← body; hyperliquid_parse [] data) (fun _ => [])
      else []
  end.

Definition dydx_mappings : list (string * string) :=
  [("BTC-USD", "WBTC"); ("ETH-USD", "WETH"); ("LINK-USD", "LINK");
   ("UNI-USD", "UNI"); ("MATIC-USD", "MATIC"); ("AAVE-USD", "AAVE");
   ("CRV-USD", "CRV"); ("COMP-USD", "COMP"); ("MKR-USD", "MKR");
   ("SUSHI-USD", "SUSHI"); ("OP-USD", "OP"); ("ARB-USD", "ARB")].

Fixpoint dydx_parse (results : list PriceData)
  (markets : list (string * option (field Dec.dec))) : result (list PriceData) :=
  match markets with
  | [] => Ok results
  | (market_id, oracle) :: rest =>
      match as_map dydx_mappings !! market_id, oracle with
      | Some tok, Some oracle_price =>
          p ← to_decimal oracle_price;
          dydx_parse (results ++ [perpetual_record "dydx_v4" tok p]) rest
      | _, _ => dydx_parse results rest
      end
  end.

Definition fetch_all_dydx_prices : list PriceData :=
  match dydx_markets env with
  | HttpRaise _ => []
  | HttpResponse status body =>
      if status =? 200 then
        catch (data ← body;
               match data with
               | Some markets => dydx_parse [] markets
               | None => Ok []
               end)
              (fun _ => [])
      else []
  end.

(** [get_nextgen_dex_prices] *)
Definition get_nextgen_dex_prices : list PriceData :=
  fetch_all_hyperliquid_prices ++ fetch_all_dydx_prices.

(** *** Uniswap V3: the pool price normalizer *)

Definition zero_address : string :=
  "0x0000000000000000000000000000000000000000".

Definition fee_levels : list Z := [3000; 500; 10000; 100].

(** The loop over [fee_levels] of [_get_pool_address_cached]. *)
Fixpoint try_fee_levels (chain_name token_address usdc : string)
  (fees : list Z) : result (option string * option Z) :=
  match fees with
  | [] => Ok (None, None)
  | fee :: rest =>
      pool ← getPool env chain_name token_address usdc fee;
      if String.eqb pool zero_address
      then try_fee_levels chain_name token_address usdc rest
      else Ok (Some pool, Some fee)
  end.

Definition _get_pool_address_cached (cache : gmap string PoolCacheEntry)
  (chain_name : string) (config : ChainConfig) (token_address cache_key : string)
  : option string * option Z :=
  match cache !! cache_key with
  | Some cached_data => (Some (pool_address cached_data), Some (pool_fee cached_data))
  | None =>
      catch (try_fee_levels chain_name token_address (usdc_address config) fee_levels)
            (fun _ => (None, None))
  end.

(** [_determine_token_order]: token0 is the smaller address. *)
Definition _determine_token_order (token_address usdc : string)
  : bool * string * string :=
  let token_lower := lower token_address in
  let usdc_lower := lower usdc in
  if String.ltb token_lower usdc_lower
  then (true, token_address, usdc)
  else (false, usdc, token_address).

Definition Q96 : Z := 2 ^ 96.
Definition usdc_decimals : Z := 6.

(** The price computation of [fetch_uniswap_price]. *)
Definition derive_price (is_token0 : bool) (sqrt_price_x96 token_decimals : Z)
  : result Q :=
  sqrt_price_decimal ← Dec.div (Dec.of_int sqrt_price_x96) (Dec.of_int Q96);
  let price := Dec.mul sqrt_price_decimal sqrt_price_decimal in
  if is_token0 then
    Ok (Dec.mul price (Dec.pow10_int (token_decimals - usdc_decimals)))
  else
    inv ← Dec.div (Dec.of_int 1) price;
    Ok (Dec.mul inv (Dec.pow10_int (token_decimals - usdc_decimals))).

(** [Decimal(10**10)] *)
Definition price_upper_bound : Q := Dec.of_int (10 ^ 10).

(** [Decimal(10**-10)]: [10**-10] is the float nearest to 1e-10, and
    [Decimal] of a float is its exact binary value,
    1.00000000000000003643...E-10. *)
Definition price_lower_bound : Q :=
  (7737125245533627 # 77371252455336267181195264)%Q.

(** The part of the [try] block after the cache entry is in place. *)
Definition read_pool (chain_name token_symbol : string) (tc : TokenConfig)
  (config : ChainConfig) (pool_info : PoolCacheEntry) : result (option PriceData) :=
  sqrt_price_x96 ← slot0 env chain_name (pool_address pool_info);
  final_price ← derive_price (token_is_token0 pool_info) sqrt_price_x96 (decimals tc);
  if (Dec.gtb final_price price_upper_bound
      || Dec.ltb final_price price_lower_bound)%bool
  then Ok None
  else
    pool_fee_decimal ← Dec.div (Dec.of_int (pool_fee pool_info)) (Dec.of_int 1000000);
    let bid_price := Dec.mul final_price (Dec.sub (Dec.of_int 1) pool_fee_decimal) in
    let ask_price := Dec.mul final_price (Dec.add (Dec.of_int 1) pool_fee_decimal) in
    Ok (Some {| source := "uniswap_v3"; chain := chain_name;
                token := token_symbol; price := Dec.Finite final_price;
                timestamp := now env;
                market_cap := Some bid_price;
                volume_24h := Some ask_price;
                price_change_24h := Some pool_fee_decimal |}).

(** [fetch_uniswap_price], threading [pool_address_cache].  The only
    exception that escapes is the [KeyError] of [self.chains[chain_name]]
    for a connected chain that is not configured. *)
Definition fetch_uniswap_price (cache : gmap string PoolCacheEntry)
  (chain_name token_symbol : string)
  : gmap string PoolCacheEntry * result (option PriceData) :=
  match as_map (tokens self) !! token_symbol with
  | None => (cache, Ok None)
  | Some tc =>
      if negb (bool_decide (chain_name ∈ web3_instances self)) then (cache, Ok None)
      else
        match as_map (chains self) !! chain_name with
        | None => (cache, Raise KeyError)
        | Some config =>
            match as_map (chain_tokens config) !! token_symbol with
            | None => (cache, Ok None)
            | Some token_address =>
                let cache_key := (chain_name +:+ "_" +:+ token_symbol)%string in
                match cache !! cache_key with
                | Some pool_info =>
                    (cache,
                     Ok (catch (read_pool chain_name token_symbol tc config pool_info)
                               (fun _ => None)))
                | None =>
                    match _get_pool_address_cached cache chain_name config
                            token_address cache_key with
                    | (Some pool, Some fee) =>
                        if String.eqb pool "" then (cache, Ok None)
                        else
                          let pool_info :=
                            {| pool_address := pool; pool_fee := fee;
                               token_is_token0 :=
                                 (_determine_token_order token_address
                                    (usdc_address config)).1.1 |} in
                          (<[cache_key := pool_info]> cache,
                           Ok (catch (read_pool chain_name token_symbol tc config
                                        pool_info)
                                     (fun _ => None)))
                    | _ => (cache, Ok None)
                    end
                end
            end
        end
  end.

(** [get_dex_prices]: one task per chain and token; only [PriceData]
    results are kept.  Each task touches its own cache key, so running
    the tasks in order gives the results of the concurrent run. *)
Fixpoint dex_loop (tasks : list (string * string))
  (cache : gmap string PoolCacheEntry) (acc : list PriceData)
  : gmap string PoolCacheEntry * list PriceData :=
  match tasks with
  | [] => (cache, acc)
  | (chain_name, token_symbol) :: rest =>
      let '(cache', r) := fetch_uniswap_price cache chain_name token_symbol in
      match r with
      | Ok (Some pd) => dex_loop rest cache' (acc ++ [pd])
      | _ => dex_loop rest cache' acc
      end
  end.

Definition dex_tasks : list (string * string) :=
  c ← keys (chains self); t ← keys (tokens self); [(c, t)].

Definition get_dex_prices (cache : gmap string PoolCacheEntry)
  : gmap string PoolCacheEntry * list PriceData :=
  dex_loop dex_tasks cache [].

(** *** The aggregator *)

(** The grouping loop of [get_all_prices]. *)
Definition group_by_token (all_prices_list : list PriceData)
  : gmap string (list PriceData) :=
  foldl (fun all_results price_data =>
           <[token price_data :=
               default [] (all_results !! token price_data) ++ [price_data]]>
             all_results)
        ∅ all_prices_list.

Definition get_all_prices (cache : gmap string PoolCacheEntry)
  : gmap string PoolCacheEntry * gmap string (list PriceData) :=
  let cex_prices := get_cex_prices in
  let '(cache', dex_prices) := get_dex_prices cache in
  let nextgen_prices := get_nextgen_dex_prices in
  (cache', group_by_token (cex_prices ++ dex_prices ++ nextgen_prices)).

End Adapters.

(** *** The configuration built by [__init__] *)

Definition init_tokens : list (string * TokenConfig) :=
  [("WETH", {| symbol := "WETH"; decimals := 18; coingecko_id := "ethereum";
               binance_symbol := "ETHUSDC"; bybit_symbol := "ETHUSDT" |});
   ("WBTC", {| symbol := "WBTC"; decimals := 8; coingecko_id := "wrapped-bitcoin";
               binance_symbol := "BTCUSDC"; bybit_symbol := "BTCUSDT" |});
   ("LINK", {| symbol := "LINK"; decimals := 18; coingecko_id := "chainlink";
               binance_symbol := "LINKUSDC"; bybit_symbol := "LINKUSDT" |});
   ("UNI", {| symbol := "UNI"; decimals := 18; coingecko_id := "uniswap";
               binance_symbol := "UNIUSDC"; bybit_symbol := "UNIUSDT" |});
   ("MATIC", {| symbol := "MATIC"; decimals := 18; coingecko_id := "matic-network";
               binance_symbol := "MATICUSDC"; bybit_symbol := "MATICUSDT" |});
   ("BNB", {| symbol := "BNB"; decimals := 18; coingecko_id := "binancecoin";
               binance_symbol := "BNBUSDC"; bybit_symbol := "BNBUSDT" |});
   ("AVAX", {| symbol := "AVAX"; decimals := 18; coingecko_id := "avalanche-2";
               binance_symbol := "AVAXUSDC"; bybit_symbol := "AVAXUSDT" |});
   ("SOL", {| symbol := "SOL"; decimals := 9; coingecko_id := "solana";
               binance_symbol := "SOLUSDC"; bybit_symbol := "SOLUSDT" |});
   ("ADA", {| symbol := "ADA"; decimals := 18; coingecko_id := "cardano";
               binance_symbol := "ADAUSDC"; bybit_symbol := "ADAUSDT" |});
   ("DOT", {| symbol := "DOT"; decimals := 10; coingecko_id := "polkadot";
               binance_symbol := "DOTUSDC"; bybit_symbol := "DOTUSDT" |});
   ("DOGE", {| symbol := "DOGE"; decimals := 8; coingecko_id := "dogecoin";
               binance_symbol := "DOGEUSDC"; bybit_symbol := "DOGEUSDT" |});
   ("LTC", {| symbol := "LTC"; decimals := 8; coingecko_id := "litecoin";
               binance_symbol := "LTCUSDC"; bybit_symbol := "LTCUSDT" |});
   ("PEPE", {| symbol := "PEPE"; decimals := 18; coingecko_id := "pepe";
               binance_symbol := "PEPEUSDC"; bybit_symbol := "PEPEUSDT" |});
   ("AAVE", {| symbol := "AAVE"; decimals := 18; coingecko_id := "aave";
               binance_symbol := "AAVEUSDC"; bybit_symbol := "AAVEUSDT" |});
   ("CRV", {| symbol := "CRV"; decimals := 18; coingecko_id := "curve-dao-token";
               binance_symbol := "CRVUSDC"; bybit_symbol := "CRVUSDT" |});
   ("COMP", {| symbol := "COMP"; decimals := 18; coingecko_id := "compound-governance-token";
               binance_symbol := "COMPUSDC"; bybit_symbol := "COMPUSDT" |});
   ("MKR", {| symbol := "MKR"; decimals := 18; coingecko_id := "maker";
               binance_symbol := "MKRUSDC"; bybit_symbol := "MKRUSDT" |});
   ("SUSHI", {| symbol := "SUSHI"; decimals := 18; coingecko_id := "sushi";
               binance_symbol := "SUSHIUSDC"; bybit_symbol := "SUSHIUSDT" |});
   ("OP", {| symbol := "OP"; decimals := 18; coingecko_id := "optimism";
               binance_symbol := "OPUSDC"; bybit_symbol := "OPUSDT" |});
   ("ARB", {| symbol := "ARB"; decimals := 18; coingecko_id := "arbitrum";
               binance_symbol := "ARBUSDC"; bybit_symbol := "ARBUSDT" |})].

Definition init_binance_symbols : list (string * string) :=
  [("WETH", "ETHUSDC"); ("WBTC", "BTCUSDC"); ("LINK", "LINKUSDC");
   ("UNI", "UNIUSDC"); ("MATIC", "MATICUSDC"); ("BNB", "BNBUSDC");
   ("AVAX", "AVAXUSDC"); ("SOL", "SOLUSDC"); ("ADA", "ADAUSDC");
   ("DOT", "DOTUSDC"); ("DOGE", "DOGEUSDC"); ("LTC", "LTCUSDC");
   ("PEPE", "PEPEUSDC"); ("AAVE", "AAVEUSDC"); ("CRV", "CRVUSDC");
   ("COMP", "COMPUSDC"); ("MKR", "MKRUSDC"); ("SUSHI", "SUSHIUSDC");
   ("OP", "OPUSDC"); ("ARB", "ARBUSDC")].

Definition init_bybit_symbols : list (string * string) :=
  [("WETH", "ETHUSDT"); ("WBTC", "BTCUSDT"); ("LINK", "LINKUSDT");
   ("UNI", "UNIUSDT"); ("MATIC", "MATICUSDT"); ("BNB", "BNBUSDT");
   ("AVAX", "AVAXUSDT"); ("SOL", "SOLUSDT"); ("ADA", "ADAUSDT");
   ("DOT", "DOTUSDT"); ("DOGE", "DOGEUSDT"); ("LTC", "LTCUSDT");
   ("PEPE", "PEPEUSDT"); ("AAVE", "AAVEUSDT"); ("CRV", "CRVUSDT");
   ("COMP", "COMPUSDT"); ("MKR", "MKRUSDT"); ("SUSHI", "SUSHIUSDT");
   ("OP", "OPUSDT"); ("ARB", "ARBUSDT")].

Definition ethereum_config : ChainConfig :=
  {| name := "ethereum"; rpc_url := "https://eth.llamarpc.com"; chain_id := 1;
     usdc_address := "0xA0b86991c6218b36c1d19D4a2e9Eb0cE3606eB48";
     uniswap_v3_factory := "0x1F98431c8aD98523631AE4a59f267346ea31F984";
     chain_tokens :=
       [("WETH", "0xC02aaA39b223FE8D0A0e5C4F27eAD9083C756Cc2");
        ("WBTC", "0x2260FAC5E5542a773Aa44fBCfeDf7C193bc2C599");
        ("LINK", "0x514910771AF9Ca656af840dff83E8264EcF986CA");
        ("UNI", "0x1f9840a85d5aF5bf1D1762F925BDADdC4201F984");
        ("MATIC", "0x7D1AfA7B718fb893dB30A3aBc0Cfc608AaCfeBB0");
        ("AAVE", "0x7Fc66500c84A76Ad7e9c93437bFc5Ac33E2DDaE9");
        ("CRV", "0xD533a949740bb3306d119CC777fa900bA034cd52");
        ("COMP", "0xc00e94Cb662C3520282E6f5717214004A7f26888");
        ("MKR", "0x9f8F72aA9304c8B593d555F12eF6589cC3A579A2");
        ("SUSHI", "0x6B3595068778DD592e39A122f4f5a5cF09C90fE2");
        ("BNB", "0xB8c77482e45F1F44dE1745F52C74426C631bDD52");
        ("AVAX", "0x85f138bfEE4ef8e540890CFb48F620571d67Eda3");
        ("SOL", "0xD31a59c85aE9D8edEFeC411D448f90841571b89c");
        ("ADA", "0x3EE2200Efb3400fAbB9AacF31297cBdD1d435D47");
        ("DOT", "0x7083609fCE4d1d8Dc0C979AAb8c869Ea2C873402");
        ("DOGE", "0x4206931337dc273a630d328dA6441786BfaD668f");
        ("LTC", "0x6c6EE5e31d828De241282B9606C8e98Ea48526E2");
        ("PEPE", "0x6982508145454Ce325dDbE47a25d4ec3d2311933")];
     chain_pool_fee := 3000 |}.

Definition arbitrum_config : ChainConfig :=
  {| name := "arbitrum"; rpc_url := "https://arb1.arbitrum.io/rpc"; chain_id := 42161;
     usdc_address := "0xaf88d065e77c8cC2239327C5EDb3A432268e5831";
     uniswap_v3_factory := "0x1F98431c8aD98523631AE4a59f267346ea31F984";
     chain_tokens :=
       [("WETH", "0x82aF49447D8a07e3bd95BD0d56f35241523fBab1");
        ("WBTC", "0x2f2a2543B76A4166549F7aaB2e75Bef0aefC5B0f");
        ("LINK", "0xf97f4df75117a78c1A5a0DBb814Af92458539FB4");
        ("UNI", "0xFa7F8980b0f1E64A2062791cc3b0871572f1F7f0");
        ("MATIC", "0x561877b6b3DD7651313794e5F2894B2F18bE0766");
        ("AAVE", "0xba5DdD1f9d7F570dc94a51479a000E3BCE967196");
        ("CRV", "0x11cDb42B0EB46D95f990BeDD4695A6e3fA034978");
        ("COMP", "0x354A6dA3fcde098F8389cad84b0182725c6C91dE");
        ("MKR", "0x2e9a6Df78E42a30712c10a9Dc4b1C8656f8F2879");
        ("SUSHI", "0xd4d42F0b6DEF4CE0383636770eF773390d85c61A");
        ("OP", "0x4200000000000000000000000000000000000042");
        ("ARB", "0x912CE59144191C1204E64559FE8253a0e49E6548")];
     chain_pool_fee := 3000 |}.

Definition base_config : ChainConfig :=
  {| name := "base"; rpc_url := "https://mainnet.base.org"; chain_id := 8453;
     usdc_address := "0x833589fCD6eDb6E08f4c7C32D4f71b54bdA02913";
     uniswap_v3_factory := "0x33128a8fC17869897dcE68Ed026d694621f6FDfD";
     chain_tokens :=
       [("WETH", "0x4200000000000000000000000000000000000006");
        ("WBTC", "0x0555E30da8f98308EdB960aa94C0Db47230d2B9c");
        ("LINK", "0x88Fb150BDc53A65fe94Dea0c9BA0a6dAf8C6e196");
        ("UNI", "0xd3f1Da62CAFB7E7BC6531FF1ceF6F414291F03D3");
        ("AAVE", "0x4e65fE4DbA92790696d040ac24Aa414708F5c0AB");
        ("CRV", "0x8Ee73c484A26e0A5df2Ee2a4960B789967dd0415");
        ("COMP", "0x9e1028F5F1D5eDE59748FFceE5532509976840E0");
        ("SUSHI", "0x7D49a065D17d6d4a55dc13649901fdBB98B2AFBA")];
     chain_pool_fee := 3000 |}.

Definition optimism_config : ChainConfig :=
  {| name := "optimism"; rpc_url := "https://mainnet.optimism.io"; chain_id := 10;
     usdc_address := "0x7F5c764cBc14f9669B88837ca1490cCa17c31607";
     uniswap_v3_factory := "0x1F98431c8aD98523631AE4a59f267346ea31F984";
     chain_tokens :=
       [("WETH", "0x4200000000000000000000000000000000000006");
        ("WBTC", "0x68f180fcCe6836688e9084f035309E29Bf0A2095");
        ("LINK", "0x350a791Bfc2C21F9Ed5d10980Dad2e2638ffa7f6");
        ("UNI", "0x6fd9d7AD17242c41f7131d257212c54A0e816691");
        ("MATIC", "0x0b2C639c533813f4Aa9D7837CAf62653d097Ff85");
        ("AAVE", "0x76FB31fb4af56892A25e32cFC43De717950c9278");
        ("CRV", "0xAdDb6A0412DE1BA0F936DCabc8b351d76aF731eF");
        ("COMP", "0x7e7d4467112689329f7E06571eD0E8CbAd4910eE");
        ("SUSHI", "0x3eaEb77b03dBc0F6321AE1b72b2E9aDb0F60112B");
        ("OP", "0x4200000000000000000000000000000000000042")];
     chain_pool_fee := 3000 |}.

Definition init_chains : list (string * ChainConfig) :=
  [("ethereum", ethereum_config); ("arbitrum", arbitrum_config); ("base", base_config); ("optimism", optimism_config)].

(** The system after [initialize] connected to the chains [connected]. *)
Definition init (connected : list string) : UnifiedPriceSystem :=
  {| tokens := init_tokens;
     cex_symbols_binance := init_binance_symbols;
     cex_symbols_bybit := init_bybit_symbols;
     chains := init_chains;
     web3_instances := connected |}.

End Collector.

(** ** Python floats *)

Module Py.
Local Open Scope float_scope.

(** [a / b] on floats raises [ZeroDivisionError] when [b] is zero. *)
Definition fdiv (a b : float) : result float :=
  if b =? 0 then Raise ZeroDivisionError else Ok (a / b).

(** The builtin [min(a, b)] and [max(a, b)]: the first argument unless
    the second is strictly smaller (larger). *)
Definition min (a b : float) : float := if b <? a then b else a.
Definition max (a b : float) : float := if a <? b then b else a.

(** An int used in float arithmetic. *)
Definition float_of_int (n : Z) : float :=
  if (n <? 0)%Z then - of_uint63 (Uint63.of_Z (- n)) else of_uint63 (Uint63.of_Z n).

(** [list(dict.fromkeys(l))], the order of [Series.unique()]. *)
Fixpoint unique (l : list string) : list string :=
  match l with
  | [] => []
  | x :: l' => x :: List.filter (fun y => negb (String.eqb x y)) (unique l')
  end.
End Py.

(** ** The analyzer: [arbitrage_analyzer.py] *)

#[local] Set Warnings "-inexact-float".

(** A row of the observation log as [iterrows] yields it: the index label
    and the CSV columns. *)
Module Row.
Record t := mk {
  index : Z;
  timestamp : Z;
  datetime : string;
  source : string;
  chain : string;
  token : string;
  price_usd : float
}.
End Row.
Abbreviation Row := Row.t.

(** The dict built by [find_leveraged_opportunity]. *)
Module Opportunity.
Record t := mk {
  token : string;
  timestamp : Z;
  datetime : string;
  strategy : string;
  buy_platform : string;
  sell_platform : string;
  buy_price : float;
  sell_price : float;
  convergence_price : float;
  price_diff_pct : float;
  investment_per_side : Z;
  total_investment : Z;
  tokens_bought : float;
  futures_margin : float;
  required_capital : float;
  dex_final_usdc : float;
  cex_final_usdc : float;
  total_final_usdc : float;
  futures_pnl : float;
  total_fees : float;
  rebalance_cost_daily : float;
  final_profit : float;
  profit_pct : float;
  time_diff : Z;
  capital_efficiency : float
}.
End Opportunity.
Abbreviation Opportunity := Opportunity.t.

(** The dict built by [find_profitable_cycle]. *)
Module Cycle.
Record t := mk {
  token : string;
  timestamp : Z;
  datetime : string;
  buy_price : float;
  sell_price : float;
  buy_source : string;
  buy_chain : string;
  sell_source : string;
  sell_chain : string;
  investment : Z;
  tokens_bought : float;
  tokens_after_transfer : float;
  usdc_received : float;
  usdc_final : float;
  total_costs : float;
  token_transfer_cost : float;
  usdc_return_cost : float;
  final_profit : float;
  profit_pct : float;
  time_diff : Z;
  needs_transfer : bool;
  transfer_type : string
}.
End Cycle.
Abbreviation Cycle := Cycle.t.

(** The dict appended by [load_and_analyze_arbitrage]. *)
Module Candidate.
Record t := mk {
  arb_key : string;
  timestamp : Z;
  datetime : string;
  token : string;
  min_price : float;
  max_price : float;
  spread_usd : float;
  spread_pct : float;
  time_diff : Z;
  buy_source : string;
  buy_chain : string;
  sell_source : string;
  sell_chain : string;
  buy_timestamp : Z;
  sell_timestamp : Z
}.
End Candidate.
Abbreviation Candidate := Candidate.t.

(** A row of the frame [calculate_profit_potential] hands to the
    scheduler: a candidate with its two added columns. *)
Module Trade.
Record t := mk {
  candidate : Candidate;
  net_spread_pct : float;
  profit_per_trade : float
}.
Definition buy_timestamp (tr : t) : Z := Candidate.buy_timestamp (candidate tr).
Definition sell_timestamp (tr : t) : Z := Candidate.sell_timestamp (candidate tr).
End Trade.
Abbreviation Trade := Trade.t.

Module Analyzer.
Import Py.
Local Open Scope float_scope.

(** *** The leveraged hedge evaluator *)

Definition FUTURES_MARGIN_RATE : float := 0.1.
Definition FUTURES_FEE_RATE : float := 0.0002.
Definition FUNDING_RATE_HOURLY : float := 0.0001.
Definition DEX_FEE_RATE : float := 0.003.
Definition GAS_COST : float := 3.0.

(** The body of the inner loop of [find_leveraged_opportunity] for one
    pair of rows, on the loop state [(best_opportunity, max_profit)]. *)
Definition leveraged_pair (token : string) (binance_row dex_row : Row)
  (st : option Opportunity * float) : result (option Opportunity * float) :=
  let binance_price := Row.price_usd binance_row in
  let binance_time := Row.timestamp binance_row in
  let dex_price := Row.price_usd dex_row in
  let dex_time := Row.timestamp dex_row in
  let time_diff := Z.abs (binance_time - dex_time) in
  if dex_price <? binance_price then
    let buy_price := dex_price in
    let sell_price := binance_price in
    let buy_platform := (Row.chain dex_row +:+ " DEX")%string in
    let sell_platform := "Binance Futures"%string in
    let strategy := "DEX Long + CEX Short"%string in
    q ← fdiv (sell_price - buy_price) buy_price;
    let price_diff_pct := q * 100 in
    if price_diff_pct <? 0.05 then Ok st
    else
      let investment := 1000%Z in
      let dex_fee := float_of_int investment * DEX_FEE_RATE in
      tokens_bought ← fdiv (float_of_int investment - dex_fee - GAS_COST) buy_price;
      let futures_position_size := tokens_bought * sell_price in
      let futures_margin := futures_position_size * FUTURES_MARGIN_RATE in
      let futures_fee := futures_position_size * FUTURES_FEE_RATE in
      let total_required := float_of_int investment + futures_margin + futures_fee in
      let convergence_price := (buy_price + sell_price) / 2 in
      let dex_sell_proceeds :=
        tokens_bought * convergence_price * (1 - DEX_FEE_RATE) - GAS_COST in
      let futures_pnl := tokens_bought * (sell_price - convergence_price) in
      let futures_close_fee := futures_position_size * FUTURES_FEE_RATE in
      let funding_cost := futures_position_size * FUNDING_RATE_HOURLY in
      let dex_final_usdc := dex_sell_proceeds in
      let cex_final_usdc :=
        float_of_int investment + futures_pnl - futures_close_fee - funding_cost in
      let weekly_rebalance_cost := 8.0 in
      let daily_rebalance_cost := weekly_rebalance_cost / 7 in
      let total_final := dex_final_usdc + cex_final_usdc in
      let final_profit :=
        total_final - float_of_int (investment * 2) - daily_rebalance_cost in
      if snd st <? final_profit then
        efficiency ← fdiv final_profit total_required;
        Ok (Some {|
              Opportunity.token := token;
              Opportunity.timestamp := binance_time;
              Opportunity.datetime := Row.datetime binance_row;
              Opportunity.strategy := strategy;
              Opportunity.buy_platform := buy_platform;
              Opportunity.sell_platform := sell_platform;
              Opportunity.buy_price := buy_price;
              Opportunity.sell_price := sell_price;
              Opportunity.convergence_price := convergence_price;
              Opportunity.price_diff_pct := price_diff_pct;
              Opportunity.investment_per_side := investment;
              Opportunity.total_investment := (investment * 2)%Z;
              Opportunity.tokens_bought := tokens_bought;
              Opportunity.futures_margin := futures_margin;
              Opportunity.required_capital := total_required;
              Opportunity.dex_final_usdc := dex_final_usdc;
              Opportunity.cex_final_usdc := cex_final_usdc;
              Opportunity.total_final_usdc := total_final;
              Opportunity.futures_pnl := futures_pnl;
              Opportunity.total_fees :=
                dex_fee + futures_fee + futures_close_fee + funding_cost
                + GAS_COST * 2 + daily_rebalance_cost;
              Opportunity.rebalance_cost_daily := daily_rebalance_cost;
              Opportunity.final_profit := final_profit;
              Opportunity.profit_pct :=
                final_profit / float_of_int (investment * 2) * 100;
              Opportunity.time_diff := time_diff;
              Opportunity.capital_efficiency := efficiency * 100
            |}, final_profit)
      else Ok st
  else Ok st.

(** [for _, dex_row in nearby_dex.iterrows()] *)
Fixpoint leveraged_inner (token : string) (binance_row : Row)
  (nearby_dex : list Row) (st : option Opportunity * float)
  : result (option Opportunity * float) :=
  match nearby_dex with
  | [] => Ok st
  | dex_row :: rest =>
      st' ← leveraged_pair token binance_row dex_row st;
      leveraged_inner token binance_row rest st'
  end.

(** The rows of [dex_data] within five minutes of [binance_time]. *)
Definition nearby (dex_data : list Row) (binance_time : Z) : list Row :=
  let time_window := 300%Z in
  List.filter (fun r => (binance_time - time_window <=? Row.timestamp r)%Z
                   && (Row.timestamp r <=? binance_time + time_window)%Z)
         dex_data.

(** [for _, binance_row in binance_data.iterrows()] *)
Fixpoint leveraged_outer (token : string) (binance_data dex_data : list Row)
  (st : option Opportunity * float) : result (option Opportunity * float) :=
  match binance_data with
  | [] => Ok st
  | binance_row :: rest =>
      st' ← leveraged_inner token binance_row
              (nearby dex_data (Row.timestamp binance_row)) st;
      leveraged_outer token rest dex_data st'
  end.

Definition find_leveraged_opportunity (window_data : list Row) (token : string)
  : result (option Opportunity) :=
  let binance_data :=
    List.filter (fun r => String.eqb (Row.source r) "bybit") window_data in
  let dex_data :=
    List.filter (fun r => negb (String.eqb (Row.source r) "binance")) window_data in
  st ← leveraged_outer token binance_data dex_data (None, 0);
  Ok (if 0 <? snd st then fst st else None).

(** *** The full-cycle evaluator *)

(** The dict literal [TRANSFER_COSTS], in source order.  The six
    chain-to-chain keys are written twice; the later value is the one
    the dict keeps. *)
Definition TRANSFER_COSTS_items : list (string * string * float) :=
  [ ("arbitrum", "reference", 3.0); ("optimism", "reference", 2.5);
    ("base", "reference", 2.0);
    ("reference", "arbitrum", 8.0); ("reference", "optimism", 7.5);
    ("reference", "base", 6.0);
    ("arbitrum", "optimism", 12.0); ("arbitrum", "base", 10.0);
    ("optimism", "base", 8.0); ("optimism", "arbitrum", 12.0);
    ("base", "arbitrum", 10.0); ("base", "optimism", 8.0);
    ("arbitrum", "optimism", 15.0); ("arbitrum", "base", 13.0);
    ("optimism", "base", 11.0); ("optimism", "arbitrum", 15.0);
    ("base", "arbitrum", 13.0); ("base", "optimism", 11.0) ].

Definition TRANSFER_COSTS : gmap (string * string) float :=
  as_map TRANSFER_COSTS_items.

Definition GAS_COST_PER_TX : float := 2.0.
Definition DEX_FEE_PCT : float := 0.003.
Definition CEX_FEE_PCT : float := 0.001.

Definition MIN_TRANSFER_AMOUNTS : gmap string float :=
  as_map [("UNI", 0.1); ("WETH", 0.001); ("WBTC", 0.0001); ("LINK", 0.1);
          ("MATIC", 1.0)].

Definition same_venue (a b : Row) : bool :=
  String.eqb (Row.chain a) (Row.chain b) && String.eqb (Row.source a) (Row.source b).

(** The body of the inner loop of [find_profitable_cycle] for the rows
    [buy_data] (label [i]) and [sell_data] (label [j]), on the loop
    state [(best_cycle, max_profit)]. *)
Definition cycle_pair (token : string) (buy_data sell_data : Row)
  (st : option Cycle * float) : result (option Cycle * float) :=
  if (Row.index sell_data <=? Row.index buy_data)%Z then Ok st
  else if String.eqb (Row.source buy_data) (Row.source sell_data)
          && String.eqb (Row.chain buy_data) (Row.chain sell_data) then Ok st
  else
    let buy_price := Row.price_usd buy_data in
    let sell_price := Row.price_usd sell_data in
    if sell_price <=? buy_price * 1.01 then Ok st
    else
      let investment := 1000%Z in
      let buy_fee_rate :=
        if String.eqb (Row.source buy_data) "binance" then CEX_FEE_PCT else DEX_FEE_PCT in
      let buy_gas := GAS_COST_PER_TX in
      let net_investment := float_of_int investment - buy_gas in
      tokens_bought ← fdiv (net_investment * (1 - buy_fee_rate)) buy_price;
      let min_transfer := default 0.1 (MIN_TRANSFER_AMOUNTS !! token) in
      if tokens_bought <? min_transfer then Ok st
      else
        let transfer_key := (Row.chain buy_data, Row.chain sell_data) in
        let token_transfer_cost := default 0 (TRANSFER_COSTS !! transfer_key) in
        let token_transfer_cost :=
          if same_venue buy_data sell_data then 0 else token_transfer_cost in
        let tokens_after_transfer := tokens_bought in
        let sell_fee_rate :=
          if String.eqb (Row.source sell_data) "binance" then CEX_FEE_PCT else DEX_FEE_PCT in
        let sell_gas := GAS_COST_PER_TX in
        let usdc_received :=
          tokens_after_transfer * sell_price * (1 - sell_fee_rate) - sell_gas in
        let usdc_return_key := (Row.chain sell_data, Row.chain buy_data) in
        let usdc_return_cost := default 0 (TRANSFER_COSTS !! usdc_return_key) in
        let usdc_return_cost :=
          if same_venue buy_data sell_data then 0 else usdc_return_cost in
        let usdc_final := usdc_received - usdc_return_cost in
        let total_costs :=
          buy_gas + token_transfer_cost + sell_gas + usdc_return_cost
          + float_of_int investment * buy_fee_rate
          + tokens_bought * buy_price * sell_fee_rate in
        let final_profit := usdc_final - float_of_int investment in
        if snd st <? final_profit then
          let time_diff := (Row.timestamp sell_data - Row.timestamp buy_data)%Z in
          let needs_transfer :=
            negb (String.eqb (Row.chain buy_data) (Row.chain sell_data))
            || negb (String.eqb (Row.source buy_data) (Row.source sell_data)) in
          Ok (Some {|
                Cycle.token := token;
                Cycle.timestamp := Row.timestamp buy_data;
                Cycle.datetime := Row.datetime buy_data;
                Cycle.buy_price := buy_price;
                Cycle.sell_price := sell_price;
                Cycle.buy_source := Row.source buy_data;
                Cycle.buy_chain := Row.chain buy_data;
                Cycle.sell_source := Row.source sell_data;
                Cycle.sell_chain := Row.chain sell_data;
                Cycle.investment := investment;
                Cycle.tokens_bought := tokens_bought;
                Cycle.tokens_after_transfer := tokens_after_transfer;
                Cycle.usdc_received := usdc_received;
                Cycle.usdc_final := usdc_final;
                Cycle.total_costs := total_costs;
                Cycle.token_transfer_cost := token_transfer_cost;
                Cycle.usdc_return_cost := usdc_return_cost;
                Cycle.final_profit := final_profit;
                Cycle.profit_pct := final_profit / float_of_int investment * 100;
                Cycle.time_diff := time_diff;
                Cycle.needs_transfer := needs_transfer;
                Cycle.transfer_type :=
                  if needs_transfer
                  then (Row.chain buy_data +:+ "→" +:+ Row.chain sell_data)%string
                  else "同一プラットフォーム"%string
              |}, final_profit)
        else Ok st.

(** [for j, sell_data in window_data.iterrows()] *)
Fixpoint cycle_inner (token : string) (buy_data : Row) (sells : list Row)
  (st : option Cycle * float) : result (option Cycle * float) :=
  match sells with
  | [] => Ok st
  | sell_data :: rest =>
      st' ← cycle_pair token buy_data sell_data st;
      cycle_inner token buy_data rest st'
  end.

(** [for i, buy_data in window_data.iterrows()] *)
Fixpoint cycle_outer (token : string) (buys window_data : list Row)
  (st : option Cycle * float) : result (option Cycle * float) :=
  match buys with
  | [] => Ok st
  | buy_data :: rest =>
      st' ← cycle_inner token buy_data window_data st;
      cycle_outer token rest window_data st'
  end.

Definition find_profitable_cycle (window_data : list Row) (token : string)
  : result (option Cycle) :=
  st ← cycle_outer token window_data window_data (None, 0);
  Ok (if 0 <? snd st then fst st else None).

(** *** The scheduler *)

(** [min(...)] and [max(...)] of the two timestamps (ints). *)
Definition trade_start (trade : Trade) : Z :=
  Z.min (Trade.buy_timestamp trade) (Trade.sell_timestamp trade).

Definition trade_end (execution_time : Z) (trade : Trade) : Z :=
  Z.max (Trade.buy_timestamp trade) (Trade.sell_timestamp trade) + execution_time.

(** The loop of [filter_non_overlapping_trades] over the sorted frame,
    on the state [(selected_trades, occupied_times)]. *)
Fixpoint select_trades (execution_time : Z) (sorted_arb : list Trade)
  (selected_trades : list Trade) (occupied_times : list (Z * Z)) : list Trade :=
  match sorted_arb with
  | [] => selected_trades
  | trade :: rest =>
      let trade_start := trade_start trade in
      let trade_end := trade_end execution_time trade in
      let is_overlapping :=
        existsb (fun '(start_time, end_time) =>
                   (trade_start <? end_time)%Z && (start_time <? trade_end)%Z)
                occupied_times in
      if negb is_overlapping then
        select_trades execution_time rest (selected_trades ++ [trade])
          (occupied_times ++ [(trade_start, trade_end)])
      else select_trades execution_time rest selected_trades occupied_times
  end.

(** *** The drivers

    [DataFrame.sort_values] is a parameter: pandas sorts with an
    unstable quicksort by default, so the order it gives to rows with
    equal keys is not specified.  The theorems assume of it only what
    they need. *)

Section Drivers.
(** [df.sort_values('timestamp')] *)
Variable sort_by_timestamp : list Row -> list Row.
(** [df.sort_values('profit_per_trade', ascending=False)] *)
Variable sort_by_profit_desc : list Trade -> list Trade.

Definition filter_non_overlapping_trades (arb_df : list Trade)
  (execution_time : Z) : list Trade :=
  match arb_df with
  | [] => arb_df
  | _ => select_trades execution_time (sort_by_profit_desc arb_df) [] []
  end.

Definition rows_of_token (df : list Row) (token : string) : list Row :=
  List.filter (fun r => String.eqb (Row.token r) token) df.

Definition tokens_of (df : list Row) : list string :=
  unique (map Row.token df).

(** The forward window [current_time, current_time + time_window]. *)
Definition forward_window (token_data : list Row) (current_time time_window : Z)
  : list Row :=
  List.filter (fun r => (current_time <=? Row.timestamp r)%Z
                   && (Row.timestamp r <=? current_time + time_window)%Z)
         token_data.

(** The two nested loops shared by [analyze_leveraged_arbitrage] and
    [analyze_complete_arbitrage_cycle], for an evaluator [find]. *)
Fixpoint scan_rows {A : Type} (find : list Row -> string -> result (option A))
  (token : string) (token_data anchors : list Row) (time_window : Z)
  (found : list A) : result (list A) :=
  match anchors with
  | [] => Ok found
  | row :: rest =>
      let window_data := forward_window token_data (Row.timestamp row) time_window in
      if (2 <=? length window_data)%nat then
        r ← find window_data token;
        scan_rows find token token_data rest time_window
          (match r with Some x => found ++ [x] | None => found end)
      else scan_rows find token token_data rest time_window found
  end.

Fixpoint scan_tokens {A : Type} (find : list Row -> string -> result (option A))
  (df : list Row) (toks : list string) (time_window : Z) (found : list A)
  : result (list A) :=
  match toks with
  | [] => Ok found
  | token :: rest =>
      let token_data := rows_of_token df token in
      found' ← scan_rows find token token_data token_data time_window found;
      scan_tokens find df rest time_window found'
  end.

Definition analyze_leveraged_arbitrage (csv : list Row) (time_window : Z)
  : result (list Row * list Opportunity) :=
  let df := sort_by_timestamp csv in
  found ← scan_tokens find_leveraged_opportunity df (tokens_of df) time_window [];
  Ok (df, found).

Definition analyze_complete_arbitrage_cycle (csv : list Row) (time_window : Z)
  : result (list Row * list Cycle) :=
  let df := sort_by_timestamp csv in
  found ← scan_tokens find_profitable_cycle df (tokens_of df) time_window [];
  Ok (df, found).

(** *** The simple spread scan *)

(** The window around [row]: within [time_window] seconds on either
    side, the row itself excluded. *)
Definition around_window (token_data : list Row) (row : Row) (time_window : Z)
  : list Row :=
  List.filter (fun r => (Row.timestamp row - time_window <=? Row.timestamp r)%Z
                   && (Row.timestamp r <=? Row.timestamp row + time_window)%Z
                   && negb (Row.index r =? Row.index row)%Z)
         token_data.

Definition make_arb_key (token : string) (row other_row : Row) : string :=
  (token +:+ "_" +:+ str_of_int (Z.min (Row.timestamp row) (Row.timestamp other_row))
         +:+ "_" +:+ str_of_int (Z.max (Row.timestamp row) (Row.timestamp other_row)))%string.

(** The body of the innermost loop of [load_and_analyze_arbitrage]. *)
Definition spread_pair (token : string) (row other_row : Row)
  (arbitrage_opportunities : list Candidate) : list Candidate :=
  let current_price := Row.price_usd row in
  let other_price := Row.price_usd other_row in
  let min_price := min current_price other_price in
  let max_price := max current_price other_price in
  if 0 <? min_price then
    let spread_pct := (max_price - min_price) / min_price * 100 in
    if 0.05 <=? spread_pct then
      let time_diff := Z.abs (Row.timestamp row - Row.timestamp other_row) in
      let '(buy_data, sell_data) :=
        if current_price <? other_price then (row, other_row) else (other_row, row) in
      let arb_key := make_arb_key token row other_row in
      let existing :=
        existsb (fun opp => String.eqb (Candidate.arb_key opp) arb_key)
                arbitrage_opportunities in
      if negb existing then
        arbitrage_opportunities ++
          [{| Candidate.arb_key := arb_key;
              Candidate.timestamp := Row.timestamp row;
              Candidate.datetime := Row.datetime row;
              Candidate.token := token;
              Candidate.min_price := min_price;
              Candidate.max_price := max_price;
              Candidate.spread_usd := max_price - min_price;
              Candidate.spread_pct := spread_pct;
              Candidate.time_diff := time_diff;
              Candidate.buy_source := Row.source buy_data;
              Candidate.buy_chain := Row.chain buy_data;
              Candidate.sell_source := Row.source sell_data;
              Candidate.sell_chain := Row.chain sell_data;
              Candidate.buy_timestamp := Row.timestamp buy_data;
              Candidate.sell_timestamp := Row.timestamp sell_data |}]
      else arbitrage_opportunities
    else arbitrage_opportunities
  else arbitrage_opportunities.

Definition spread_anchor (token : string) (token_data : list Row) (time_window : Z)
  (arbitrage_opportunities : list Candidate) (row : Row) : list Candidate :=
  foldl (fun opps other_row => spread_pair token row other_row opps)
        arbitrage_opportunities (around_window token_data row time_window).

Definition spread_token (df : list Row) (time_window : Z)
  (arbitrage_opportunities : list Candidate) (token : string) : list Candidate :=
  let token_data := rows_of_token df token in
  foldl (spread_anchor token token_data time_window)
        arbitrage_opportunities token_data.

Definition load_and_analyze_arbitrage (csv : list Row) (time_window : Z)
  : list Row * list Candidate :=
  let df := sort_by_timestamp csv in
  (df, foldl (spread_token df time_window) [] (tokens_of df)).

(** *** Profit potential: the caller of the scheduler *)

(** The trades [calculate_profit_potential] hands to
    [filter_non_overlapping_trades], and what comes back. *)
Definition calculate_profit_potential (arb_df : list Candidate)
  (investment_amount : float) : list Trade :=
  let transaction_fee := 0.0025 in
  let profitable_arb :=
    List.filter (fun c => transaction_fee * 100 * 2 <? Candidate.spread_pct c) arb_df in
  let with_profit :=
    map (fun c =>
           let net_spread_pct := Candidate.spread_pct c - transaction_fee * 100 * 2 in
           {| Trade.candidate := c;
              Trade.net_spread_pct := net_spread_pct;
              Trade.profit_per_trade := investment_amount * (net_spread_pct / 100) |})
        profitable_arb in
  filter_non_overlapping_trades with_profit 30.

(** *** The command line *)

Inductive strategy_choice := leveraged | complete.

(** The parsed arguments, with argparse's defaults. *)
Record Args := {
  file : string;
  investment : float;
  window : Z;
  strategy : strategy_choice
}.

Definition default_args : Args :=
  {| file := "./data/unified_prices_20250728.csv"; investment := 100;
     window := 30; strategy := leveraged |}.

(** What [main] passes to the printing functions, or the error it
    reports. *)
Inductive report :=
| LeveragedReport (opportunities_df : list Opportunity)
| CompleteReport (cycles_df : list Cycle)
| FileNotFound
| ErrorReport (e : exn).

(** [main], for a file system [read_csv] ([None]: no such file). *)
Definition main (read_csv : string -> option (list Row)) (args : Args) : report :=
  match read_csv (file args) with
  | None => FileNotFound
  | Some csv =>
      match strategy args with
      | leveraged =>
          match analyze_leveraged_arbitrage csv (window args) with
          | Ok (_, opportunities_df) => LeveragedReport opportunities_df
          | Raise e => ErrorReport e
          end
      | complete =>
          match analyze_complete_arbitrage_cycle csv (window args) with
          | Ok (_, cycles_df) => CompleteReport cycles_df
          | Raise e => ErrorReport e
          end
      end
  end.

End Drivers.

(** *** Sorting functions that meet pandas' contract

    Insertion sorts, used to run the drivers on concrete frames.  Rows
    with equal keys keep the order of the input, which is the order
    pandas returns for frames as short as the ones of the scenarios. *)

Fixpoint insert_by_timestamp (r : Row) (l : list Row) : list Row :=
  match l with
  | [] => [r]
  | x :: l' =>
      if (Row.timestamp r <=? Row.timestamp x)%Z then r :: l
      else x :: insert_by_timestamp r l'
  end.

Definition isort_by_timestamp (l : list Row) : list Row :=
  foldr insert_by_timestamp [] l.

(** [a] may stand before [b] in descending order; NaN goes last. *)
Definition profit_geb (a b : Trade) : bool :=
  (Trade.profit_per_trade b <=? Trade.profit_per_trade a)
  || PrimFloat.is_nan (Trade.profit_per_trade b).

(** [a] must stand before [b]: its profit is larger, or [b]'s is a NaN
    and its own is not. *)
Definition profit_gtb (a b : Trade) : bool :=
  (Trade.profit_per_trade b <? Trade.profit_per_trade a)
  || (PrimFloat.is_nan (Trade.profit_per_trade b)
      && negb (PrimFloat.is_nan (Trade.profit_per_trade a))).

Fixpoint insert_by_profit (t : Trade) (l : list Trade) : list Trade :=
  match l with
  | [] => [t]
  | x :: l' =>
      if profit_gtb x t then x :: insert_by_profit t l' else t :: l
  end.

Definition isort_by_profit_desc (l : list Trade) : list Trade :=
  foldr insert_by_profit [] l.

End Analyzer.

(** ** Decimals as floats *)

Module Conv.
Import Dec.
Local Open Scope Q_scope.

(** The binary64 nearest to a positive rational, ties to even: the
    significand is the rational scaled to 53 bits (fewer for a
    subnormal) and rounded to an integer; scaling it back is exact, or
    overflows to infinity. *)
Definition float_of_pos (x : Q) : float :=
  let e0 := (Z.log2 (Qnum x) - Z.log2 (Zpos (Qden x)) - 52)%Z in
  let e1 := if Qle_bool (2 ^ 52) (x / 2 ^ e0) then e0 else (e0 - 1)%Z in
  let e := Z.max e1 (-1074) in
  let m := round_half_even (x / 2 ^ e) in
  Z.ldexp (of_uint63 (Uint63.of_Z m)) e.

(** [float(d)] for a finite Decimal [d]. *)
Definition float_of_finite (x : Q) : float :=
  match Qcompare x 0 with
  | Eq => 0%float
  | Gt => float_of_pos x
  | Lt => (- float_of_pos (- x))%float
  end.

(** [float(d)] for a Decimal [d]. *)
Definition float_of_decimal (d : dec) : float :=
  match d with
  | Finite x => float_of_finite x
  | NegZero => (- 0)%float
  | Infinity false => infinity
  | Infinity true => neg_infinity
  | NaN => nan
  end.
End Conv.

(** ** The collector's own spread analysis *)

(** The dict appended by [analyze_arbitrage_opportunities]. *)
Module Spread.
Record t := mk {
  token : string;
  spread_usd : float;
  spread_pct : float;
  sell_on : string;
  buy_on : string;
  max_price : float;
  min_price : float
}.
End Spread.
Abbreviation Spread := Spread.t.

Module Arbitrage.
Import Collector Conv.

(** [d[k] = v] on a dict in insertion order: the value of a key the
    dict has is replaced where it stands, a new key goes last. *)
Fixpoint dict_set {V : Type} (d : list (string * V)) (k : string) (v : V)
  : list (string * V) :=
  match d with
  | [] => [(k, v)]
  | (k', v') :: d' =>
      if String.eqb k' k then (k', v) :: d' else (k', v') :: dict_set d' k v
  end.

(** The prices of a token by venue, the reference venues left out. *)
Definition chain_prices_of (price_list : list PriceData) : list (string * Dec.dec) :=
  foldl (fun chain_prices price_data =>
           if negb (String.eqb (chain price_data) "reference") then
             dict_set chain_prices
               (source price_data +:+ "_" +:+ chain price_data)%string
               (price price_data)
           else chain_prices)
        [] price_list.

(** The builtins [min] and [max] on a list with first element [p]: the
    first of the smallest (largest) elements.  Each further element is
    compared with the running result, [x < m] for [min] and [x > m] for
    [max]; the comparison raises when one of the two is a NaN. *)
Fixpoint py_min (m : Dec.dec) (prices : list Dec.dec) : result Dec.dec :=
  match prices with
  | [] => Ok m
  | x :: rest =>
      smaller ← Dec.less x m;
      py_min (if smaller : bool then x else m) rest
  end.

Fixpoint py_max (m : Dec.dec) (prices : list Dec.dec) : result Dec.dec :=
  match prices with
  | [] => Ok m
  | x :: rest =>
      larger ← Dec.greater x m;
      py_max (if larger : bool then x else m) rest
  end.

(** [[k for k, v in chain_prices.items() if v == p][0]], for a price
    [p] taken from the dict: the list is then not empty. *)
Definition first_key (chain_prices : list (string * Dec.dec)) (p : Dec.dec) : string :=
  hd ""%string (map fst (List.filter (fun kv => Dec.equal kv.2 p) chain_prices)).

(** The body of the loop over [all_prices.items()]. *)
Definition analyze_token (token : string) (price_list : list PriceData)
  : result (option Spread) :=
  if (length price_list <? 2)%nat then Ok None
  else
    let chain_prices := chain_prices_of price_list in
    if (length chain_prices <? 2)%nat then Ok None
    else
      match values chain_prices with
      | [] => Ok None
      | p :: prices =>
          min_price ← py_min p prices;
          max_price ← py_max p prices;
          spread ← Dec.subtract max_price min_price;
          ratio ← Dec.divide spread min_price;
          pct ← Dec.multiply ratio (Dec.Finite (Dec.of_int 100));
          let spread_pct := float_of_decimal pct in
          if (0.1 <? spread_pct)%float then
            let max_source := first_key chain_prices max_price in
            let min_source := first_key chain_prices min_price in
            Ok (Some {| Spread.token := token;
                        Spread.spread_usd := float_of_decimal spread;
                        Spread.spread_pct := spread_pct;
                        Spread.sell_on := max_source;
                        Spread.buy_on := min_source;
                        Spread.max_price := float_of_decimal max_price;
                        Spread.min_price := float_of_decimal min_price |})
          else Ok None
      end.

Fixpoint analyze_groups (all_prices : list (string * list PriceData))
  (opportunities : list Spread) : result (list Spread) :=
  match all_prices with
  | [] => Ok opportunities
  | (token, price_list) :: rest =>
      r ← analyze_token token price_list;
      analyze_groups rest
        (match r with Some o => opportunities ++ [o] | None => opportunities end)
  end.

(** [sorted(..., key=spread_pct, reverse=True)]: a stable sort, so an
    element goes before the later elements with the same key. *)
Fixpoint insert_desc (o : Spread) (l : list Spread) : list Spread :=
  match l with
  | [] => [o]
  | x :: l' =>
      if (Spread.spread_pct o <? Spread.spread_pct x)%float
      then x :: insert_desc o l' else o :: l
  end.

Definition sorted_desc (l : list Spread) : list Spread := foldr insert_desc [] l.

(** [analyze_arbitrage_opportunities], for the dict [all_prices] in
    insertion order. *)
Definition analyze_arbitrage_opportunities (all_prices : list (string * list PriceData))
  : result (list Spread) :=
  opportunities ← analyze_groups all_prices [];
  Ok (sorted_desc opportunities).

(** The dict [get_all_prices] builds, in insertion order: a token's
    observations are appended to its entry, a new token goes last. *)
Fixpoint dict_append {V : Type} (d : list (string * list V)) (k : string) (v : V)
  : list (string * list V) :=
  match d with
  | [] => [(k, [v])]
  | (k', l) :: d' =>
      if String.eqb k' k then (k', l ++ [v]) :: d' else (k', l) :: dict_append d' k v
  end.

Definition group_items (all_prices_list : list PriceData)
  : list (string * list PriceData) :=
  foldl (fun all_results price_data =>
           dict_append all_results (token price_data) price_data)
        [] all_prices_list.

End Arbitrage.

(** ** The per-instrument fallback of Bybit *)

Module Fallback.
Import Collector.

Section Bybit.
Variable self : UnifiedPriceSystem.
Variable env : Env.

(** [fetch_bybit_price]: the result and the delays slept. *)
Definition fetch_bybit_price (token_symbol : string)
  : result (option PriceData) * list Q :=
  match as_map (tokens self) !! token_symbol with
  | None => (Ok None, [])
  | Some _ =>
      match as_map (cex_symbols_bybit self) !! token_symbol with
      | None => (Raise KeyError, [])
      | Some sym =>
          match bybit_single env sym with
          | HttpRaise _ => (Ok None, [1]%Q)
          | HttpResponse status body =>
              if status =? 200 then
                (Ok (catch (data ← body;
                            match retCode data, result_list data with
                            | Some 0, Some (Some tickers) =>
                                match tickers with
                                | [] => Ok None
                                | ticker :: _ =>
                                    p ← to_decimal (bt_lastPrice ticker);
                                    Ok (Some (bybit_record env token_symbol p))
                                end
                            | _, _ => Ok None
                            end)
                           (fun _ => None)),
                 [1]%Q)
              else if status =? 429 then (Ok None, [1; 1]%Q)
              else (Ok None, [1]%Q)
          end
      end
  end.

(** [_fetch_bybit_individual]: the first five tokens only. *)
Fixpoint bybit_individual_loop (toks : list string)
  (results : list PriceData) (slept : list Q) : list PriceData * list Q :=
  match toks with
  | [] => (results, slept)
  | tok :: rest =>
      let '(r, s) := fetch_bybit_price tok in
      match r with
      | Ok (Some pd) =>
          bybit_individual_loop rest (results ++ [pd]) (slept ++ s)
      | Ok None | Raise _ => bybit_individual_loop rest results (slept ++ s)
      end
  end.

Definition _fetch_bybit_individual : list PriceData * list Q :=
  bybit_individual_loop (firstn 5 (keys (tokens self))) [] [].

End Bybit.
End Fallback.

(** * Specification vocabulary

    The notions the properties below are stated with. *)

Module Spec.
Import Collector Dec Py Analyzer.

(** The interval [start, end) a trade occupies. *)
Definition interval (execution_time : Z) (trade : Trade) : Z * Z :=
  (trade_start trade, trade_end execution_time trade).

(** Two intervals overlap: each starts before the other ends. *)
Definition overlap (a b : Z * Z) : Prop := a.1 < b.2 /\ b.1 < a.2.

(** An instant lies in the half-open interval. *)
Definition occupies (iv : Z * Z) (t : Z) : Prop := iv.1 <= t < iv.2.

(** Greedy acceptance over a list of candidates, in order, from the
    trades accepted so far: a candidate is accepted exactly when it
    overlaps no accepted trade; a rejected one is never looked at again. *)
Inductive greedy (execution_time : Z) : list Trade -> list Trade -> list Trade -> Prop :=
| greedy_done accepted :
    greedy execution_time accepted [] accepted
| greedy_accept accepted trade rest out :
    (forall a, In a accepted ->
               ~ overlap (interval execution_time trade) (interval execution_time a)) ->
    greedy execution_time (accepted ++ [trade]) rest out ->
    greedy execution_time accepted (trade :: rest) out
| greedy_reject accepted trade rest out :
    (exists a, In a accepted /\
               overlap (interval execution_time trade) (interval execution_time a)) ->
    greedy execution_time accepted rest out ->
    greedy execution_time accepted (trade :: rest) out.

(** Descending order of profit, NaN last: the order of
    [sort_values('profit_per_trade', ascending=False)]. *)
Definition profit_desc (a b : Trade) : Prop := profit_geb a b = true.

(** The scaling factor [10^(tokenDecimals - usdDecimals)]. *)
Definition scale (token_decimals : Z) : Q :=
  pow10_int (token_decimals - usdc_decimals).

(** The cache invariant: the ordering flag of a cached pool is the one
    [_determine_token_order] gives for the configured addresses.  The
    empty cache has it, and [fetch_uniswap_price] is the only writer. *)
Definition cache_ok (self : UnifiedPriceSystem) (cache : gmap string PoolCacheEntry)
  : Prop :=
  forall chain_name token_symbol config token_address entry,
    as_map (chains self) !! chain_name = Some config ->
    as_map (chain_tokens config) !! token_symbol = Some token_address ->
    cache !! (chain_name +:+ "_" +:+ token_symbol)%string = Some entry ->
    token_is_token0 entry
    = (_determine_token_order token_address (usdc_address config)).1.1.

(** No two configured (chain, token) pairs share a cache key. *)
Definition keys_distinct (self : UnifiedPriceSystem) : Prop :=
  forall c1 t1 c2 t2 config1 config2,
    as_map (chains self) !! c1 = Some config1 ->
    as_map (chains self) !! c2 = Some config2 ->
    (c1 +:+ "_" +:+ t1 = c2 +:+ "_" +:+ t2)%string ->
    c1 = c2 /\ t1 = t2.

(** A name without an underscore. *)
Fixpoint no_underscore (s : string) : bool :=
  match s with
  | EmptyString => true
  | String c s' => negb (Ascii.eqb c "_") && no_underscore s'
  end.

(** The token's address is the lexicographically smaller one (addresses
    compared in lower case, as hexadecimal text). *)
Definition address_lower (token_address usdc : string) : bool :=
  String.ltb (lower token_address) (lower usdc).

(** The price formula of the specification, in the decimal arithmetic
    of the code: [sqrtPrice = raw / 2^96], [ratio = sqrtPrice^2], and
    [ratio * 10^(d_t - d_u)] or [(1 / ratio) * 10^(d_t - d_u)]. *)
Definition spec_price_usd (raw d_t d_u : Z) (token_is_lower : bool) : result Q :=
  sqrtPrice ← Dec.div (of_int raw) (of_int (2 ^ 96));
  let ratio := Dec.mul sqrtPrice sqrtPrice in
  if token_is_lower then Ok (Dec.mul ratio (pow10_int (d_t - d_u)))
  else
    match Dec.div (of_int 1) ratio with
    | Ok inverse => Ok (Dec.mul inverse (pow10_int (d_t - d_u)))
    | Raise e => Raise e
    end.

(** An observation that did not come from the pool reader. *)
Definition off_chain (pd : PriceData) : Prop := source pd <> "uniswap_v3"%string.

(** An on-chain observation that passed the sanity filter. *)
Definition checked (pd : PriceData) : Prop :=
  source pd = "uniswap_v3"%string
  /\ exists p, price pd = Finite p
              /\ (price_lower_bound <= p)%Q /\ (p <= price_upper_bound)%Q.

(** A Bybit reply whose first record lacks its symbol or carries no
    usable [lastPrice]. *)
Definition bybit_bad_record (r : http bybit_reply) : Prop :=
  exists t ts code,
    r = HttpResponse 200 (Ok {| retCode := code; result_list := Some (Some (t :: ts)) |})
    /\ (bt_symbol t = None \/ bt_lastPrice t = Absent \/ bt_lastPrice t = Malformed).

(** A record of a Binance batch that lacks its symbol, or is of a
    configured symbol and carries no usable price. *)
Definition binance_bad_record (self : UnifiedPriceSystem) (t : ticker) : Prop :=
  tk_symbol t = None
  \/ exists sym tok,
       tk_symbol t = Some sym
       /\ reverse_dict (cex_symbols_binance self) !! sym = Some tok
       /\ (tk_price t = Absent \/ tk_price t = Malformed).

(** The record the Binance adapter makes of a record of the batch: none
    for a symbol that is not configured. *)
Definition binance_expected (self : UnifiedPriceSystem) (env : Env) (t : ticker)
  : option PriceData :=
  match tk_symbol t with
  | Some sym =>
      match reverse_dict (cex_symbols_binance self) !! sym, tk_price t with
      | Some tok, Present p => Some (binance_record env tok p)
      | _, _ => None
      end
  | None => None
  end.

(** What a bulk attempt of the Binance adapter comes to. *)
Inductive attempt_result : Type :=
| Delivered (results : list PriceData)
    (* status 200 and a batch without a bad record: its records *)
| RateLimited
    (* status 429 *)
| Broken
    (* the request raises or times out, the body cannot be read, or
       the batch holds a bad record *)
| Refused.
    (* any other status *)

(** Attempt [k] of a pass, read off the reply to it. *)
Definition bulk_attempt (self : UnifiedPriceSystem) (env : Env) (k : nat)
  (r : attempt_result) : Prop :=
  match r with
  | Delivered results =>
      exists all_data,
        binance_bulk env k = HttpResponse 200 (Ok all_data)
        /\ Forall (fun t => ~ binance_bad_record self t) all_data
        /\ results = omap (binance_expected self env) all_data
  | RateLimited => exists body, binance_bulk env k = HttpResponse 429 body
  | Broken =>
      (exists e, binance_bulk env k = HttpRaise e)
      \/ (exists e, binance_bulk env k = HttpResponse 200 (Raise e))
      \/ (exists all_data t,
            binance_bulk env k = HttpResponse 200 (Ok all_data)
            /\ In t all_data /\ binance_bad_record self t)
  | Refused =>
      exists status body,
        binance_bulk env k = HttpResponse status body
        /\ status <> 200 /\ status <> 429
  end.

(** The delay slept after attempt [k] (of 0, 1, 2) when it delivers
    nothing: [2^k] when rate-limited, 1 when broken unless it is the
    last attempt, none when refused. *)
Definition delay_after (k : nat) (r : attempt_result) : list Q :=
  match r with
  | Delivered _ => []
  | RateLimited => [inject_Z (2 ^ Z.of_nat k)]
  | Broken => if (k <? 2)%nat then [1%Q] else []
  | Refused => []
  end.

(** The profit the full-cycle evaluator returns: the proceeds less the
    return transfer cost and the investment; both transfer costs are
    the table's entries for the two directions (0 when absent). *)
Definition cycle_profit_as_coded (c : Cycle) : Prop :=
  (Cycle.final_profit c
   = Cycle.usdc_received c - Cycle.usdc_return_cost c - float_of_int 1000)%float
  /\ Cycle.token_transfer_cost c
     = default 0%float (TRANSFER_COSTS !! (Cycle.buy_chain c, Cycle.sell_chain c))
  /\ Cycle.usdc_return_cost c
     = default 0%float (TRANSFER_COSTS !! (Cycle.sell_chain c, Cycle.buy_chain c)).

(** The two sides of an opportunity of the leveraged evaluator: the sell
    side is a "bybit" row of the window, the buy side a row whose source
    is not "binance", quoted strictly lower. *)
Definition leveraged_sides (window_data : list Row) (o : Opportunity) : Prop :=
  exists dex_row binance_row,
    In dex_row window_data /\ In binance_row window_data
    /\ Row.source binance_row = "bybit"%string
    /\ Row.source dex_row <> "binance"%string
    /\ Opportunity.buy_price o = Row.price_usd dex_row
    /\ Opportunity.sell_price o = Row.price_usd binance_row
    /\ (Opportunity.buy_price o <? Opportunity.sell_price o)%float = true
    /\ Opportunity.buy_platform o = (Row.chain dex_row +:+ " DEX")%string.

(** The state of an evaluator's loops holds nothing, or a record that
    satisfies [P]. *)
Definition holds {A} (P : A -> Prop) (st : option A * float) : Prop :=
  match fst st with
  | Some x => P x
  | None => True
  end.

(** The loop state of the full-cycle evaluator: the best cycle so far
    has the coded profit, which is the running maximum. *)
Definition cycle_state_ok (st : option Cycle * float) : Prop :=
  holds (fun c => cycle_profit_as_coded c /\ Cycle.final_profit c = snd st) st.

(** The rows the leveraged evaluator takes as sell side and as buy side. *)
Definition sell_row (window_data : list Row) (r : Row) : Prop :=
  In r window_data /\ Row.source r = "bybit"%string.
Definition buy_row (window_data : list Row) (r : Row) : Prop :=
  In r window_data /\ Row.source r <> "binance"%string.

Definition fixed_notional (o : Opportunity) : Prop :=
  Opportunity.investment_per_side o = 1000%Z /\ Opportunity.total_investment o = 2000%Z.

End Spec.

(** * Further vocabulary

    The notions of the properties of the second part. *)

Module AnalyzerTerms.
Import Collector Dec Py Analyzer Spec.
Local Open Scope float_scope.

(** The loop state of an evaluator: the best record so far satisfies
    [P], and its profit is the running maximum. *)
Definition best {A} (profit : A -> float) (P : A -> Prop) (st : option A * float)
  : Prop :=
  holds (fun x => P x /\ profit x = snd st) st.

(** What an iteration of the leveraged evaluator's inner loop records
    when it replaces the best opportunity. *)
Definition leveraged_step (binance_row dex_row : Row)
  (st : option Opportunity * float) (o : Opportunity) : Prop :=
  Opportunity.time_diff o = Z.abs (Row.timestamp binance_row - Row.timestamp dex_row)
  /\ Opportunity.timestamp o = Row.timestamp binance_row
  /\ (Opportunity.price_diff_pct o <? 0.05) = false
  /\ (snd st <? Opportunity.final_profit o) = true.

(** The same for the full-cycle evaluator. *)
Definition cycle_step (buy_data sell_data : Row)
  (st : option Cycle * float) (c : Cycle) : Prop :=
  Cycle.time_diff c = (Row.timestamp sell_data - Row.timestamp buy_data)%Z
  /\ Cycle.timestamp c = Row.timestamp buy_data
  /\ (Row.index buy_data < Row.index sell_data)%Z
  /\ Cycle.needs_transfer c = true
  /\ Cycle.transfer_type c
     = (Cycle.buy_chain c +:+ "→" +:+ Cycle.sell_chain c)%string
  /\ (Cycle.buy_source c <> Cycle.sell_source c
      \/ Cycle.buy_chain c <> Cycle.sell_chain c)
  /\ Cycle.token_transfer_cost c
     = default 0 (TRANSFER_COSTS !! (Cycle.buy_chain c, Cycle.sell_chain c))
  /\ (Cycle.sell_price c <=? Cycle.buy_price c * 1.01) = false
  /\ (snd st <? Cycle.final_profit c) = true.

(** The records of [found] that carry the token [token]. *)
Definition records_of {A} (token_of : A -> string) (token : string) (found : list A)
  : list A :=
  List.filter (fun x => String.eqb (token_of x) token) found.

(** An opportunity of the leveraged analysis run with [time_window]. *)
Definition leveraged_ok (time_window : Z) (o : Opportunity) : Prop :=
  (0 <= Opportunity.time_diff o <= 300)%Z
  /\ (Opportunity.time_diff o <= time_window)%Z
  /\ (Opportunity.price_diff_pct o <? 0.05) = false
  /\ (0 <? Opportunity.final_profit o) = true.

(** A cycle of the full-cycle analysis run with [time_window]. *)
Definition cycle_ok (time_window : Z) (c : Cycle) : Prop :=
  Cycle.needs_transfer c = true
  /\ Cycle.transfer_type c
     = (Cycle.buy_chain c +:+ "→" +:+ Cycle.sell_chain c)%string
  /\ (Cycle.buy_source c <> Cycle.sell_source c
      \/ Cycle.buy_chain c <> Cycle.sell_chain c)
  /\ (- time_window <= Cycle.time_diff c <= time_window)%Z
  /\ (Cycle.sell_price c <=? Cycle.buy_price c * 1.01) = false
  /\ (0 <? Cycle.final_profit c) = true.

(** A candidate of the spread scan run with [time_window]. *)
Definition candidate_ok (time_window : Z) (c : Candidate) : Prop :=
  Candidate.time_diff c
  = Z.abs (Candidate.buy_timestamp c - Candidate.sell_timestamp c)
  /\ (Candidate.time_diff c <= time_window)%Z
  /\ (0 <? Candidate.min_price c) = true
  /\ (0.05 <=? Candidate.spread_pct c) = true
  /\ Candidate.spread_pct c
     = (Candidate.max_price c - Candidate.min_price c) / Candidate.min_price c * 100
  /\ Candidate.spread_usd c = Candidate.max_price c - Candidate.min_price c
  /\ Candidate.arb_key c
     = (Candidate.token c +:+ "_"
        +:+ str_of_int (Z.min (Candidate.buy_timestamp c) (Candidate.sell_timestamp c))
        +:+ "_"
        +:+ str_of_int (Z.max (Candidate.buy_timestamp c) (Candidate.sell_timestamp c)))%string.

(** A trade [calculate_profit_potential] schedules, for the candidates
    [arb_df] and the notional [investment_amount]. *)
Definition trade_ok (arb_df : list Candidate) (investment_amount : float)
  (tr : Trade) : Prop :=
  In (Trade.candidate tr) arb_df
  /\ (0.5 <? Candidate.spread_pct (Trade.candidate tr)) = true
  /\ Trade.net_spread_pct tr = Candidate.spread_pct (Trade.candidate tr) - 0.5
  /\ Trade.profit_per_trade tr = investment_amount * (Trade.net_spread_pct tr / 100).
End AnalyzerTerms.

Module CollectorTerms.
Import Collector Dec Conv Arbitrage Spec.

(** The value of a hexadecimal digit, in either case. *)
Definition hex_digit (c : ascii) : option Z :=
  let n := Z.of_N (N_of_ascii c) in
  if (48 <=? n) && (n <=? 57) then Some (n - 48)
  else if (97 <=? n) && (n <=? 102) then Some (n - 87)
  else if (65 <=? n) && (n <=? 70) then Some (n - 55)
  else None.

(** The number a string of hexadecimal digits writes after [acc], most
    significant digit first. *)
Fixpoint hex_value (acc : Z) (s : string) : option Z :=
  match s with
  | EmptyString => Some acc
  | String c s' => d ← hex_digit c; hex_value (16 * acc + d) s'
  end.

(** The 160-bit number of an address written as ["0x"] and 40
    hexadecimal digits, the order Uniswap sorts a pool's tokens by. *)
Definition address_value (a : string) : option Z :=
  match a with
  | String "0" (String "x" digits) =>
      if (String.length digits =? 40)%nat then hex_value 0 digits else None
  | _ => None
  end.

(** Every ASCII character. *)
Definition all_ascii : list ascii := map ascii_of_nat (seq 0 256).

Definition comparison_eqb (a b : comparison) : bool :=
  match a, b with
  | Eq, Eq | Lt, Lt | Gt, Gt => true
  | _, _ => false
  end.

(** On hexadecimal digits, the order of the lowered characters is the
    order of their values. *)
Definition digit_order_agrees (c d : ascii) : bool :=
  match hex_digit c, hex_digit d with
  | Some x, Some y =>
      comparison_eqb (Ascii.compare (lower_ascii c) (lower_ascii d)) (x ?= y)
      && (0 <=? x) && (x <? 16)
  | _, _ => true
  end.

(** Every cached pool has a fee tier a pool can have: above zero and
    below the fee denominator. *)
Definition fees_ok (cache : gmap string PoolCacheEntry) : Prop :=
  forall k entry, cache !! k = Some entry -> (0 < pool_fee entry < 1000000)%Z.

(** An on-chain observation with its synthetic quotes: a positive bid
    below the mid price, an ask above it, and the fee rate. *)
Definition quoted (pd : PriceData) : Prop :=
  exists mid bid ask fee_rate,
    price pd = Finite mid
    /\ market_cap pd = Some bid /\ volume_24h pd = Some ask
    /\ price_change_24h pd = Some fee_rate
    /\ (0 < bid)%Q /\ (bid < mid)%Q /\ (mid < ask)%Q
    /\ (0 < fee_rate)%Q /\ (fee_rate < 1)%Q.

(** The record the Hyperliquid adapter makes of an item of [allMids]:
    none for a symbol outside its mapping. *)
Definition hyperliquid_expected (env : Env) (item : string * field Dec.dec)
  : option PriceData :=
  match as_map hyperliquid_mappings !! item.1, item.2 with
  | Some tok, Present q => Some (perpetual_record env "hyperliquid" tok q)
  | _, _ => None
  end.

(** An item of a mapped symbol whose price cannot be converted. *)
Definition hyperliquid_bad (item : string * field Dec.dec) : Prop :=
  is_Some (as_map hyperliquid_mappings !! item.1)
  /\ (item.2 = Absent \/ item.2 = Malformed).

(** The record the dYdX adapter makes of a market: none for a market
    outside its mapping or without an oracle price. *)
Definition dydx_expected (env : Env) (market : string * option (field Dec.dec))
  : option PriceData :=
  match as_map dydx_mappings !! market.1, market.2 with
  | Some tok, Some (Present q) => Some (perpetual_record env "dydx_v4" tok q)
  | _, _ => None
  end.

Definition dydx_bad (market : string * option (field Dec.dec)) : Prop :=
  is_Some (as_map dydx_mappings !! market.1)
  /\ (market.2 = Some Absent \/ market.2 = Some Malformed).

(** The sum of the delays slept. *)
Definition total_sleep (slept : list Q) : Q := fold_right Qplus 0%Q slept.

(** A finite price, the negative zero included. *)
Definition finite (d : dec) : Prop :=
  match d with
  | Finite _ | NegZero => True
  | _ => False
  end.

(** A finite price that is not negative. *)
Definition finite_nonneg (d : dec) : Prop :=
  finite d /\ (0 <= finite_value d)%Q.

(** A price of zero. *)
Definition zero_price (d : dec) : Prop :=
  finite d /\ (finite_value d == 0)%Q.

(** The key of a venue in [chain_prices]. *)
Definition venue_key (pd : PriceData) : string :=
  (source pd +:+ "_" +:+ chain pd)%string.

(** An opportunity of the collector's spread analysis of [all_prices]:
    it names two different venues of its token, neither of them a
    reference venue, and its spread exceeds 0.1%. *)
Definition spread_ok (all_prices : list (string * list PriceData)) (o : Spread)
  : Prop :=
  exists price_list pd_buy pd_sell,
    In (Spread.token o, price_list) all_prices
    /\ In pd_buy price_list /\ In pd_sell price_list
    /\ chain pd_buy <> "reference"%string /\ chain pd_sell <> "reference"%string
    /\ Spread.buy_on o = venue_key pd_buy
    /\ Spread.sell_on o = venue_key pd_sell
    /\ Spread.buy_on o <> Spread.sell_on o
    /\ (0.1 <? Spread.spread_pct o)%float = true.

(** An observation of a pass over the pools: of a configured token on a
    connected chain, from a pool that is cached when the pass ends. *)
Definition from_pool (self : UnifiedPriceSystem) (cache' : gmap string PoolCacheEntry)
  (pd : PriceData) : Prop :=
  source pd = "uniswap_v3"%string
  /\ chain pd ∈ web3_instances self
  /\ (exists config token_address,
         as_map (chains self) !! chain pd = Some config
         /\ as_map (chain_tokens config) !! token pd = Some token_address)
  /\ is_Some (as_map (tokens self) !! token pd)
  /\ is_Some (cache' !! (chain pd +:+ "_" +:+ token pd)%string).

(** The entries of the grouped dict for the observations [l]: the
    tokens in the order they are first seen, each with its observations
    in arrival order. *)
Definition grouped (l : list PriceData) : list (string * list PriceData) :=
  map (fun t => (t, List.filter (fun pd => String.eqb (token pd) t) l))
      (Py.unique (map token l)).
End CollectorTerms.

(** * Concrete inputs

    Windows, candidate sets and network replies on which the code is run
    in the scenarios below. *)

Module Inputs.
Import Collector Py Analyzer.

(** A pass in which Binance quotes ETHUSDC at 0, the other venues are
    unreachable and no chain is connected. *)
Definition env_zero_quote : Env :=
  {| now := 0%float;
     binance_bulk := fun _ =>
       HttpResponse 200 (Ok [{| tk_symbol := Some "ETHUSDC"%string;
                                tk_price := Present (Dec.Finite 0) |}]);
     binance_single := fun _ => HttpRaise TransportError;
     bybit_single := fun _ => HttpRaise TransportError;
     hyperliquid_mids := HttpRaise TransportError;
     dydx_markets := HttpRaise TransportError;
     getPool := fun _ _ _ _ => Raise TransportError;
     slot0 := fun _ _ => Raise TransportError |}.

(** A pass in which every bulk reply of Binance holds a good BNBUSDC
    record and an ETHUSDC record without its price, and the
    per-instrument endpoint answers 250 for whatever is asked. *)
Definition env_bad_record : Env :=
  {| now := 0%float;
     binance_bulk := fun _ =>
       HttpResponse 200
         (Ok [{| tk_symbol := Some "BNBUSDC"%string; tk_price := Present (Dec.Finite 600) |};
              {| tk_symbol := Some "ETHUSDC"%string; tk_price := Absent |}]);
     binance_single := fun _ => HttpResponse 200 (Ok (Present (Dec.Finite 250)));
     bybit_single := fun _ => HttpRaise TransportError;
     hyperliquid_mids := HttpRaise TransportError;
     dydx_markets := HttpRaise TransportError;
     getPool := fun _ _ _ _ => Raise TransportError;
     slot0 := fun _ _ => Raise TransportError |}.

(** A pass in which the first bulk request of Binance times out, the
    second is answered 429 and the third with a batch: a BNBUSDC record
    and a record of a symbol that is not configured, without a price. *)
Definition env_third_attempt : Env :=
  {| now := 0%float;
     binance_bulk := fun k =>
       match k with
       | O => HttpRaise TimeoutError
       | S O => HttpResponse 429 (Raise TransportError)
       | _ =>
           HttpResponse 200
             (Ok [{| tk_symbol := Some "BNBUSDC"%string;
                     tk_price := Present (Dec.Finite 600) |};
                  {| tk_symbol := Some "XYZUSDC"%string; tk_price := Absent |}])
       end;
     binance_single := fun _ => HttpRaise TransportError;
     bybit_single := fun _ => HttpRaise TransportError;
     hyperliquid_mids := HttpRaise TransportError;
     dydx_markets := HttpRaise TransportError;
     getPool := fun _ _ _ _ => Raise TransportError;
     slot0 := fun _ _ => Raise TransportError |}.

(** A pass in which the first bulk request of Binance fails, the second
    is answered 500 and the third with a batch of one BNBUSDC record. *)
Definition env_server_error : Env :=
  {| now := 0%float;
     binance_bulk := fun k =>
       match k with
       | O => HttpRaise TransportError
       | S O => HttpResponse 500 (Raise TransportError)
       | _ =>
           HttpResponse 200
             (Ok [{| tk_symbol := Some "BNBUSDC"%string;
                     tk_price := Present (Dec.Finite 600) |}])
       end;
     binance_single := fun _ => HttpRaise TransportError;
     bybit_single := fun _ => HttpRaise TransportError;
     hyperliquid_mids := HttpRaise TransportError;
     dydx_markets := HttpRaise TransportError;
     getPool := fun _ _ _ _ => Raise TransportError;
     slot0 := fun _ _ => Raise TransportError |}.

(** A pass in which Binance answers every request with 429. *)
Definition env_rate_limited : Env :=
  {| now := 0%float;
     binance_bulk := fun _ => HttpResponse 429 (Raise TransportError);
     binance_single := fun _ => HttpResponse 429 (Raise TransportError);
     bybit_single := fun _ => HttpRaise TransportError;
     hyperliquid_mids := HttpRaise TransportError;
     dydx_markets := HttpRaise TransportError;
     getPool := fun _ _ _ _ => Raise TransportError;
     slot0 := fun _ _ => Raise TransportError |}.

Definition uni_row (index timestamp : Z) (source chain : string) (price_usd : float)
  : Row :=
  {| Row.index := index; Row.timestamp := timestamp;
     Row.datetime := "2025-07-28 12:00:00"; Row.source := source;
     Row.chain := chain; Row.token := "UNI"; Row.price_usd := price_usd |}.

(** Two pools, on Arbitrum at 100 and on Base at 103: a 3% spread. *)
Definition arbitrum_base_window : list Row :=
  [uni_row 0 0 "uniswap_v3" "arbitrum" 100; uni_row 1 1 "uniswap_v3" "base" 103].

(** Two observations of the centralized venue itself, a second apart. *)
Definition bybit_only_window : list Row :=
  [uni_row 0 0 "bybit" "reference" 100; uni_row 1 1 "bybit" "reference" 98].

(** Three venues quote 100, 100.06 and 103 in the same second ... *)
Definition same_second : list Row :=
  [uni_row 0 0 "binance" "reference" 100; uni_row 1 0 "bybit" "reference" 100.06;
   uni_row 2 0 "uniswap_v3" "base" 103].

(** ... or in three consecutive seconds. *)
Definition three_seconds : list Row :=
  [uni_row 0 0 "binance" "reference" 100; uni_row 1 1 "bybit" "reference" 100.06;
   uni_row 2 2 "uniswap_v3" "base" 103].

Definition hedge_csv : list Row :=
  [uni_row 0 0 "bybit" "reference" 100; uni_row 1 1 "uniswap_v3" "arbitrum" 98].

Definition args_with (supplied : float) : Args :=
  {| file := "prices.csv"; investment := supplied; window := 30;
     strategy := leveraged |}.

Definition trade (profit : float) (buy_timestamp sell_timestamp : Z) : Trade :=
  {| Trade.candidate :=
       {| Candidate.arb_key := "UNI"; Candidate.timestamp := buy_timestamp;
          Candidate.datetime := "2025-07-28 12:00:00"; Candidate.token := "UNI";
          Candidate.min_price := 100; Candidate.max_price := 101;
          Candidate.spread_usd := 1; Candidate.spread_pct := 1;
          Candidate.time_diff := Z.abs (buy_timestamp - sell_timestamp);
          Candidate.buy_source := "binance"; Candidate.buy_chain := "reference";
          Candidate.sell_source := "uniswap_v3"; Candidate.sell_chain := "base";
          Candidate.buy_timestamp := buy_timestamp;
          Candidate.sell_timestamp := sell_timestamp |};
     Trade.net_spread_pct := 0.5;
     Trade.profit_per_trade := profit |}.

(** Profit 50 over [100, 180), 40 over [50, 110), 30 over [170, 205). *)
Definition c50 : Trade := trade 50 100 150.
Definition c40 : Trade := trade 40 50 80.
Definition c30 : Trade := trade 30 170 175.

Definition weth_address : string := "0xC02aaA39b223FE8D0A0e5C4F27eAD9083C756Cc2".
Definition weth_usdc_pool : string := "0x88e6A0c2dDD26FEEb64F039a2c41296FcB3f5640".

(** A pass with Ethereum connected, on which only WETH has a pool, at
    the 0.05% tier, with square-root price 16222 * 2^96 (about 3800 USD
    per WETH); the other venues are unreachable. *)
Definition env_weth_pool : Env :=
  {| now := 0%float;
     binance_bulk := fun _ => HttpRaise TransportError;
     binance_single := fun _ => HttpRaise TransportError;
     bybit_single := fun _ => HttpRaise TransportError;
     hyperliquid_mids := HttpRaise TransportError;
     dydx_markets := HttpRaise TransportError;
     getPool := fun _ token_address _ fee =>
       if (String.eqb token_address weth_address && (fee =? 500))%bool
       then Ok weth_usdc_pool else Ok zero_address;
     slot0 := fun _ _ => Ok (16222 * 2 ^ 96) |}.

End Inputs.

Module Samples.
Import Collector Py Analyzer Inputs Arbitrage.

(** A log in which Bybit quotes 100 and, a second later, Hyperliquid
    quotes 0. *)
Definition zero_quote_csv : list Row :=
  [uni_row 0 0 "bybit" "reference" 100; uni_row 1 1 "hyperliquid" "perpetual" 0].

(** A log of Binance and of a pool only: 100 and, a second later, 98. *)
Definition binance_pool_csv : list Row :=
  [uni_row 0 0 "binance" "reference" 100; uni_row 1 1 "uniswap_v3" "base" 98].

(** The log of [hedge_csv] with a single row of WETH. *)
Definition lone_weth_csv : list Row :=
  hedge_csv
  ++ [{| Row.index := 2; Row.timestamp := 2; Row.datetime := "2025-07-28 12:00:02";
         Row.source := "bybit"; Row.chain := "reference"; Row.token := "WETH";
         Row.price_usd := 3800 |}].

(** The candidates of the three trades [c50], [c40] and [c30]. *)
Definition three_candidates : list Candidate :=
  [Trade.candidate c50; Trade.candidate c40; Trade.candidate c30].

(** USDC on Ethereum. *)
Definition usdc_ethereum : string := "0xA0b86991c6218b36c1d19D4a2e9Eb0cE3606eB48".

(** The pass of [env_weth_pool] with a factory that fails. *)
Definition env_no_factory : Env :=
  {| now := now env_weth_pool;
     binance_bulk := binance_bulk env_weth_pool;
     binance_single := binance_single env_weth_pool;
     bybit_single := bybit_single env_weth_pool;
     hyperliquid_mids := hyperliquid_mids env_weth_pool;
     dydx_markets := dydx_markets env_weth_pool;
     getPool := fun _ _ _ _ => Raise TransportError;
     slot0 := slot0 env_weth_pool |}.

(** The WETH/USDC pool of Ethereum, as [fetch_uniswap_price] caches it. *)
Definition weth_entry : PoolCacheEntry :=
  {| pool_address := weth_usdc_pool; pool_fee := 500; token_is_token0 := false |}.

(** The cache after the first fetch of WETH on Ethereum. *)
Definition weth_cache : gmap string PoolCacheEntry :=
  <["ethereum_WETH"%string := weth_entry]> ∅.

(** A reply of Hyperliquid with the price of ETH malformed, and one with
    only a symbol outside the mapping malformed. *)
Definition mids_bad : list (string * field Dec.dec) :=
  [("BTC", Present (Dec.Finite 60000)); ("ETH", Malformed); ("DOGE", Present (Dec.Finite (1 # 10)))]%string.

Definition mids_good : list (string * field Dec.dec) :=
  [("BTC", Present (Dec.Finite 60000)); ("DOGE", Malformed); ("ETH", Present (Dec.Finite 3800))]%string.

Definition env_mids (data : list (string * field Dec.dec)) : Env :=
  {| now := 0%float;
     binance_bulk := fun _ => HttpRaise TransportError;
     binance_single := fun _ => HttpRaise TransportError;
     bybit_single := fun _ => HttpRaise TransportError;
     hyperliquid_mids := HttpResponse 200 (Ok data);
     dydx_markets := HttpRaise TransportError;
     getPool := fun _ _ _ _ => Raise TransportError;
     slot0 := fun _ _ => Raise TransportError |}.

(** Markets of dYdX: one without an oracle price, and one whose oracle
    price is malformed. *)
Definition markets_bad : list (string * option (field Dec.dec)) :=
  [("BTC-USD", Some (Present (Dec.Finite 60000))); ("ETH-USD", Some Malformed)]%string.

Definition markets_good : list (string * option (field Dec.dec)) :=
  [("BTC-USD", Some (Present (Dec.Finite 60000))); ("ETH-USD", None);
   ("DOGE-USD", Some Malformed)]%string.

Definition env_markets (markets : list (string * option (field Dec.dec))) : Env :=
  {| now := 0%float;
     binance_bulk := fun _ => HttpRaise TransportError;
     binance_single := fun _ => HttpRaise TransportError;
     bybit_single := fun _ => HttpRaise TransportError;
     hyperliquid_mids := HttpRaise TransportError;
     dydx_markets := HttpResponse 200 (Ok (Some markets));
     getPool := fun _ _ _ _ => Raise TransportError;
     slot0 := fun _ _ => Raise TransportError |}.

Definition quote (source chain token : string) (price : Q) : PriceData :=
  {| source := source; chain := chain; token := token; price := Dec.Finite price;
     timestamp := 0%float; market_cap := None; volume_24h := None;
     price_change_24h := None |}.

(** A pass in which five venues quote WETH between 3790 and 3810. *)
Definition weth_pass : list PriceData :=
  [quote "binance" "reference" "WETH" 3800; quote "uniswap_v3" "ethereum" "WETH" (38001 # 10);
   quote "uniswap_v3" "base" "WETH" 3810; quote "hyperliquid" "perpetual" "WETH" 3805;
   quote "dydx_v4" "perpetual" "WETH" 3790]%Q.

(** The same pass, in which Hyperliquid also quotes UNI at 0 and dYdX
    at 10. *)
Definition zero_pass : list PriceData :=
  weth_pass ++ [quote "hyperliquid" "perpetual" "UNI" 0; quote "dydx_v4" "perpetual" "UNI" 10]%Q.

(** A pass in which Hyperliquid quotes UNI at 0 and dYdX quotes it at
    ["Infinity"]. *)
Definition infinite_pass : list PriceData :=
  [quote "hyperliquid" "perpetual" "UNI" 0;
   {| source := "dydx_v4"; chain := "perpetual"; token := "UNI";
      price := Dec.Infinity false; timestamp := 0%float; market_cap := None;
      volume_24h := None; price_change_24h := None |}].

End Samples.

(** * Properties *)

(** One step through the code of an evaluator: a branch, a call that
    may raise, or a local binding. *)
Ltac step_in H :=
  lazymatch type of H with
  | (if ?c then _ else _) = _ => destruct c
  | mbind _ ?r = _ => destruct r; cbn [mbind result_bind] in H
  | (let _ := _ in _) = _ => cbv zeta in H
  end.

(** The same, keeping the equation of the value a branch tested. *)
Ltac step_eq_in H :=
  lazymatch type of H with
  | (if ?c then _ else _) = _ => destruct c eqn:?
  | mbind _ ?r = _ => destruct r eqn:?; cbn [mbind result_bind] in H
  | (let _ := _ in _) = _ => cbv zeta in H
  end.

(** ** The trade scheduler *)

Module SchedulerFacts.
Import Analyzer Spec.

Lemma is_overlapping_iff execution_time trade selected :
  existsb (fun '(start_time, end_time) =>
             (trade_start trade <? end_time) && (start_time <? trade_end execution_time trade))
          (map (interval execution_time) selected) = true
  <-> exists a, In a selected /\
                overlap (interval execution_time trade) (interval execution_time a).
Proof.
  rewrite existsb_exists. split.
  - intros [[s e] [Hin Ht]]. apply in_map_iff in Hin as [a [Ha Hin]].
    exists a. split; [exact Hin|]. unfold overlap. rewrite Ha. simpl.
    apply andb_prop in Ht as [H1 H2]. lia.
  - intros [a [Hin [H1 H2]]]. exists (interval execution_time a). split.
    + apply in_map. exact Hin.
    + simpl in *. apply andb_true_intro. lia.
Qed.

Lemma select_trades_greedy execution_time rows :
  forall selected,
    greedy execution_time selected rows
      (select_trades execution_time rows selected (map (interval execution_time) selected)).
Proof.
  induction rows as [|trade rest IH]; intros selected; simpl.
  - constructor.
  - destruct (existsb _ _) eqn:E; simpl.
    + apply greedy_reject; [|apply IH]. apply is_overlapping_iff. exact E.
    + apply greedy_accept.
      * intros a Hin Hov.
        assert (existsb (fun '(start_time, end_time) =>
                   (trade_start trade <? end_time)
                   && (start_time <? trade_end execution_time trade))
                  (map (interval execution_time) selected) = true) as E'.
        { apply is_overlapping_iff. exists a. auto. }
        congruence.
      * specialize (IH (selected ++ [trade])).
        rewrite map_app in IH. exact IH.
Qed.

Lemma greedy_deterministic execution_time accepted rows out1 out2 :
  greedy execution_time accepted rows out1 ->
  greedy execution_time accepted rows out2 ->
  out1 = out2.
Proof.
  intros H1. revert out2.
  induction H1 as [acc|acc trade rest out Hno _ IH|acc trade rest out Hex _ IH];
    intros out2 H2; inversion H2; subst; auto.
  - destruct H3 as [a [Hin Hov]]. exfalso. eapply Hno; eauto.
  - destruct Hex as [a [Hin Hov]]. exfalso. eapply H3; eauto.
Qed.

(** Every pair of accepted trades, in order of acceptance, is free of
    overlap. *)
Lemma greedy_no_overlap execution_time accepted rows out :
  greedy execution_time accepted rows out ->
  ForallOrdPairs (fun a b => ~ overlap (interval execution_time b) (interval execution_time a))
                 accepted ->
  ForallOrdPairs (fun a b => ~ overlap (interval execution_time b) (interval execution_time a))
                 out.
Proof.
  induction 1 as [acc|acc trade rest out Hno _ IH|acc trade rest out _ _ IH];
    intros Hacc; auto.
  apply IH. clear IH.
  induction acc as [|x acc IHacc]; simpl.
  - repeat constructor.
  - inversion Hacc; subst. constructor.
    + apply Forall_app. split; [assumption|].
      constructor; [|constructor]. apply Hno. left. reflexivity.
    + apply IHacc; [|assumption]. intros a Ha. apply Hno. right. exact Ha.
Qed.

Lemma ForallOrdPairs_lookup {A} (R : A -> A -> Prop) (l : list A) :
  ForallOrdPairs R l ->
  forall (i j : nat) a b, (i < j)%nat -> l !! i = Some a -> l !! j = Some b -> R a b.
Proof.
  induction 1 as [|x l Hx _ IH]; intros i j a b Hij Hi Hj.
  - rewrite lookup_nil in Hi. discriminate.
  - destruct j as [|j]; [lia|]. simpl in Hj. destruct i as [|i]; simpl in Hi.
    + injection Hi as <-. rewrite Forall_forall in Hx. apply Hx.
      eapply list_elem_of_lookup_2. exact Hj.
    + eapply IH; [|exact Hi|exact Hj]. lia.
Qed.

Lemma no_overlap_disjoint (a b : Z * Z) t :
  ~ overlap a b -> occupies a t -> occupies b t -> False.
Proof. unfold overlap, occupies. intros Hno Ha Hb. apply Hno. lia. Qed.

(** A descending-sorted permutation of three trades with profits
    50 > 40 > 30 is these three in this order. *)
Lemma sorted_three c50 c40 c30 s :
  Trade.profit_per_trade c50 = 50%float ->
  Trade.profit_per_trade c40 = 40%float ->
  Trade.profit_per_trade c30 = 30%float ->
  Permutation [c50; c40; c30] s ->
  StronglySorted profit_desc s ->
  s = [c50; c40; c30].
Proof.
  intros P50 P40 P30 Hperm Hsorted.
  assert (profit_geb c40 c50 = false) as G1
    by (unfold profit_geb; rewrite P50, P40; reflexivity).
  assert (profit_geb c30 c50 = false) as G2
    by (unfold profit_geb; rewrite P50, P30; reflexivity).
  assert (profit_geb c30 c40 = false) as G3
    by (unfold profit_geb; rewrite P40, P30; reflexivity).
  assert (List.NoDup [c50; c40; c30]) as Hnd.
  { repeat constructor; simpl; intros H;
      repeat (destruct H as [H|H]; [subst; congruence|]); auto. }
  pose proof (Permutation_length Hperm) as Hlen.
  destruct s as [|x [|y [|z [|? ?]]]]; simpl in Hlen; try discriminate.
  assert (List.NoDup [x; y; z]) as Hnd' by (eapply Permutation_NoDup; eauto).
  assert (In x [c50; c40; c30]) as Hx
    by (eapply Permutation_in; [symmetry; exact Hperm|simpl; auto]).
  assert (In y [c50; c40; c30]) as Hy
    by (eapply Permutation_in; [symmetry; exact Hperm|simpl; auto]).
  assert (In z [c50; c40; c30]) as Hz
    by (eapply Permutation_in; [symmetry; exact Hperm|simpl; auto]).
  inversion Hsorted as [|? ? Hs2 Hf1]; subst.
  inversion Hs2 as [|? ? _ Hf2]; subst.
  inversion Hf1 as [|? ? Hxy Hf1']; subst. inversion Hf1' as [|? ? Hxz _]; subst.
  inversion Hf2 as [|? ? Hyz _]; subst.
  unfold profit_desc in *.
  inversion Hnd' as [|? ? Hnx Hnd'']; subst.
  inversion Hnd'' as [|? ? Hny _]; subst.
  simpl in Hx, Hy, Hz, Hnx, Hny.
  destruct Hx as [<-|[<-|[<-|[]]]]; destruct Hy as [<-|[<-|[<-|[]]]];
    destruct Hz as [<-|[<-|[<-|[]]]];
    try reflexivity; try congruence; exfalso; tauto.
Qed.

(** C6: after a scheduling pass, whatever order the sort produced, no
    instant lies in the occupied intervals of two selected trades: the
    intervals are pairwise disjoint. *)
Theorem scheduled_intervals_pairwise_disjoint
  (sort_by_profit_desc : list Trade -> list Trade)
  (arb_df : list Trade) (execution_time : Z) (i j : nat) (a b : Trade) (t : Z) :
  i <> j ->
  filter_non_overlapping_trades sort_by_profit_desc arb_df execution_time !! i = Some a ->
  filter_non_overlapping_trades sort_by_profit_desc arb_df execution_time !! j = Some b ->
  ~ (occupies (interval execution_time a) t /\ occupies (interval execution_time b) t).
Proof.
  intros Hij Hi Hj [Ha Hb].
  assert (ForallOrdPairs
            (fun a b => ~ overlap (interval execution_time b) (interval execution_time a))
            (filter_non_overlapping_trades sort_by_profit_desc arb_df execution_time)) as Hall.
  { unfold filter_non_overlapping_trades. destruct arb_df as [|c cs].
    - constructor.
    - eapply greedy_no_overlap; [apply (select_trades_greedy _ _ [])|constructor]. }
  destruct (Nat.lt_total i j) as [Hlt|[Heq|Hgt]]; [|contradiction|].
  - eapply no_overlap_disjoint;
      [exact (ForallOrdPairs_lookup _ _ Hall i j a b Hlt Hi Hj)|exact Hb|exact Ha].
  - eapply no_overlap_disjoint;
      [exact (ForallOrdPairs_lookup _ _ Hall j i b a Hgt Hj Hi)|exact Ha|exact Hb].
Qed.

(** C5: when the sort returns the candidates in descending order of
    profit, the scheduler's output is the greedy selection over that
    order -- each candidate accepted exactly when its interval overlaps
    no accepted one, never reconsidered -- and it is the only such
    selection.  In particular, of three candidates with profits 50, 40
    and 30 where the first overlaps both others, and these two are
    disjoint, only the 50-profit candidate is selected. *)
Theorem scheduler_is_greedy_by_profit
  (sort_by_profit_desc : list Trade -> list Trade)
  (arb_df : list Trade) (execution_time : Z) :
  Permutation arb_df (sort_by_profit_desc arb_df) ->
  StronglySorted profit_desc (sort_by_profit_desc arb_df) ->
  let out := filter_non_overlapping_trades sort_by_profit_desc arb_df execution_time in
  greedy execution_time [] (sort_by_profit_desc arb_df) out
  /\ (forall out', greedy execution_time [] (sort_by_profit_desc arb_df) out' -> out' = out)
  /\ (forall c50 c40 c30,
         Permutation [c50; c40; c30] arb_df ->
         Trade.profit_per_trade c50 = 50%float ->
         Trade.profit_per_trade c40 = 40%float ->
         Trade.profit_per_trade c30 = 30%float ->
         overlap (interval execution_time c50) (interval execution_time c40) ->
         overlap (interval execution_time c50) (interval execution_time c30) ->
         ~ overlap (interval execution_time c40) (interval execution_time c30) ->
         out = [c50]).
Proof.
  intros Hperm Hsorted out.
  assert (greedy execution_time [] (sort_by_profit_desc arb_df) out) as Hg.
  { unfold out, filter_non_overlapping_trades. destruct arb_df as [|c cs].
    - apply Permutation_nil in Hperm. rewrite Hperm. constructor.
    - apply (select_trades_greedy _ _ []). }
  split; [exact Hg|]. split.
  - intros out' Hg'. eapply greedy_deterministic; eauto.
  - intros c50 c40 c30 Hp P50 P40 P30 H54 H53 H43.
    assert (sort_by_profit_desc arb_df = [c50; c40; c30]) as Hs.
    { apply sorted_three; auto. etransitivity; eauto. }
    rewrite Hs in Hg. eapply greedy_deterministic; [exact Hg|].
    apply greedy_accept; [intros a []|]. simpl.
    apply greedy_reject.
    { exists c50. split; [left; reflexivity|]. unfold overlap in *. lia. }
    apply greedy_reject.
    { exists c50. split; [left; reflexivity|]. unfold overlap in *. lia. }
    constructor.
Qed.

End SchedulerFacts.

(** ** Decimal rounding *)

Module DecFacts.
Import Dec.
Local Open Scope Q_scope.

Lemma digits_fuel_spec (fuel : nat) :
  forall n : Z, (0 < n < 2 ^ Z.of_nat fuel)%Z ->
    (10 ^ (digits_fuel fuel n - 1) <= n < 10 ^ digits_fuel fuel n)%Z
    /\ (1 <= digits_fuel fuel n)%Z.
Proof.
  induction fuel as [|fuel IH]; intros n Hn.
  - simpl in Hn. lia.
  - cbn [digits_fuel]. destruct (Z.leb_spec n 0) as [Hle|Hpos]; [lia|].
    destruct (Z.eq_dec (n / 10)%Z 0%Z) as [Hz|Hnz].
    + rewrite Hz. destruct fuel; simpl digits_fuel; simpl Z.pow;
        assert (n < 10)%Z by (apply Z.div_small_iff in Hz; lia); lia.
    + assert (0 < n / 10)%Z as Hq
        by (pose proof (Z.div_pos n 10%Z); lia).
      assert (n / 10 < 2 ^ Z.of_nat fuel)%Z as Hlt.
      { rewrite Nat2Z.inj_succ, Z.pow_succ_r in Hn by lia.
        apply Z.div_lt_upper_bound; lia. }
      destruct (IH (n / 10)%Z (conj Hq Hlt)) as [[Hlo Hhi] Hd].
      set (d := digits_fuel fuel (n / 10)%Z) in *.
      replace (1 + d - 1)%Z with (Z.succ (d - 1)) by lia.
      replace (1 + d)%Z with (Z.succ d) by lia.
      rewrite !Z.pow_succ_r by lia.
      pose proof (Z.div_mod n 10%Z ltac:(lia)) as Hdm.
      pose proof (Z.mod_pos_bound n 10%Z ltac:(lia)) as Hm.
      split; [split|]; lia.
Qed.

Lemma ndigits_spec (n : Z) :
  (0 < n)%Z ->
  (10 ^ (ndigits n - 1) <= n < 10 ^ ndigits n)%Z /\ (1 <= ndigits n)%Z.
Proof.
  intros Hn. unfold ndigits. apply digits_fuel_spec. split; [exact Hn|].
  rewrite Nat2Z.inj_succ, Z2Nat.id by apply Z.log2_nonneg.
  apply Z.log2_spec. exact Hn.
Qed.

Lemma pow10_pos (e : Z) : 0 < pow10 e.
Proof. apply Qpower_0_lt. reflexivity. Qed.

Lemma pow10_inject (n : Z) : (0 <= n)%Z -> pow10 n == inject_Z (10 ^ n).
Proof. intros Hn. unfold pow10. rewrite Zpower_Qpower by exact Hn. reflexivity. Qed.

Lemma pow10_add (a b : Z) : pow10 (a + b) == pow10 a * pow10 b.
Proof. unfold pow10. apply Qpower_plus. discriminate. Qed.

Lemma pow10_sub (a b : Z) : pow10 (a - b) == pow10 a / pow10 b.
Proof. unfold pow10. apply Qpower_minus. discriminate. Qed.

(** Rounding half-even moves a value by at most one half. *)
Lemma round_half_even_err (y : Q) :
  Qabs (inject_Z (round_half_even y) - y) <= 1 # 2.
Proof.
  unfold round_half_even.
  pose proof (Qfloor_le y) as Hlo. pose proof (Qlt_floor y) as Hhi.
  rewrite inject_Z_plus in Hhi. change (inject_Z 1) with 1 in Hhi.
  set (f := Qfloor y) in *.
  apply Qabs_Qle_condition.
  destruct (Qcompare (y - inject_Z f) (1 # 2)) eqn:E.
  - apply Qeq_alt in E.
    destruct (Z.even f); [|rewrite inject_Z_plus; change (inject_Z 1) with 1];
      split; lra.
  - apply Qlt_alt in E. split; lra.
  - apply Qgt_alt in E. rewrite inject_Z_plus. change (inject_Z 1) with 1.
    split; lra.
Qed.

(** A positive rational exceeds ten to the difference of the digit
    counts of its numerator and denominator, less one. *)
Lemma digits_lower_bound (x : Q) :
  0 < x ->
  pow10 (ndigits (Qnum x) - ndigits (Zpos (Qden x)) - 1) <= x.
Proof.
  intros Hx. destruct x as [p q]. simpl Qnum. simpl Qden.
  assert (0 < p)%Z as Hp by (unfold Qlt in Hx; simpl in Hx; lia).
  destruct (ndigits_spec p Hp) as [[Hplo _] Hdp].
  destruct (ndigits_spec (Zpos q) (Pos2Z.is_pos q)) as [[_ Hqhi] Hdq].
  set (dp := ndigits p) in *. set (dq := ndigits (Zpos q)) in *.
  replace (dp - dq - 1)%Z with ((dp - 1) - dq)%Z by lia.
  rewrite pow10_sub, !pow10_inject by lia.
  apply Qle_shift_div_r.
  - change 0 with (inject_Z 0). rewrite <- Zlt_Qlt. lia.
  - unfold Qle, Qmult, inject_Z. simpl Qnum. simpl Qden.
    rewrite !Z.mul_1_r. nia.
Qed.

Lemma quantum_exp_normal (x : Q) :
  0 < x -> pow10 (prec - 1) <= x / pow10 (quantum_exp x).
Proof.
  intros Hx. unfold quantum_exp.
  set (e1 := (ndigits (Qnum x) - ndigits (Zpos (Qden x)) - (prec - 1))%Z).
  destruct (Qle_bool (pow10 (prec - 1)) (x / pow10 e1)) eqn:E.
  - apply Qle_bool_iff. exact E.
  - apply Qle_shift_div_l; [apply pow10_pos|].
    rewrite <- pow10_add.
    replace (prec - 1 + (e1 - 1))%Z
      with (ndigits (Qnum x) - ndigits (Zpos (Qden x)) - 1)%Z by (unfold e1; lia).
    apply digits_lower_bound. exact Hx.
Qed.

(** The rounding error of a positive value is at most a unit in the
    28th significant digit, halved: relative error [u]. *)
Lemma rnd_pos_err (x : Q) : 0 < x -> Qabs (rnd_pos x - x) <= u * x.
Proof.
  intros Hx. unfold rnd_pos.
  pose proof (quantum_exp_normal x Hx) as Hn.
  set (e := quantum_exp x) in *.
  pose proof (pow10_pos e) as He.
  set (y := x / pow10 e) in *.
  assert (x == y * pow10 e) as Hxy by (unfold y; field; lra).
  pose proof (round_half_even_err y) as Hr.
  set (c := inject_Z (round_half_even y)) in *.
  assert (c * pow10 e - x == (c - y) * pow10 e) as -> by (rewrite Hxy at 1; ring).
  rewrite Qabs_Qmult, (Qabs_pos (pow10 e)) by lra.
  assert (pow10 (prec - 1) == inject_Z (10 ^ 27)) as H27
    by (rewrite pow10_inject by (unfold prec; lia); reflexivity).
  rewrite H27 in Hn.
  assert (u * x == u * y * pow10 e) as -> by (rewrite Hxy at 1; ring).
  apply Qmult_le_compat_r; [|lra].
  apply Qle_trans with (1 # 2); [exact Hr|].
  assert (u * inject_Z (10 ^ 27) == 1 # 2) as Hu by reflexivity.
  rewrite <- Hu. apply Qmult_le_l; [reflexivity|exact Hn].
Qed.

Lemma rnd_err (x : Q) : Qabs (rnd x - x) <= u * Qabs x.
Proof.
  unfold rnd. destruct (Qcompare x 0) eqn:E.
  - apply Qeq_alt in E. rewrite E. simpl. discriminate.
  - apply Qlt_alt in E.
    assert (0 < - x) as Hx by lra.
    pose proof (rnd_pos_err (- x) Hx) as H.
    assert (- rnd_pos (- x) - x == - (rnd_pos (- x) - - x)) as -> by ring.
    rewrite Qabs_opp, (Qabs_neg x) by lra. exact H.
  - apply Qgt_alt in E. rewrite (Qabs_pos x) by lra. apply rnd_pos_err. exact E.
Qed.

(** Bounds on the rounding of a positive value. *)
Lemma rnd_bounds (x : Q) :
  0 < x -> (1 - u) * x <= rnd x /\ rnd x <= (1 + u) * x.
Proof.
  intros Hx. pose proof (rnd_err x) as H.
  rewrite (Qabs_pos x) in H by lra.
  apply Qabs_Qle_condition in H. split; lra.
Qed.

Lemma rnd_pos_gt0 (x : Q) : 0 < x -> 0 < rnd x.
Proof.
  intros Hx. destruct (rnd_bounds x Hx) as [Hlo _].
  assert (0 < (1 - u) * x) as H
    by (apply Qmult_lt_0_compat; [reflexivity|exact Hx]).
  lra.
Qed.

Lemma rnd_zero (x : Q) : x == 0 -> rnd x = 0.
Proof. intros H. unfold rnd. apply Qeq_alt in H. rewrite H. reflexivity. Qed.

End DecFacts.

(** ** The pool price normalizer *)

Module PoolFacts.
Import Collector Dec DecFacts Spec.
Local Open Scope Q_scope.

Lemma div_nonzero (a b : Q) : ~ b == 0 -> Dec.div a b = Ok (rnd (a / b)).
Proof.
  intros Hb. unfold Dec.div. destruct (Qeq_bool b 0) eqn:E; [|reflexivity].
  apply Qeq_bool_iff in E. contradiction.
Qed.

Lemma mul_interval (x y lx hx ly hy : Q) :
  0 <= lx -> lx <= x -> x <= hx -> 0 <= ly -> ly <= y -> y <= hy ->
  lx * ly <= x * y /\ x * y <= hx * hy.
Proof. intros. split; nra. Qed.

(** C8, as the code has it: the price derived with the token in the
    lower-address slot and the price derived with it in the higher
    slot, from the same pool state, are reciprocal up to the scaling
    factor and the rounding of the 28-digit decimal arithmetic: their
    product is within four units of roundoff (2e-27, relative) of the
    square of the scaling factor.  (The state is a non-zero uint160 and
    the decimals a uint8, as on chain: the exponent limits of the
    decimal context are then out of reach.) *)
Theorem slot_prices_reciprocal_up_to_rounding (raw token_decimals : Z) :
  (0 < raw < 2 ^ 160)%Z ->
  (0 <= token_decimals <= 255)%Z ->
  exists lo hi : Q,
    derive_price true raw token_decimals = Ok lo
    /\ derive_price false raw token_decimals = Ok hi
    /\ Qabs (lo * hi - scale token_decimals * scale token_decimals)
       <= 4 * u * (scale token_decimals * scale token_decimals).
Proof.
  intros [Hraw _] _. unfold derive_price, scale, pow10_int.
  set (S := pow10 (token_decimals - usdc_decimals)).
  assert (0 < S) as HS by apply pow10_pos.
  assert (0 < inject_Z raw / inject_Z Q96) as Hq.
  { apply Qlt_shift_div_l; [reflexivity|].
    rewrite Qmult_0_l. change 0 with (inject_Z 0). rewrite <- Zlt_Qlt. exact Hraw. }
  rewrite div_nonzero by discriminate. cbn [mbind result_bind].
  unfold of_int.
  set (sq := rnd (inject_Z raw / inject_Z Q96)).
  assert (0 < sq) as Hsq by (apply rnd_pos_gt0; exact Hq).
  set (P := Dec.mul sq sq).
  assert (0 < P) as HP by (apply rnd_pos_gt0; nra).
  rewrite div_nonzero by lra. cbn [mbind result_bind].
  set (iv := rnd (inject_Z 1 / P)).
  assert (0 < inject_Z 1 / P) as HiP
    by (apply Qlt_shift_div_l; [exact HP|rewrite Qmult_0_l; reflexivity]).
  assert (0 < iv) as Hiv by (apply rnd_pos_gt0; exact HiP).
  exists (Dec.mul P S), (Dec.mul iv S). split; [reflexivity|]. split; [reflexivity|].
  unfold Dec.mul at 1 2.
  assert (0 < P * S) as HPS by nra.
  assert (0 < iv * S) as HiS by nra.
  destruct (rnd_bounds (P * S) HPS) as [L1 H1].
  destruct (rnd_bounds (iv * S) HiS) as [L2 H2].
  destruct (rnd_bounds (inject_Z 1 / P) HiP) as [L3 H3]. fold iv in L3, H3.
  set (lo := rnd (P * S)) in *. set (hi := rnd (iv * S)) in *.
  set (c := inject_Z 1 / P) in *.
  assert (P * c == 1) as Hc by (unfold c; change (inject_Z 1) with 1; field; lra).
  assert (0 < 1 - u) as Hu1 by reflexivity.
  assert (0 < 1 + u) as Hu2 by reflexivity.
  (* hi lies between (1-u)^2 c S and (1+u)^2 c S *)
  assert ((1 - u) * ((1 - u) * c * S) <= hi) as L4.
  { apply Qle_trans with ((1 - u) * (iv * S)); [|exact L2].
    apply Qmult_le_l; [exact Hu1|]. apply Qmult_le_compat_r; lra. }
  assert (hi <= (1 + u) * ((1 + u) * c * S)) as H4.
  { apply Qle_trans with ((1 + u) * (iv * S)); [exact H2|].
    apply Qmult_le_l; [exact Hu2|]. apply Qmult_le_compat_r; lra. }
  assert (0 < c * S) as HcS by nra.
  assert (0 <= (1 - u) * (P * S)) as N1 by nra.
  assert (0 <= (1 - u) * ((1 - u) * c * S)) as N2.
  { assert (0 < (1 - u) * (1 - u)) by reflexivity. nra. }
  destruct (mul_interval lo hi _ _ _ _ N1 L1 H1 N2 L4 H4) as [Llo Lhi].
  assert ((1 - u) * (P * S) * ((1 - u) * ((1 - u) * c * S))
          == (1 - u) * (1 - u) * (1 - u) * (S * S)) as E1.
  { transitivity ((1 - u) * (1 - u) * (1 - u) * (P * c) * (S * S)); [ring|].
    rewrite Hc. ring. }
  assert ((1 + u) * (P * S) * ((1 + u) * ((1 + u) * c * S))
          == (1 + u) * (1 + u) * (1 + u) * (S * S)) as E2.
  { transitivity ((1 + u) * (1 + u) * (1 + u) * (P * c) * (S * S)); [ring|].
    rewrite Hc. ring. }
  rewrite E1 in Llo. rewrite E2 in Lhi.
  assert (0 < S * S) as HSS by nra.
  assert (1 - 4 * u <= (1 - u) * (1 - u) * (1 - u)) as C1 by (vm_compute; discriminate).
  assert ((1 + u) * (1 + u) * (1 + u) <= 1 + 4 * u) as C2 by (vm_compute; discriminate).
  apply Qabs_Qle_condition. split.
  - apply Qle_trans with ((1 - u) * (1 - u) * (1 - u) * (S * S) - S * S); [|lra].
    assert ((1 - 4 * u) * (S * S) <= (1 - u) * (1 - u) * (1 - u) * (S * S))
      by (apply Qmult_le_compat_r; lra).
    lra.
  - apply Qle_trans with ((1 + u) * (1 + u) * (1 + u) * (S * S) - S * S); [lra|].
    assert ((1 + u) * (1 + u) * (1 + u) * (S * S) <= (1 + 4 * u) * (S * S))
      by (apply Qmult_le_compat_r; lra).
    lra.
Qed.

(** The rounding is visible: for the pool state [3 * 2^96] (ratio 9) of
    a token with 8 decimals the two prices are 900 and
    11.11111111111111111111111111, whose product is not 100^2. *)
Lemma slot_prices_product_inexact :
  exists lo hi : Q,
    derive_price true (3 * 2 ^ 96) 8 = Ok lo
    /\ derive_price false (3 * 2 ^ 96) 8 = Ok hi
    /\ lo == 900
    /\ hi == 11.11111111111111111111111111
    /\ ~ lo * hi == scale 8 * scale 8.
Proof.
  eexists. eexists. split; [vm_compute; reflexivity|].
  split; [vm_compute; reflexivity|].
  split; [reflexivity|]. split; [reflexivity|]. vm_compute. discriminate.
Qed.

(** What [read_pool] computed when it produced an observation. *)
Lemma read_pool_some (env : Env) chain_name token_symbol tc config pool_info obs :
  catch (read_pool env chain_name token_symbol tc config pool_info) (fun _ => None)
  = Some obs ->
  exists raw fee_rate price_usd,
    slot0 env chain_name (pool_address pool_info) = Ok raw
    /\ derive_price (token_is_token0 pool_info) raw (decimals tc) = Ok price_usd
    /\ price obs = Finite price_usd
    /\ Dec.gtb price_usd price_upper_bound = false
    /\ Dec.ltb price_usd price_lower_bound = false
    /\ Dec.div (of_int (pool_fee pool_info)) (of_int 1000000) = Ok fee_rate
    /\ source obs = "uniswap_v3"%string
    /\ chain obs = chain_name
    /\ token obs = token_symbol
    /\ market_cap obs = Some (Dec.mul price_usd (Dec.sub (of_int 1) fee_rate))
    /\ volume_24h obs = Some (Dec.mul price_usd (Dec.add (of_int 1) fee_rate))
    /\ price_change_24h obs = Some fee_rate.
Proof.
  unfold read_pool. intros H.
  destruct (slot0 env chain_name (pool_address pool_info)) as [raw|] eqn:Hs;
    cbn [mbind result_bind catch] in H; [|discriminate].
  destruct (derive_price (token_is_token0 pool_info) raw (decimals tc)) as [p|] eqn:Hp;
    cbn [mbind result_bind catch] in H; [|discriminate].
  destruct (Dec.gtb p price_upper_bound) eqn:Hhi; cbn [orb catch] in H; [discriminate|].
  destruct (Dec.ltb p price_lower_bound) eqn:Hlo; cbn [catch] in H; [discriminate|].
  destruct (Dec.div (of_int (pool_fee pool_info)) (of_int 1000000)) as [f|] eqn:Hf;
    cbn [mbind result_bind catch] in H; [|discriminate].
  injection H as <-. exists raw, f, p. cbn. auto 13.
Qed.

Lemma determine_order_flag token_address usdc :
  (_determine_token_order token_address usdc).1.1 = address_lower token_address usdc.
Proof.
  unfold _determine_token_order, address_lower.
  destruct (String.ltb (lower token_address) (lower usdc)); reflexivity.
Qed.

Lemma read_pool_formula (self : UnifiedPriceSystem) (env : Env)
  (cache' : gmap string PoolCacheEntry) chain_name token_symbol config tc
  token_address entry obs :
  as_map (chains self) !! chain_name = Some config ->
  as_map (tokens self) !! token_symbol = Some tc ->
  as_map (chain_tokens config) !! token_symbol = Some token_address ->
  cache' !! (chain_name +:+ "_" +:+ token_symbol)%string = Some entry ->
  token_is_token0 entry = address_lower token_address (usdc_address config) ->
  catch (read_pool env chain_name token_symbol tc config entry) (fun _ => None)
  = Some obs ->
  exists config tc token_address entry raw fee_rate price_usd,
    as_map (chains self) !! chain_name = Some config
    /\ as_map (tokens self) !! token_symbol = Some tc
    /\ as_map (chain_tokens config) !! token_symbol = Some token_address
    /\ cache' !! (chain_name +:+ "_" +:+ token_symbol)%string = Some entry
    /\ slot0 env chain_name (pool_address entry) = Ok raw
    /\ spec_price_usd raw (decimals tc) 6
         (address_lower token_address (usdc_address config)) = Ok price_usd
    /\ price obs = Finite price_usd
    /\ Dec.div (of_int (pool_fee entry)) (of_int 1000000) = Ok fee_rate
    /\ market_cap obs = Some (Dec.mul price_usd (Dec.sub (of_int 1) fee_rate))
    /\ volume_24h obs = Some (Dec.mul price_usd (Dec.add (of_int 1) fee_rate)).
Proof.
  intros Hc Htc Hta Hentry Hflag Hread.
  apply read_pool_some in Hread
    as (raw & fee_rate & price_usd & Hs & Hp & Hprice & _ & _ & Hfee & _ & _ & _
        & Hbid & Hask & _).
  exists config, tc, token_address, entry, raw, fee_rate, price_usd.
  repeat (split; [assumption|]).
  split; [|auto].
  rewrite <- Hflag. unfold spec_price_usd. unfold derive_price in Hp.
  change (of_int (2 ^ 96)) with (of_int Q96).
  destruct (Dec.div (of_int raw) (of_int Q96)) as [sq|]; cbn [mbind result_bind] in *;
    [|discriminate].
  destruct (token_is_token0 entry); [exact Hp|].
  destruct (Dec.div (of_int 1) (Dec.mul sq sq)); cbn [mbind result_bind] in *;
    [exact Hp|discriminate].
Qed.

(** C2: every observation the pool reader emits carries the price the
    formula gives for the raw state read from the pool -- with the
    ratio taken directly when the token's address is the smaller one
    and inverted otherwise, USD decimals being 6 -- and a bid and ask
    of [price * (1 - feeRate)] and [price * (1 + feeRate)], for the fee
    tier of the resolved pool. *)
Theorem pool_price_normalizer_formula (self : UnifiedPriceSystem) (env : Env)
  (cache cache' : gmap string PoolCacheEntry) (chain_name token_symbol : string)
  (obs : PriceData) :
  cache_ok self cache ->
  fetch_uniswap_price self env cache chain_name token_symbol = (cache', Ok (Some obs)) ->
  exists config tc token_address entry raw fee_rate price_usd,
    as_map (chains self) !! chain_name = Some config
    /\ as_map (tokens self) !! token_symbol = Some tc
    /\ as_map (chain_tokens config) !! token_symbol = Some token_address
    /\ cache' !! (chain_name +:+ "_" +:+ token_symbol)%string = Some entry
    /\ slot0 env chain_name (pool_address entry) = Ok raw
    /\ spec_price_usd raw (decimals tc) 6
         (address_lower token_address (usdc_address config)) = Ok price_usd
    /\ price obs = Finite price_usd
    /\ Dec.div (of_int (pool_fee entry)) (of_int 1000000) = Ok fee_rate
    /\ market_cap obs = Some (Dec.mul price_usd (Dec.sub (of_int 1) fee_rate))
    /\ volume_24h obs = Some (Dec.mul price_usd (Dec.add (of_int 1) fee_rate)).
Proof.
  intros Hok Hf. unfold fetch_uniswap_price in Hf.
  destruct (as_map (tokens self) !! token_symbol) as [tc|] eqn:Htc; [|discriminate].
  destruct (negb (bool_decide (chain_name ∈ web3_instances self))); [discriminate|].
  destruct (as_map (chains self) !! chain_name) as [config|] eqn:Hc; [|discriminate].
  destruct (as_map (chain_tokens config) !! token_symbol) as [token_address|] eqn:Hta;
    [|discriminate].
  rewrite <- Htc, <- Hc.
  destruct (cache !! (chain_name +:+ "_" +:+ token_symbol)%string)
    as [pool_info|] eqn:Hk.
  - injection Hf as <- Hread.
    eapply read_pool_formula; [exact Hc|exact Htc|exact Hta|exact Hk| |exact Hread].
    rewrite <- determine_order_flag. eapply Hok; eauto.
  - destruct (_get_pool_address_cached env cache chain_name config token_address
                (chain_name +:+ "_" +:+ token_symbol)%string)
      as [[pool|] [fee|]]; try discriminate.
    destruct (String.eqb pool ""); [discriminate|].
    injection Hf as <- Hread.
    eapply read_pool_formula;
      [exact Hc|exact Htc|exact Hta|apply lookup_insert_eq| |exact Hread].
    cbn [token_is_token0]. apply determine_order_flag.
Qed.

(** *** The cache invariant is kept *)

Lemma as_map_lookup_in {V} (items : list (string * V)) k v :
  as_map items !! k = Some v -> (k, v) ∈ items.
Proof.
  unfold as_map. induction items as [|[k' v'] l IH] using rev_ind; intros H.
  - simpl in H. rewrite lookup_empty in H. discriminate.
  - rewrite foldl_snoc in H. cbn [fst snd] in H. apply elem_of_app.
    destruct (decide (k' = k)) as [->|Hne].
    + rewrite lookup_insert_eq in H. injection H as ->. right. apply list_elem_of_here.
    + rewrite lookup_insert_ne in H by exact Hne. left. apply IH. exact H.
Qed.

Lemma key_injective (c1 t1 c2 t2 : string) :
  no_underscore c1 = true -> no_underscore c2 = true ->
  (c1 +:+ "_" +:+ t1 = c2 +:+ "_" +:+ t2)%string ->
  c1 = c2 /\ t1 = t2.
Proof.
  revert c2. induction c1 as [|a c1 IH]; intros [|b c2] H1 H2 H;
    cbn [String.app no_underscore] in *.
  - injection H as H. auto.
  - injection H as Hb _. subst b. discriminate.
  - injection H as Ha _. subst a. discriminate.
  - injection H as Hab H. subst b.
    apply andb_prop in H1 as [_ H1]. apply andb_prop in H2 as [_ H2].
    destruct (IH c2 H1 H2 H) as [-> ->]. auto.
Qed.

Lemma keys_distinct_of_names (self : UnifiedPriceSystem) :
  forallb no_underscore (keys (chains self)) = true -> keys_distinct self.
Proof.
  intros Hall c1 t1 c2 t2 config1 config2 H1 H2 Hkey.
  rewrite forallb_forall in Hall.
  apply key_injective; [| |exact Hkey]; apply Hall; unfold keys;
    apply in_map_iff; eexists (_, _); (split; [reflexivity|]);
    apply list_elem_of_In; eapply as_map_lookup_in; eassumption.
Qed.

(** The configuration of [__init__] has distinct cache keys. *)
Lemma init_keys_distinct connected : keys_distinct (init connected).
Proof. apply keys_distinct_of_names. reflexivity. Qed.

(** [fetch_uniswap_price] keeps the cache invariant: it writes a key at
    most once, with the flag of the pair it was called for. *)
Lemma fetch_uniswap_price_keeps_cache_ok (self : UnifiedPriceSystem) (env : Env)
  (cache : gmap string PoolCacheEntry) (chain_name token_symbol : string) :
  keys_distinct self ->
  cache_ok self cache ->
  cache_ok self (fetch_uniswap_price self env cache chain_name token_symbol).1.
Proof.
  intros Hkeys Hok. unfold fetch_uniswap_price.
  destruct (as_map (tokens self) !! token_symbol) as [tc|]; [|exact Hok].
  destruct (negb (bool_decide (chain_name ∈ web3_instances self))); [exact Hok|].
  destruct (as_map (chains self) !! chain_name) as [config|] eqn:Hc; [|exact Hok].
  destruct (as_map (chain_tokens config) !! token_symbol) as [token_address|] eqn:Hta;
    [|exact Hok].
  destruct (cache !! (chain_name +:+ "_" +:+ token_symbol)%string) as [pool_info|] eqn:Hk;
    [exact Hok|].
  destruct (_get_pool_address_cached env cache chain_name config token_address _)
    as [[pool|] [fee|]]; try exact Hok.
  destruct (String.eqb pool ""); [exact Hok|]. cbn [fst].
  intros c t config' address entry Hc' Hta' Hentry.
  destruct (decide ((chain_name +:+ "_" +:+ token_symbol)%string = (c +:+ "_" +:+ t)%string))
    as [Heq|Hne].
  - rewrite Heq, lookup_insert_eq in Hentry. injection Hentry as <-.
    destruct (Hkeys _ _ _ _ _ _ Hc Hc' Heq) as [<- <-].
    cbn [token_is_token0]. congruence.
  - rewrite lookup_insert_ne in Hentry by exact Hne. eapply Hok; eauto.
Qed.

End PoolFacts.

(** ** The aggregator *)

Module AggregatorFacts.
Import Collector Dec PoolFacts Spec Inputs.

Section WithSystem.
Variable self : UnifiedPriceSystem.
Variable env : Env.

Lemma binance_parse_off_chain all_data :
  forall results r,
    binance_parse self env results all_data = Ok r ->
    Forall off_chain results -> Forall off_chain r.
Proof.
  induction all_data as [|t rest IH]; intros results r H Hres; simpl in H.
  - injection H as <-. exact Hres.
  - unfold binance_step in H.
    destruct (tk_symbol t) as [sym|]; cbn [mbind result_bind] in H; [|discriminate].
    destruct (reverse_dict (cex_symbols_binance self) !! sym) as [tok|].
    + destruct (to_decimal (tk_price t)) as [p|]; cbn [mbind result_bind] in H;
        [|discriminate].
      eapply IH; [exact H|]. apply Forall_app. split; [exact Hres|].
      constructor; [discriminate|constructor].
    + cbn [mbind result_bind] in H. eapply IH; eauto.
Qed.

Lemma fetch_binance_price_off_chain tok pd slept :
  fetch_binance_price self env tok = (Ok (Some pd), slept) -> off_chain pd.
Proof.
  unfold fetch_binance_price. intros H.
  destruct (as_map (tokens self) !! tok); [|discriminate].
  destruct (as_map (cex_symbols_binance self) !! tok) as [sym|]; [|discriminate].
  destruct (binance_single env sym) as [e|status body]; [discriminate|].
  destruct (status =? 200).
  - destruct body as [data|e]; cbn [mbind result_bind catch] in H; [|discriminate].
    destruct (to_decimal data); cbn [mbind result_bind catch] in H; [|discriminate].
    injection H as <- _. discriminate.
  - destruct (status =? 429); discriminate.
Qed.

Lemma binance_individual_off_chain toks :
  forall results slept,
    Forall off_chain results ->
    Forall off_chain (binance_individual_loop self env toks results slept).1.
Proof.
  induction toks as [|tok rest IH]; intros results slept Hres; simpl; [exact Hres|].
  destruct (fetch_binance_price self env tok) as [r s] eqn:E.
  destruct r as [[pd|]|e]; try (apply IH; exact Hres).
  apply IH. apply Forall_app. split; [exact Hres|].
  constructor; [|constructor]. eapply fetch_binance_price_off_chain; eauto.
Qed.

Lemma binance_attempts_off_chain attempts :
  forall slept, Forall off_chain (binance_attempts self env attempts slept).1.
Proof.
  induction attempts as [|attempt rest IH]; intros slept; simpl.
  - unfold _fetch_binance_individual.
    pose proof (binance_individual_off_chain (firstn 5 (keys (tokens self))) [] []
                  (Forall_nil_2 _)) as H.
    destruct (binance_individual_loop self env _ [] []) as [r s]. exact H.
  - destruct (binance_bulk env attempt) as [e|status body]; [apply IH|].
    destruct (status =? 200).
    + destruct body as [all_data|e]; cbn [mbind result_bind]; [|apply IH].
      destruct (binance_parse self env [] all_data) as [results|e] eqn:E; [|apply IH].
      simpl. eapply binance_parse_off_chain; [exact E|constructor].
    + destruct (status =? 429); apply IH.
Qed.

Lemma fetch_single_bybit_off_chain sym pd :
  fetch_single_bybit self env sym = Some pd -> off_chain pd.
Proof.
  unfold fetch_single_bybit, bybit_try. intros H.
  destruct (bybit_single env sym) as [e|status body]; [discriminate|].
  destruct (status =? 200); [|discriminate].
  destruct body as [data|e]; cbn [mbind result_bind catch] in H; [|discriminate].
  destruct (retCode data) as [[| |]|]; try discriminate.
  destruct (result_list data) as [[[|t ts]|]|]; try discriminate.
  destruct (bt_symbol t) as [s|]; [|discriminate].
  destruct (String.eqb s sym); [|discriminate].
  destruct (reverse_dict (cex_symbols_bybit self) !! sym); [|discriminate].
  destruct (to_decimal (bt_lastPrice t)); cbn [mbind result_bind catch] in H;
    [|discriminate].
  injection H as <-. discriminate.
Qed.

Lemma bybit_off_chain : Forall off_chain (fetch_all_bybit_prices self env).
Proof.
  unfold fetch_all_bybit_prices. apply Forall_forall. intros pd Hin.
  apply list_elem_of_omap in Hin as [sym [_ Hsym]].
  eapply fetch_single_bybit_off_chain; eauto.
Qed.

Lemma cex_off_chain : Forall off_chain (get_cex_prices self env).
Proof.
  unfold get_cex_prices, fetch_all_binance_prices. apply Forall_app. split.
  - apply binance_attempts_off_chain.
  - apply bybit_off_chain.
Qed.

Lemma hyperliquid_parse_off_chain items :
  forall results r,
    hyperliquid_parse env results items = Ok r ->
    Forall off_chain results -> Forall off_chain r.
Proof.
  induction items as [|[sym p] rest IH]; intros results r H Hres; simpl in H.
  - injection H as <-. exact Hres.
  - destruct (as_map hyperliquid_mappings !! sym) as [tok|]; [|eapply IH; eauto].
    destruct (to_decimal p); cbn [mbind result_bind] in H; [|discriminate].
    eapply IH; [exact H|]. apply Forall_app. split; [exact Hres|].
    constructor; [discriminate|constructor].
Qed.

Lemma dydx_parse_off_chain markets :
  forall results r,
    dydx_parse env results markets = Ok r ->
    Forall off_chain results -> Forall off_chain r.
Proof.
  induction markets as [|[market_id oracle] rest IH]; intros results r H Hres;
    simpl in H.
  - injection H as <-. exact Hres.
  - destruct (as_map dydx_mappings !! market_id) as [tok|]; [|eapply IH; eauto].
    destruct oracle as [oracle_price|]; [|eapply IH; eauto].
    destruct (to_decimal oracle_price); cbn [mbind result_bind] in H; [|discriminate].
    eapply IH; [exact H|]. apply Forall_app. split; [exact Hres|].
    constructor; [discriminate|constructor].
Qed.

Lemma nextgen_off_chain : Forall off_chain (get_nextgen_dex_prices env).
Proof.
  unfold get_nextgen_dex_prices. apply Forall_app. split.
  - unfold fetch_all_hyperliquid_prices.
    destruct (hyperliquid_mids env) as [e|status body]; [constructor|].
    destruct (status =? 200); [|constructor].
    destruct body as [data|e]; cbn [mbind result_bind catch]; [|constructor].
    destruct (hyperliquid_parse env [] data) eqn:E; cbn [catch]; [|constructor].
    eapply hyperliquid_parse_off_chain; [exact E|constructor].
  - unfold fetch_all_dydx_prices.
    destruct (dydx_markets env) as [e|status body]; [constructor|].
    destruct (status =? 200); [|constructor].
    destruct body as [[markets|]|e]; cbn [mbind result_bind catch];
      try constructor.
    destruct (dydx_parse env [] markets) eqn:E; cbn [catch]; [|constructor].
    eapply dydx_parse_off_chain; [exact E|constructor].
Qed.

Lemma read_pool_checked chain_name token_symbol tc config pool_info pd :
  catch (read_pool env chain_name token_symbol tc config pool_info) (fun _ => None)
  = Some pd -> checked pd.
Proof.
  intros H. apply read_pool_some in H
    as (raw & fee & p & _ & _ & Hprice & Hhi & Hlo & _ & Hsrc & _).
  unfold checked, gtb, ltb in *. split; [exact Hsrc|].
  apply negb_false_iff in Hhi, Hlo. apply Qle_bool_iff in Hhi, Hlo. eauto.
Qed.

Lemma fetch_uniswap_price_checked cache chain_name token_symbol cache' pd :
  fetch_uniswap_price self env cache chain_name token_symbol = (cache', Ok (Some pd)) ->
  checked pd.
Proof.
  unfold fetch_uniswap_price. intros H.
  destruct (as_map (tokens self) !! token_symbol) as [tc|]; [|discriminate].
  destruct (negb (bool_decide (chain_name ∈ web3_instances self))); [discriminate|].
  destruct (as_map (chains self) !! chain_name) as [config|]; [|discriminate].
  destruct (as_map (chain_tokens config) !! token_symbol) as [token_address|];
    [|discriminate].
  destruct (cache !! (chain_name +:+ "_" +:+ token_symbol)%string) as [pool_info|].
  - injection H as _ H. eapply read_pool_checked; eauto.
  - destruct (_get_pool_address_cached env cache chain_name config token_address _)
      as [[pool|] [fee|]]; try discriminate.
    destruct (String.eqb pool ""); [discriminate|].
    injection H as _ H. eapply read_pool_checked; eauto.
Qed.

Lemma dex_loop_checked tasks :
  forall cache acc,
    Forall checked acc -> Forall checked (dex_loop self env tasks cache acc).2.
Proof.
  induction tasks as [|[chain_name token_symbol] rest IH]; intros cache acc Hacc;
    simpl; [exact Hacc|].
  destruct (fetch_uniswap_price self env cache chain_name token_symbol)
    as [cache' r] eqn:E.
  destruct r as [[pd|]|e]; try (apply IH; exact Hacc).
  apply IH. apply Forall_app. split; [exact Hacc|].
  constructor; [|constructor]. eapply fetch_uniswap_price_checked; eauto.
Qed.

(** The grouping neither drops nor invents an observation: a token's
    list is the sublist of its observations, in arrival order. *)
Lemma group_by_token_spec (all_prices_list : list PriceData) (tok : string) :
  group_by_token all_prices_list !! tok
  = match filter (fun pd => token pd = tok) all_prices_list with
    | [] => None
    | lst => Some lst
    end.
Proof.
  unfold group_by_token.
  induction all_prices_list as [|pd l IH] using rev_ind.
  - simpl. apply lookup_empty.
  - rewrite foldl_snoc, filter_app.
    destruct (decide (token pd = tok)) as [Heq|Hne].
    + rewrite filter_cons_True, filter_nil by exact Heq.
      rewrite <- Heq at 1. rewrite lookup_insert_eq. rewrite Heq, IH.
      destruct (filter (fun pd0 => token pd0 = tok) l); reflexivity.
    + rewrite filter_cons_False, filter_nil, app_nil_r by exact Hne.
      rewrite lookup_insert_ne by exact Hne. exact IH.
Qed.

Lemma group_by_token_sound all_prices_list tok lst pd :
  group_by_token all_prices_list !! tok = Some lst ->
  pd ∈ lst -> pd ∈ all_prices_list /\ token pd = tok.
Proof.
  rewrite group_by_token_spec. intros H Hin.
  assert (lst = filter (fun pd => token pd = tok) all_prices_list) as ->
    by (destruct (filter _ all_prices_list); congruence).
  apply list_elem_of_filter in Hin as [? ?]. auto.
Qed.

Lemma group_by_token_complete all_prices_list pd :
  pd ∈ all_prices_list ->
  exists lst, group_by_token all_prices_list !! token pd = Some lst /\ pd ∈ lst.
Proof.
  intros Hin. rewrite group_by_token_spec.
  assert (pd ∈ filter (fun pd0 => token pd0 = token pd) all_prices_list) as Hf
    by (apply list_elem_of_filter; auto).
  destruct (filter _ all_prices_list) as [|x l] eqn:E.
  - apply elem_of_nil in Hf. contradiction.
  - eauto.
Qed.

Lemma get_all_prices_list cache :
  exists dex_prices,
    Forall checked dex_prices
    /\ (get_all_prices self env cache).2
       = group_by_token (get_cex_prices self env ++ dex_prices
                         ++ get_nextgen_dex_prices env).
Proof.
  unfold get_all_prices, get_dex_prices.
  pose proof (dex_loop_checked (dex_tasks self) cache [] (Forall_nil_2 _)) as H.
  destruct (dex_loop self env (dex_tasks self) cache []) as [cache' dex_prices].
  exists dex_prices. split; [exact H|reflexivity].
Qed.

(** C4, as the code has it: an on-chain observation whose price lies
    outside [1e-10, 1e10], or is not positive, never appears in the
    aggregator's grouped output (the lower limit the code compares
    with is the float nearest to 1e-10, a little above it).  The
    observations of the centralized and derivative adapters are not
    range-checked. *)
Theorem onchain_prices_within_bounds (cache : gmap string PoolCacheEntry)
  (tok : string) (lst : list PriceData) (obs : PriceData) :
  (get_all_prices self env cache).2 !! tok = Some lst ->
  obs ∈ lst ->
  source obs = "uniswap_v3"%string ->
  exists p : Q,
    price obs = Finite p
    /\ (price_lower_bound <= p /\ p <= price_upper_bound
        /\ 1 # 10 ^ 10 <= p /\ p <= inject_Z (10 ^ 10)
        /\ 0 < p)%Q.
Proof.
  intros Hlookup Hin Hsrc.
  destruct (get_all_prices_list cache) as [dex_prices [Hdex Heq]].
  rewrite Heq in Hlookup.
  destruct (group_by_token_sound _ _ _ _ Hlookup Hin) as [Hall _].
  assert (checked obs) as [_ (p & Hprice & Hlo & Hhi)].
  { apply elem_of_app in Hall as [Hcex|Hrest].
    - pose proof cex_off_chain as H. rewrite Forall_forall in H.
      exfalso. exact (H obs Hcex Hsrc).
    - apply elem_of_app in Hrest as [Hd|Hng].
      + rewrite Forall_forall in Hdex. exact (Hdex obs Hd).
      + pose proof nextgen_off_chain as H. rewrite Forall_forall in H.
        exfalso. exact (H obs Hng Hsrc). }
  assert (1 # 10 ^ 10 <= price_lower_bound)%Q as Hb by (vm_compute; discriminate).
  assert (0 < price_lower_bound)%Q as Hp by reflexivity.
  unfold price_upper_bound, of_int in Hhi.
  exists p. repeat split; try assumption.
  - eapply Qle_trans; eassumption.
  - eapply Qlt_le_trans; eassumption.
Qed.

End WithSystem.

(** The centralized adapter's zero price reaches the grouped output. *)
Lemma centralized_zero_price_is_aggregated :
  exists obs : PriceData,
    (get_all_prices (init []) env_zero_quote ∅).2 !! "WETH"%string = Some [obs]
    /\ source obs = "binance"%string
    /\ price obs = Finite 0
    /\ ~ (1 # 10 ^ 10 <= 0)%Q.
Proof.
  eexists. split; [vm_compute; reflexivity|].
  split; [reflexivity|]. split; [reflexivity|]. vm_compute. intros H. apply H. reflexivity.
Qed.

End AggregatorFacts.

(** ** The centralized adapters: retries, fallback, isolation *)

Module AdapterFacts.
Import Collector Spec Inputs.

Lemma bybit_bad_record_dropped self env sym :
  bybit_bad_record (bybit_single env sym) -> fetch_single_bybit self env sym = None.
Proof.
  intros (t & ts & code & Hr & Hbad). unfold fetch_single_bybit, bybit_try.
  rewrite Hr. cbn [Z.eqb Pos.eqb mbind result_bind retCode result_list].
  destruct code as [[| |]|]; try reflexivity.
  destruct (bt_symbol t) as [s|] eqn:Es; [|reflexivity].
  destruct Hbad as [H|Hbad]; [discriminate|].
  destruct (String.eqb s sym); [|reflexivity].
  destruct (reverse_dict (cex_symbols_bybit self) !! sym); [|reflexivity].
  destruct Hbad as [-> | ->]; reflexivity.
Qed.

Lemma fetch_single_bybit_ext self env env' sym :
  bybit_single env' sym = bybit_single env sym ->
  now env' = now env ->
  fetch_single_bybit self env' sym = fetch_single_bybit self env sym.
Proof.
  intros H Hnow. unfold fetch_single_bybit, bybit_try, bybit_record.
  rewrite H, Hnow. reflexivity.
Qed.

Lemma binance_parse_ext self env env' all_data :
  now env' = now env ->
  forall results, binance_parse self env' results all_data
                  = binance_parse self env results all_data.
Proof.
  intros Hnow. induction all_data as [|t rest IH]; intros results; simpl; [reflexivity|].
  unfold binance_step, binance_record. rewrite Hnow.
  destruct (tk_symbol t) as [sym|]; [|reflexivity].
  destruct (reverse_dict (cex_symbols_binance self) !! sym); cbn [mbind result_bind].
  - destruct (to_decimal (tk_price t)); cbn [mbind result_bind]; [apply IH|reflexivity].
  - apply IH.
Qed.

Lemma fetch_binance_price_ext self env env' tok :
  (forall s, binance_single env' s = binance_single env s) ->
  now env' = now env ->
  fetch_binance_price self env' tok = fetch_binance_price self env tok.
Proof.
  intros H Hnow. unfold fetch_binance_price, binance_record.
  destruct (as_map (tokens self) !! tok); [|reflexivity].
  destruct (as_map (cex_symbols_binance self) !! tok) as [sym|]; [|reflexivity].
  rewrite H, Hnow. reflexivity.
Qed.

Lemma binance_individual_ext self env env' toks :
  (forall s, binance_single env' s = binance_single env s) ->
  now env' = now env ->
  forall results slept,
    binance_individual_loop self env' toks results slept
    = binance_individual_loop self env toks results slept.
Proof.
  intros H Hnow. induction toks as [|tok rest IH]; intros results slept; simpl;
    [reflexivity|].
  rewrite (fetch_binance_price_ext self env env' tok H Hnow).
  destruct (fetch_binance_price self env tok) as [[[pd|]|e] s]; apply IH.
Qed.

Lemma binance_attempts_ext self env env' attempts :
  (forall k, binance_bulk env' k = binance_bulk env k) ->
  (forall s, binance_single env' s = binance_single env s) ->
  now env' = now env ->
  forall slept,
    binance_attempts self env' attempts slept = binance_attempts self env attempts slept.
Proof.
  intros Hb Hs Hnow. induction attempts as [|attempt rest IH]; intros slept; simpl.
  - unfold _fetch_binance_individual.
    rewrite (binance_individual_ext self env env' _ Hs Hnow). reflexivity.
  - rewrite Hb. destruct (binance_bulk env attempt) as [e|status body]; [apply IH|].
    destruct (status =? 200).
    + destruct body as [all_data|e]; cbn [mbind result_bind]; [|apply IH].
      rewrite (binance_parse_ext self env env' all_data Hnow).
      destruct (binance_parse self env [] all_data); [reflexivity|apply IH].
    + destruct (status =? 429); apply IH.
Qed.

(** A batch with a bad record does not parse. *)
Lemma binance_parse_bad_record self env all_data t :
  In t all_data -> binance_bad_record self t ->
  forall results, exists e, binance_parse self env results all_data = Raise e.
Proof.
  intros Hin Hbad. induction all_data as [|t' rest IH]; intros results; [destruct Hin|].
  cbn [binance_parse].
  destruct (binance_step self env results t') as [r|e] eqn:E; cbn [mbind result_bind];
    [|eauto].
  destruct Hin as [->|Hin]; [|apply IH; exact Hin].
  exfalso. unfold binance_step in E.
  destruct Hbad as [Hnone|(sym & tok & Hsym & Htok & Hprice)].
  - rewrite Hnone in E. discriminate.
  - rewrite Hsym, Htok in E. destruct Hprice as [Hp|Hp]; rewrite Hp in E; discriminate.
Qed.

(** A batch without a bad record parses to the records of its
    configured symbols, in the order of the batch. *)
Lemma binance_parse_good_records self env all_data :
  Forall (fun t => ~ binance_bad_record self t) all_data ->
  forall results,
    binance_parse self env results all_data
    = Ok (results ++ omap (binance_expected self env) all_data).
Proof.
  induction 1 as [|t rest Ht _ IH]; intros results; cbn [binance_parse omap list_omap].
  - rewrite app_nil_r. reflexivity.
  - unfold binance_step, binance_expected, binance_bad_record in *.
    destruct (tk_symbol t) as [sym|]; [|exfalso; apply Ht; left; reflexivity].
    destruct (reverse_dict (cex_symbols_binance self) !! sym) as [tok|] eqn:Etok.
    + destruct (tk_price t) as [| |p] eqn:Ep.
      * exfalso. apply Ht. right. exists sym, tok. auto.
      * exfalso. apply Ht. right. exists sym, tok. auto.
      * cbn [to_decimal mbind result_bind]. rewrite IH, <- app_assoc. reflexivity.
    + cbn [mbind result_bind]. rewrite IH.
      destruct (tk_price t); reflexivity.
Qed.

(** One turn of the retry loop: an attempt that delivers ends the loop
    with its batch, any other one sleeps its delay and goes on. *)
Lemma binance_attempts_step self env k rest slept r :
  bulk_attempt self env k r ->
  binance_attempts self env (k :: rest) slept
  = match r with
    | Delivered results => (results, slept)
    | _ => binance_attempts self env rest (slept ++ delay_after k r)
    end.
Proof.
  cbn [binance_attempts]. unfold max_retries.
  change (3 - 1)%nat with 2%nat.
  destruct r as [results| | |]; cbn [bulk_attempt delay_after].
  - intros (all_data & -> & Hgood & ->). cbn [Z.eqb Pos.eqb mbind result_bind].
    rewrite (binance_parse_good_records self env all_data Hgood []). reflexivity.
  - intros [body ->]. reflexivity.
  - intros [[e ->]|[[e ->]|(all_data & t & -> & Hin & Hbad)]]; try reflexivity.
    cbn [Z.eqb Pos.eqb mbind result_bind].
    destruct (binance_parse_bad_record self env all_data t Hin Hbad []) as [e ->].
    reflexivity.
  - intros (status & body & -> & H200 & H429).
    apply Z.eqb_neq in H200, H429. rewrite H200, H429, app_nil_r. reflexivity.
Qed.

(** Every attempt comes to one of the four results. *)
Lemma bulk_attempt_total self env k : exists r, bulk_attempt self env k r.
Proof.
  destruct (binance_bulk env k) as [e|status body] eqn:E.
  - exists Broken. left. exists e. exact E.
  - destruct (Z.eq_dec status 200) as [->|H200].
    + destruct body as [all_data|e]; [|exists Broken; right; left; exists e; exact E].
      destruct (binance_parse self env [] all_data) as [results|e] eqn:Ep.
      * exists (Delivered (omap (binance_expected self env) all_data)).
        exists all_data. split; [exact E|]. split; [|reflexivity].
        apply List.Forall_forall. intros t Hin Hbad.
        destruct (binance_parse_bad_record self env all_data t Hin Hbad []) as [e He].
        congruence.
      * exists Broken. right. right.
        assert (~ Forall (fun t => ~ binance_bad_record self t) all_data) as Hn.
        { intros Hgood.
          rewrite (binance_parse_good_records self env all_data Hgood []) in Ep.
          discriminate. }
        assert (Exists (fun t => ~ ~ binance_bad_record self t) all_data) as Hex.
        { apply List.neg_Forall_Exists_neg; [|exact Hn].
          intros t. unfold binance_bad_record.
          destruct (tk_symbol t) as [sym|]; [|right; intros H; apply H; auto].
          destruct (reverse_dict (cex_symbols_binance self) !! sym) as [tok|] eqn:Et.
          - destruct (tk_price t) as [| |p] eqn:Ep'.
            + right. intros H. apply H. right. exists sym, tok. auto.
            + right. intros H. apply H. right. exists sym, tok. auto.
            + left. intros [H|(s' & tok' & Hs & _ & [H|H])]; discriminate.
          - left. intros [H|(s' & tok' & Hs & Ht & _)]; [discriminate|].
            injection Hs as <-. congruence. }
        apply List.Exists_exists in Hex as (t & Hin & Hnn).
        exists all_data, t. split; [exact E|]. split; [exact Hin|].
        unfold binance_bad_record in *.
        destruct (tk_symbol t) as [sym|]; [|auto].
        destruct (reverse_dict (cex_symbols_binance self) !! sym) as [tok|] eqn:Et.
        -- destruct (tk_price t) as [| |p] eqn:Ep'.
           ++ right. exists sym, tok. auto.
           ++ right. exists sym, tok. auto.
           ++ exfalso. apply Hnn. intros [H|(s' & tok' & Hs & _ & [H|H])]; discriminate.
        -- exfalso. apply Hnn. intros [H|(s' & tok' & Hs & Ht & _)]; [discriminate|].
           injection Hs as <-. congruence.
    + destruct (Z.eq_dec status 429) as [->|H429].
      * exists RateLimited. exists body. exact E.
      * exists Refused. exists status, body. auto.
Qed.

(** C10, as the code has it.  Both adapters are total: every exception
    is caught inside and a list comes back.
    - Bybit is fetched per instrument, with no retry and no fallback: an
      instrument whose record is malformed or lacks a field is dropped
      and every other instrument's record is returned unchanged.
    - Binance is fetched in bulk, three attempts at most.  Every
      attempt delivers a batch, is rate-limited, is broken or is
      refused.  The first attempt that delivers ends the pass of the
      adapter with the records of the batch; the adapter has then slept
      the delays of the attempts before it, [2^k] after a rate-limited
      attempt [k], 1 after a broken one and nothing after a refused
      one.  A batch with one bad record is a broken attempt.  When no
      attempt delivers, the adapter sleeps the delays of the three
      (none after a broken third) and returns what the per-instrument
      fallback returns.
    - Neither venue's replies influence the other venue's records, and
      the pass returns both lists joined. *)
Theorem cex_adapters_best_effort (self : UnifiedPriceSystem) :
  (forall env env' sym,
      (forall s, s <> sym -> bybit_single env' s = bybit_single env s) ->
      now env' = now env ->
      bybit_bad_record (bybit_single env' sym) ->
      fetch_all_bybit_prices self env'
      = omap (fun s => if decide (s = sym) then None else fetch_single_bybit self env s)
             (values (cex_symbols_bybit self)))
  /\ (forall env k, exists r, bulk_attempt self env k r)
  /\ (forall env (outcome : nat -> attempt_result) k results,
         (k < 3)%nat ->
         (forall j, (j <= k)%nat -> bulk_attempt self env j (outcome j)) ->
         (forall j, (j < k)%nat -> forall r, outcome j <> Delivered r) ->
         outcome k = Delivered results ->
         fetch_all_binance_prices self env
         = (results, concat (map (fun j => delay_after j (outcome j)) (seq 0 k))))
  /\ (forall env (outcome : nat -> attempt_result),
         (forall j, (j < 3)%nat -> bulk_attempt self env j (outcome j)) ->
         (forall j, (j < 3)%nat -> forall r, outcome j <> Delivered r) ->
         fetch_all_binance_prices self env
         = ((_fetch_binance_individual self env).1,
            concat (map (fun j => delay_after j (outcome j)) (seq 0 3))
            ++ (_fetch_binance_individual self env).2))
  /\ (forall env env',
         (forall s, bybit_single env' s = bybit_single env s) ->
         now env' = now env ->
         fetch_all_bybit_prices self env' = fetch_all_bybit_prices self env)
  /\ (forall env env',
         (forall k, binance_bulk env' k = binance_bulk env k) ->
         (forall s, binance_single env' s = binance_single env s) ->
         now env' = now env ->
         fetch_all_binance_prices self env' = fetch_all_binance_prices self env)
  /\ (forall env,
         get_cex_prices self env
         = (fetch_all_binance_prices self env).1 ++ fetch_all_bybit_prices self env).
Proof.
  assert (forall env (outcome : nat -> attempt_result) k rest slept,
             bulk_attempt self env k (outcome k) ->
             (forall r, outcome k <> Delivered r) ->
             binance_attempts self env (k :: rest) slept
             = binance_attempts self env rest (slept ++ delay_after k (outcome k)))
    as Hskip.
  { intros env outcome k rest slept Hat Hk.
    rewrite (binance_attempts_step self env k rest slept _ Hat).
    destruct (outcome k) as [r| | |]; [destruct (Hk r); reflexivity|reflexivity..]. }
  assert (forall env (outcome : nat -> attempt_result) k rest slept results,
             bulk_attempt self env k (outcome k) ->
             outcome k = Delivered results ->
             binance_attempts self env (k :: rest) slept = (results, slept))
    as Hstop.
  { intros env outcome k rest slept results Hat Hk.
    rewrite (binance_attempts_step self env k rest slept _ Hat), Hk. reflexivity. }
  repeat split.
  - intros env env' sym Hother Hnow Hbad. unfold fetch_all_bybit_prices.
    induction (values (cex_symbols_bybit self)) as [|s l IH]; [reflexivity|].
    cbn [omap list_omap]. rewrite IH.
    destruct (decide (s = sym)) as [->|Hne].
    + rewrite (bybit_bad_record_dropped self env' sym Hbad). reflexivity.
    + rewrite (fetch_single_bybit_ext self env env' s (Hother s Hne) Hnow). reflexivity.
  - intros env k. apply bulk_attempt_total.
  - intros env outcome k results Hk Hall Hbefore Hat.
    unfold fetch_all_binance_prices, max_retries. cbn [seq].
    destruct k as [|[|[|k]]]; [| | |lia].
    + rewrite (Hstop env outcome _ _ _ results (Hall 0%nat ltac:(lia)) Hat).
      reflexivity.
    + rewrite (Hskip env outcome _ _ _ (Hall 0%nat ltac:(lia))
                 (Hbefore 0%nat ltac:(lia))).
      rewrite (Hstop env outcome _ _ _ results (Hall 1%nat ltac:(lia)) Hat).
      cbn [seq map concat app]. rewrite app_nil_r. reflexivity.
    + rewrite (Hskip env outcome _ _ _ (Hall 0%nat ltac:(lia))
                 (Hbefore 0%nat ltac:(lia))).
      rewrite (Hskip env outcome _ _ _ (Hall 1%nat ltac:(lia))
                 (Hbefore 1%nat ltac:(lia))).
      rewrite (Hstop env outcome _ _ _ results (Hall 2%nat ltac:(lia)) Hat).
      cbn [seq map concat app]. rewrite app_nil_r. reflexivity.
  - intros env outcome Hall Hnone.
    unfold fetch_all_binance_prices, max_retries. cbn [seq].
    rewrite (Hskip env outcome _ _ _ (Hall 0%nat ltac:(lia)) (Hnone 0%nat ltac:(lia))).
    rewrite (Hskip env outcome _ _ _ (Hall 1%nat ltac:(lia)) (Hnone 1%nat ltac:(lia))).
    rewrite (Hskip env outcome _ _ _ (Hall 2%nat ltac:(lia)) (Hnone 2%nat ltac:(lia))).
    cbn [binance_attempts seq map concat app].
    destruct (_fetch_binance_individual self env) as [r s]. cbn [fst snd].
    rewrite app_nil_r, <- !app_assoc. reflexivity.
  - intros env env' H Hnow. unfold fetch_all_bybit_prices.
    induction (values (cex_symbols_bybit self)) as [|s l IH]; [reflexivity|].
    cbn [omap list_omap]. rewrite IH.
    rewrite (fetch_single_bybit_ext self env env' s (H s) Hnow). reflexivity.
  - intros env env' Hb Hs Hnow. unfold fetch_all_binance_prices.
    apply binance_attempts_ext; assumption.
Qed.

(** One record without a price costs Binance the whole batch: the good
    BNB record, which the batch alone would have produced, is not in
    the result, which is the fallback's first five tokens. *)
Lemma binance_bad_record_loses_batch :
  binance_parse (init []) env_bad_record []
    [{| tk_symbol := Some "BNBUSDC"%string; tk_price := Present (Dec.Finite 600) |}]
  = Ok [binance_record env_bad_record "BNB" (Dec.Finite 600)]
  /\ map token (fetch_all_binance_prices (init []) env_bad_record).1
     = ["WETH"; "WBTC"; "LINK"; "UNI"; "MATIC"]%string
  /\ (fetch_all_binance_prices (init []) env_bad_record).2
     = [1; 1; 1 # 5; 1 # 5; 1 # 5; 1 # 5; 1 # 5]%Q.
Proof. repeat split; vm_compute; reflexivity. Qed.

End AdapterFacts.

(** ** The detector *)

Module DetectorFacts.
Import Py Analyzer Spec.
Local Open Scope float_scope.

(** [scan_rows] and [scan_tokens] only collect what the evaluator
    returned. *)
Lemma scan_rows_collects {A} (P : A -> Prop)
  (find : list Row -> string -> result (option A)) :
  (forall w tok x, find w tok = Ok (Some x) -> P x) ->
  forall token token_data anchors time_window found out,
    scan_rows find token token_data anchors time_window found = Ok out ->
    Forall P found -> Forall P out.
Proof.
  intros Hfind token token_data anchors time_window.
  induction anchors as [|row rest IH]; intros found out H Hfound; cbn [scan_rows] in H.
  - injection H as <-. exact Hfound.
  - match type of H with (if ?c then _ else _) = _ => destruct c end;
      [|eapply IH; eauto].
    destruct (find _ token) as [[x|]|e] eqn:E; cbn [mbind result_bind] in H;
      [| |discriminate].
    + eapply IH; [exact H|]. apply Forall_app. split; [exact Hfound|].
      constructor; [|constructor]. eapply Hfind; eauto.
    + eapply IH; eauto.
Qed.

Lemma scan_tokens_collects {A} (P : A -> Prop)
  (find : list Row -> string -> result (option A)) :
  (forall w tok x, find w tok = Ok (Some x) -> P x) ->
  forall df toks time_window found out,
    scan_tokens find df toks time_window found = Ok out ->
    Forall P found -> Forall P out.
Proof.
  intros Hfind df toks time_window.
  induction toks as [|token rest IH]; intros found out H Hfound; simpl in H.
  - injection H as <-. exact Hfound.
  - destruct (scan_rows find token _ _ time_window found) as [found'|e] eqn:E;
      cbn [mbind result_bind] in H; [|discriminate].
    eapply IH; [exact H|]. eapply scan_rows_collects; eauto.
Qed.

Lemma leveraged_pair_fixed token binance_row dex_row st st' :
  leveraged_pair token binance_row dex_row st = Ok st' ->
  holds fixed_notional st -> holds fixed_notional st'.
Proof.
  unfold leveraged_pair. intros H Hst.
  repeat (step_in H; try congruence).
  injection H as <-. split; reflexivity.
Qed.

Lemma leveraged_inner_fixed token binance_row nearby_dex :
  forall st st',
    leveraged_inner token binance_row nearby_dex st = Ok st' ->
    holds fixed_notional st -> holds fixed_notional st'.
Proof.
  induction nearby_dex as [|dex_row rest IH]; intros st st' H Hst; simpl in H.
  - congruence.
  - destruct (leveraged_pair token binance_row dex_row st) as [st1|] eqn:E;
      cbn [mbind result_bind] in H; [|discriminate].
    eapply IH; [exact H|]. eapply leveraged_pair_fixed; eauto.
Qed.

Lemma leveraged_outer_fixed token binance_data dex_data :
  forall st st',
    leveraged_outer token binance_data dex_data st = Ok st' ->
    holds fixed_notional st -> holds fixed_notional st'.
Proof.
  induction binance_data as [|binance_row rest IH]; intros st st' H Hst; simpl in H.
  - congruence.
  - destruct (leveraged_inner token binance_row _ st) as [st1|] eqn:E;
      cbn [mbind result_bind] in H; [|discriminate].
    eapply IH; [exact H|]. eapply leveraged_inner_fixed; eauto.
Qed.

Lemma find_leveraged_fixed window_data token o :
  find_leveraged_opportunity window_data token = Ok (Some o) -> fixed_notional o.
Proof.
  unfold find_leveraged_opportunity. intros H.
  destruct (leveraged_outer token _ _ (None, 0)) as [st|] eqn:E;
    cbn [mbind result_bind] in H; [|discriminate].
  apply leveraged_outer_fixed in E; [|exact I].
  injection H as H. destruct (0 <? snd st); [|discriminate].
  unfold holds in E. rewrite H in E. exact E.
Qed.

Lemma cycle_pair_fixed token buy_data sell_data st st' :
  cycle_pair token buy_data sell_data st = Ok st' ->
  holds (fun c => Cycle.investment c = 1000%Z) st ->
  holds (fun c => Cycle.investment c = 1000%Z) st'.
Proof.
  unfold cycle_pair. intros H Hst.
  repeat (step_in H; try congruence).
  assert (st' = catch (Ok st') (fun _ => st')) as Hs by reflexivity.
  rewrite <- H in Hs. cbn [catch] in Hs. rewrite Hs. reflexivity.
Qed.

Lemma cycle_inner_fixed token buy_data sells :
  forall st st',
    cycle_inner token buy_data sells st = Ok st' ->
    holds (fun c => Cycle.investment c = 1000%Z) st ->
    holds (fun c => Cycle.investment c = 1000%Z) st'.
Proof.
  induction sells as [|sell_data rest IH]; intros st st' H Hst; simpl in H.
  - congruence.
  - destruct (cycle_pair token buy_data sell_data st) as [st1|] eqn:E;
      cbn [mbind result_bind] in H; [|discriminate].
    eapply IH; [exact H|]. eapply cycle_pair_fixed; eauto.
Qed.

Lemma cycle_outer_fixed token buys window_data :
  forall st st',
    cycle_outer token buys window_data st = Ok st' ->
    holds (fun c => Cycle.investment c = 1000%Z) st ->
    holds (fun c => Cycle.investment c = 1000%Z) st'.
Proof.
  induction buys as [|buy_data rest IH]; intros st st' H Hst; simpl in H.
  - congruence.
  - destruct (cycle_inner token buy_data window_data st) as [st1|] eqn:E;
      cbn [mbind result_bind] in H; [|discriminate].
    eapply IH; [exact H|]. eapply cycle_inner_fixed; eauto.
Qed.

Lemma find_cycle_fixed window_data token c :
  find_profitable_cycle window_data token = Ok (Some c) -> Cycle.investment c = 1000%Z.
Proof.
  unfold find_profitable_cycle. intros H.
  destruct (cycle_outer token _ _ (None, 0)) as [st|] eqn:E;
    cbn [mbind result_bind] in H; [|discriminate].
  apply cycle_outer_fixed in E; [|exact I].
  injection H as H. destruct (0 <? snd st); [|discriminate].
  unfold holds in E. rewrite H in E. exact E.
Qed.

(** *** What the evaluators return *)

Lemma cycle_pair_profit token buy_data sell_data st st' :
  cycle_pair token buy_data sell_data st = Ok st' ->
  cycle_state_ok st -> cycle_state_ok st'.
Proof.
  unfold cycle_pair. intros H Hst.
  repeat (step_eq_in H; try congruence).
  assert (st' = catch (Ok st') (fun _ => st')) as Hs by reflexivity.
  rewrite <- H in Hs. cbn [catch] in Hs. rewrite Hs.
  assert (same_venue buy_data sell_data = false) as Hv.
  { unfold same_venue. rewrite andb_comm. assumption. }
  unfold cycle_state_ok, holds, cycle_profit_as_coded. cbn. rewrite Hv. auto.
Qed.

Lemma cycle_inner_profit token buy_data sells :
  forall st st',
    cycle_inner token buy_data sells st = Ok st' ->
    cycle_state_ok st -> cycle_state_ok st'.
Proof.
  induction sells as [|sell_data rest IH]; intros st st' H Hst; simpl in H.
  - congruence.
  - destruct (cycle_pair token buy_data sell_data st) as [st1|] eqn:E;
      cbn [mbind result_bind] in H; [|discriminate].
    eapply IH; [exact H|]. eapply cycle_pair_profit; eauto.
Qed.

Lemma cycle_outer_profit token buys window_data :
  forall st st',
    cycle_outer token buys window_data st = Ok st' ->
    cycle_state_ok st -> cycle_state_ok st'.
Proof.
  induction buys as [|buy_data rest IH]; intros st st' H Hst; simpl in H.
  - congruence.
  - destruct (cycle_inner token buy_data window_data st) as [st1|] eqn:E;
      cbn [mbind result_bind] in H; [|discriminate].
    eapply IH; [exact H|]. eapply cycle_inner_profit; eauto.
Qed.

(** Every cycle returned has the profit formula of the code, and a
    positive profit. *)
Lemma find_profitable_cycle_profit window_data token c :
  find_profitable_cycle window_data token = Ok (Some c) ->
  cycle_profit_as_coded c /\ (0 <? Cycle.final_profit c) = true.
Proof.
  unfold find_profitable_cycle. intros H.
  destruct (cycle_outer token _ _ (None, 0)) as [st|] eqn:E;
    cbn [mbind result_bind] in H; [|discriminate].
  apply cycle_outer_profit in E; [|exact I].
  injection H as H. destruct (0 <? snd st) eqn:Hpos; [|discriminate].
  unfold cycle_state_ok, holds in E. rewrite H in E. destruct E as [Hc Hp].
  split; [exact Hc|]. rewrite Hp. exact Hpos.
Qed.

Section LeveragedSides.
Variable window_data : list Row.

Lemma leveraged_pair_sides token binance_row dex_row st st' :
  leveraged_pair token binance_row dex_row st = Ok st' ->
  sell_row window_data binance_row -> buy_row window_data dex_row ->
  holds (leveraged_sides window_data) st -> holds (leveraged_sides window_data) st'.
Proof.
  unfold leveraged_pair. intros H [Hb1 Hb2] [Hd1 Hd2] Hst.
  repeat (step_eq_in H; try congruence).
  injection H as <-. unfold holds, leveraged_sides. cbn.
  exists dex_row, binance_row. auto 10.
Qed.

Lemma leveraged_inner_sides token binance_row nearby_dex :
  sell_row window_data binance_row -> (forall r, In r nearby_dex -> buy_row window_data r) ->
  forall st st',
    leveraged_inner token binance_row nearby_dex st = Ok st' ->
    holds (leveraged_sides window_data) st -> holds (leveraged_sides window_data) st'.
Proof.
  intros Hb. induction nearby_dex as [|dex_row rest IH]; intros Hd st st' H Hst;
    simpl in H.
  - congruence.
  - destruct (leveraged_pair token binance_row dex_row st) as [st1|] eqn:E;
      cbn [mbind result_bind] in H; [|discriminate].
    eapply IH; [intros r Hr; apply Hd; right; exact Hr|exact H|].
    eapply leveraged_pair_sides; eauto. apply Hd. left. reflexivity.
Qed.

Lemma leveraged_outer_sides token binance_data dex_data :
  (forall r, In r binance_data -> sell_row window_data r) ->
  (forall r, In r dex_data -> buy_row window_data r) ->
  forall st st',
    leveraged_outer token binance_data dex_data st = Ok st' ->
    holds (leveraged_sides window_data) st -> holds (leveraged_sides window_data) st'.
Proof.
  intros Hb Hd. induction binance_data as [|binance_row rest IH]; intros st st' H Hst;
    simpl in H.
  - congruence.
  - destruct (leveraged_inner token binance_row _ st) as [st1|] eqn:E;
      cbn [mbind result_bind] in H; [|discriminate].
    eapply IH; [intros r Hr; apply Hb; right; exact Hr|exact H|].
    eapply leveraged_inner_sides; [| |exact E|exact Hst].
    + apply Hb. left. reflexivity.
    + intros r Hr. apply Hd. unfold nearby in Hr. apply filter_In in Hr as [Hr _]. exact Hr.
Qed.

(** Every opportunity returned pairs a "bybit" row, as the sell side,
    with a lower-priced row of any source but "binance". *)
Lemma find_leveraged_sides token o :
  find_leveraged_opportunity window_data token = Ok (Some o) ->
  leveraged_sides window_data o.
Proof.
  unfold find_leveraged_opportunity. intros H.
  destruct (leveraged_outer token _ _ (None, 0)) as [st|] eqn:E;
    cbn [mbind result_bind] in H; [|discriminate].
  apply leveraged_outer_sides in E; [| | |exact I].
  - injection H as H. destruct (0 <? snd st); [|discriminate].
    unfold holds in E. rewrite H in E. exact E.
  - intros r Hr. apply filter_In in Hr as [Hr Hs]. split; [exact Hr|].
    apply String.eqb_eq. exact Hs.
  - intros r Hr. apply filter_In in Hr as [Hr Hs]. split; [exact Hr|].
    apply negb_true_iff in Hs. apply String.eqb_neq. exact Hs.
Qed.

End LeveragedSides.

(** *** The keys of the spread scan *)

Lemma snoc_key_nodup (opps : list Candidate) (c : Candidate) :
  List.NoDup (map Candidate.arb_key opps) ->
  existsb (fun opp => String.eqb (Candidate.arb_key opp) (Candidate.arb_key c)) opps = false ->
  List.NoDup (map Candidate.arb_key (opps ++ [c])).
Proof.
  intros Hnd Hex. rewrite map_app. apply List.NoDup_app; [exact Hnd| |].
  - constructor; [intros []|constructor].
  - intros k Hk [<-|[]]. apply in_map_iff in Hk as [opp [Hkey Hin]].
    assert (existsb (fun opp => String.eqb (Candidate.arb_key opp) (Candidate.arb_key c)) opps
            = true) as Ht.
    { apply existsb_exists. exists opp. split; [exact Hin|].
      apply String.eqb_eq. exact Hkey. }
    congruence.
Qed.

Lemma spread_pair_keys token row other_row opps :
  List.NoDup (map Candidate.arb_key opps) ->
  List.NoDup (map Candidate.arb_key (spread_pair token row other_row opps)).
Proof.
  intros Hnd. unfold spread_pair.
  destruct (0 <? Py.min _ _); [|exact Hnd].
  destruct (0.05 <=? _); [|exact Hnd].
  destruct (Row.price_usd row <? Row.price_usd other_row);
    (destruct (existsb _ opps) eqn:E; cbn [negb]; [exact Hnd|]);
    apply snoc_key_nodup; assumption.
Qed.

Lemma foldl_keys {A} (f : list Candidate -> A -> list Candidate) (l : list A) :
  (forall opps x, List.NoDup (map Candidate.arb_key opps) ->
                  List.NoDup (map Candidate.arb_key (f opps x))) ->
  forall opps, List.NoDup (map Candidate.arb_key opps) ->
               List.NoDup (map Candidate.arb_key (foldl f opps l)).
Proof.
  intros Hf. induction l as [|x l IH]; intros opps Hnd; simpl; [exact Hnd|].
  apply IH. apply Hf. exact Hnd.
Qed.

(** No two candidates of a scan share a key: of the pairs with the same
    token and the same two timestamps, one at most is reported. *)
Lemma load_and_analyze_arbitrage_keys sort_by_timestamp csv time_window :
  List.NoDup (map Candidate.arb_key
                (load_and_analyze_arbitrage sort_by_timestamp csv time_window).2).
Proof.
  unfold load_and_analyze_arbitrage. cbn [snd].
  apply foldl_keys; [|constructor].
  intros opps token Hnd. unfold spread_token. apply foldl_keys; [|exact Hnd].
  clear opps Hnd. intros opps row Hnd. unfold spread_anchor.
  apply foldl_keys; [|exact Hnd].
  intros opps' other_row Hnd'. apply spread_pair_keys. exact Hnd'.
Qed.

(** The evaluators take the window and the token only.  The notional is
    the constant 1000 per side inside them -- every opportunity records
    1000 per side and 2000 in total, every cycle records 1000 -- and
    the report does not depend on the investment given on the command
    line. *)
Lemma detector_notional_is_fixed
  (sort_by_timestamp : list Row -> list Row)
  (read_csv : string -> option (list Row)) (args : Args) :
  (forall opportunities_df,
      main sort_by_timestamp read_csv args = LeveragedReport opportunities_df ->
      Forall fixed_notional opportunities_df)
  /\ (forall cycles_df,
         main sort_by_timestamp read_csv args = CompleteReport cycles_df ->
         Forall (fun c => Cycle.investment c = 1000%Z) cycles_df)
  /\ (forall supplied : float,
         main sort_by_timestamp read_csv
           {| file := file args; investment := supplied; window := window args;
              strategy := strategy args |}
         = main sort_by_timestamp read_csv args).
Proof.
  unfold main. repeat split.
  - intros l H. destruct (read_csv (file args)) as [csv|]; [|discriminate].
    destruct (strategy args).
    + unfold analyze_leveraged_arbitrage in H.
      destruct (scan_tokens find_leveraged_opportunity _ _ _ []) as [found|] eqn:E;
        cbn [mbind result_bind] in H; [|discriminate].
      injection H as <-.
      eapply scan_tokens_collects; [|exact E|constructor].
      intros w tok x. apply find_leveraged_fixed.
    + destruct (analyze_complete_arbitrage_cycle _ _ _) as [[? ?]|]; discriminate.
  - intros l H. destruct (read_csv (file args)) as [csv|]; [|discriminate].
    destruct (strategy args).
    + destruct (analyze_leveraged_arbitrage _ _ _) as [[? ?]|]; discriminate.
    + unfold analyze_complete_arbitrage_cycle in H.
      destruct (scan_tokens find_profitable_cycle _ _ _ []) as [found|] eqn:E;
        cbn [mbind result_bind] in H; [|discriminate].
      injection H as <-.
      eapply scan_tokens_collects; [|exact E|constructor].
      intros w tok x. apply find_cycle_fixed.
Qed.

End DetectorFacts.

(** ** Scenarios: the code run on concrete inputs *)

Module Scenarios.
Import Py Analyzer Spec Inputs SchedulerFacts DetectorFacts.
Local Open Scope float_scope.

(** *** The full-cycle evaluator *)

(** C1 fails on the code.  Every cycle returned has a positive profit,
    and that profit is the proceeds less the return transfer cost and
    the investment: the outbound token-transfer cost is looked up and
    recorded, never subtracted.  For a purchase on Arbitrum sold on Base
    with both costs 13, the cycle is returned with profit 6.78; with the
    outbound cost subtracted as well the profit would be negative and no
    cycle should be returned. *)
Theorem full_cycle_profit_omits_outbound_cost :
  (forall window_data token c,
      find_profitable_cycle window_data token = Ok (Some c) ->
      cycle_profit_as_coded c /\ (0 <? Cycle.final_profit c) = true)
  /\ exists c : Cycle,
      find_profitable_cycle arbitrum_base_window "UNI" = Ok (Some c)
      /\ TRANSFER_COSTS !! ("arbitrum", "base")%string = Some 13
      /\ TRANSFER_COSTS !! ("base", "arbitrum")%string = Some 13
      /\ Cycle.token_transfer_cost c = 13
      /\ Cycle.usdc_return_cost c = 13
      /\ Cycle.final_profit c = 6.7816114600000219
      /\ (Cycle.usdc_received c - Cycle.token_transfer_cost c
          - Cycle.usdc_return_cost c - 1000 <? 0) = true.
Proof.
  split; [intros w tok c; apply find_profitable_cycle_profit|].
  eexists. split; [vm_compute; reflexivity|].
  repeat split; vm_compute; reflexivity.
Qed.

(** *** The leveraged hedge evaluator *)

(** C3 fails on the code.  Every opportunity returned sells at a "bybit"
    row and buys at a strictly lower-priced row whose source is anything
    but "binance" -- which admits the centralized venue's own rows.  A
    window holding only that venue's observations yields an opportunity,
    bought at its lower quote and labelled "reference DEX". *)
Theorem leveraged_buy_side_not_on_chain :
  (forall window_data token o,
      find_leveraged_opportunity window_data token = Ok (Some o) ->
      leveraged_sides window_data o)
  /\ exists o : Opportunity,
      find_leveraged_opportunity bybit_only_window "UNI" = Ok (Some o)
      /\ Forall (fun r => Row.source r = "bybit"%string) bybit_only_window
      /\ Opportunity.buy_platform o = "reference DEX"%string
      /\ Opportunity.sell_platform o = "Binance Futures"%string
      /\ Opportunity.buy_price o = 98
      /\ Opportunity.sell_price o = 100
      /\ Opportunity.final_profit o = 6.8261428571429086.
Proof.
  split; [intros w tok o; apply find_leveraged_sides|].
  eexists. split; [vm_compute; reflexivity|].
  split; [repeat constructor|]. repeat split; vm_compute; reflexivity.
Qed.

(** *** The simple spread scan *)

(** C7 fails on the code.  The key holds the token and the two
    timestamps but not the venues, and no two candidates share a key: so
    of the pairs of different observations with equal timestamps only
    the first is kept.  For the three quotes taken in one second, whose
    pairs all have the key of the first, a single candidate is emitted,
    in whichever order the sort leaves the rows; taken in three
    different seconds, all three pairs are. *)
Theorem spread_scan_key_collision :
  (forall sort_by_timestamp csv time_window,
      List.NoDup (map Candidate.arb_key
                    (load_and_analyze_arbitrage sort_by_timestamp csv time_window).2))
  /\ Forall (fun pair => make_arb_key "UNI" pair.1 pair.2 = "UNI_0_0"%string)
            (r ← same_second; r' ← same_second; [(r, r')])
  /\ Forall (fun sorted =>
               map Candidate.arb_key
                   (load_and_analyze_arbitrage (fun _ => sorted) same_second 30).2
               = ["UNI_0_0"]%string)
            (permutations same_second)
  /\ map (fun c => (Candidate.arb_key c, Candidate.buy_source c, Candidate.sell_source c))
         (load_and_analyze_arbitrage isort_by_timestamp three_seconds 30).2
     = [("UNI_0_1", "binance", "bybit"); ("UNI_0_2", "binance", "uniswap_v3");
        ("UNI_1_2", "bybit", "uniswap_v3")]%string.
Proof.
  split; [intros; apply load_and_analyze_arbitrage_keys|].
  split; [vm_compute; repeat constructor|].
  split; [|vm_compute; reflexivity].
  let l := eval vm_compute in (permutations same_second) in
  change (permutations same_second) with l.
  repeat (constructor; [vm_compute; reflexivity|]). constructor.
Qed.

(** *** The command line *)

(** C9 fails on the code.  [main] declares [--investment] ("investment
    amount (USD)", default 100) and passes only the file and the window
    on: whatever amount is supplied, the report is the same, every
    opportunity in it records 1000 per side (2000 in total) and every
    cycle 1000, the literal the evaluators hold.  Run with
    [--investment 500], and again with 5000, the analysis reports the
    same opportunity, with 1000 recorded per side and the profit of a
    1000 notional. *)
Theorem cli_investment_is_ignored :
  (forall (sort_by_timestamp : list Row -> list Row)
          (read_csv : string -> option (list Row)) (args : Args),
      (forall opportunities_df,
          main sort_by_timestamp read_csv args = LeveragedReport opportunities_df ->
          Forall fixed_notional opportunities_df)
      /\ (forall cycles_df,
             main sort_by_timestamp read_csv args = CompleteReport cycles_df ->
             Forall (fun c => Cycle.investment c = 1000%Z) cycles_df)
      /\ (forall supplied : float,
             main sort_by_timestamp read_csv
               {| file := file args; investment := supplied; window := window args;
                  strategy := strategy args |}
             = main sort_by_timestamp read_csv args))
  /\ exists o : Opportunity,
      main isort_by_timestamp (fun _ => Some hedge_csv) (args_with 500)
      = LeveragedReport [o]
      /\ main isort_by_timestamp (fun _ => Some hedge_csv) (args_with 5000)
         = LeveragedReport [o]
      /\ Opportunity.investment_per_side o = 1000%Z
      /\ (float_of_int (Opportunity.investment_per_side o) =? investment (args_with 500))
         = false
      /\ Opportunity.final_profit o = 6.8261428571429086.
Proof.
  split; [intros; apply detector_notional_is_fixed|].
  eexists. split; [vm_compute; reflexivity|].
  repeat split; vm_compute; reflexivity.
Qed.

(** *** The scheduler *)

Lemma scheduler_is_greedy_by_profit_witness :
  filter_non_overlapping_trades isort_by_profit_desc [c30; c50; c40] 30 = [c50].
Proof.
  apply (proj2 (proj2 (scheduler_is_greedy_by_profit isort_by_profit_desc
                         [c30; c50; c40] 30
                         ltac:(vm_compute; apply Permutation_cons_append)
                         ltac:(vm_compute; repeat constructor)))
           c50 c40 c30).
  - symmetry. apply Permutation_cons_append.
  - reflexivity.
  - reflexivity.
  - reflexivity.
  - vm_compute. split; reflexivity.
  - vm_compute. split; reflexivity.
  - vm_compute. intros [_ H]. discriminate H.
Defined.

Lemma scheduled_intervals_pairwise_disjoint_witness :
  filter_non_overlapping_trades isort_by_profit_desc [c30; c40] 30 = [c40; c30]
  /\ ~ (occupies (interval 30 c40) 100 /\ occupies (interval 30 c30) 100).
Proof.
  split; [reflexivity|].
  apply (scheduled_intervals_pairwise_disjoint isort_by_profit_desc [c30; c40] 30
           0%nat 1%nat c40 c30 100).
  - discriminate.
  - reflexivity.
  - reflexivity.
Defined.

End Scenarios.

Module PoolScenarios.
Import Collector Dec Spec Inputs PoolFacts AggregatorFacts AdapterFacts.

Lemma cache_ok_empty self : cache_ok self ∅.
Proof. intros ? ? ? ? ? _ _ H. rewrite lookup_empty in H. discriminate. Qed.

Lemma pool_price_normalizer_formula_witness :
  exists (cache' : gmap string PoolCacheEntry) (obs : PriceData),
    fetch_uniswap_price (init ["ethereum"]) env_weth_pool ∅ "ethereum" "WETH"
    = (cache', Ok (Some obs))
    /\ (exists p, price obs = Finite p /\ (p == 3800.066580206538482719448031)%Q)
    /\ exists config tc token_address entry raw fee_rate price_usd,
        as_map (chains (init ["ethereum"])) !! "ethereum"%string = Some config
        /\ as_map (tokens (init ["ethereum"])) !! "WETH"%string = Some tc
        /\ as_map (chain_tokens config) !! "WETH"%string = Some token_address
        /\ cache' !! "ethereum_WETH"%string = Some entry
        /\ slot0 env_weth_pool "ethereum" (pool_address entry) = Ok raw
        /\ spec_price_usd raw (decimals tc) 6
             (address_lower token_address (usdc_address config)) = Ok price_usd
        /\ price obs = Finite price_usd
        /\ Dec.div (of_int (pool_fee entry)) (of_int 1000000) = Ok fee_rate
        /\ market_cap obs = Some (Dec.mul price_usd (Dec.sub (of_int 1) fee_rate))
        /\ volume_24h obs = Some (Dec.mul price_usd (Dec.add (of_int 1) fee_rate)).
Proof.
  eexists. eexists. split; [vm_compute; reflexivity|].
  split; [eexists; split; reflexivity|].
  apply (pool_price_normalizer_formula (init ["ethereum"]) env_weth_pool ∅).
  - apply cache_ok_empty.
  - vm_compute. reflexivity.
Defined.

Lemma onchain_prices_within_bounds_witness :
  exists obs : PriceData,
    (get_all_prices (init ["ethereum"]) env_weth_pool ∅).2 !! "WETH"%string = Some [obs]
    /\ exists p : Q,
        price obs = Finite p
        /\ (price_lower_bound <= p /\ p <= price_upper_bound
            /\ 1 # 10 ^ 10 <= p /\ p <= inject_Z (10 ^ 10)
            /\ 0 < p)%Q.
Proof.
  eexists. split; [vm_compute; reflexivity|].
  eapply (onchain_prices_within_bounds (init ["ethereum"]) env_weth_pool ∅ "WETH").
  - vm_compute. reflexivity.
  - apply list_elem_of_here.
  - reflexivity.
Defined.

Lemma slot_prices_reciprocal_up_to_rounding_witness :
  (0 < 3 * 2 ^ 96 < 2 ^ 160)%Z
  /\ (0 <= 8 <= 255)%Z
  /\ exists lo hi : Q,
      derive_price true (3 * 2 ^ 96) 8 = Ok lo
      /\ derive_price false (3 * 2 ^ 96) 8 = Ok hi
      /\ (Qabs (lo * hi - scale 8 * scale 8) <= 4 * u * (scale 8 * scale 8))%Q.
Proof.
  split; [split; reflexivity|]. split; [split; discriminate|].
  apply (slot_prices_reciprocal_up_to_rounding (3 * 2 ^ 96) 8).
  - split; reflexivity.
  - split; discriminate.
Defined.

(** The first request times out, the second is rate-limited, the third
    delivers: the adapter sleeps 1 and 2 and returns the batch. *)
Lemma cex_adapters_best_effort_witness :
  fetch_all_binance_prices (init []) env_third_attempt
  = ([binance_record env_third_attempt "BNB" (Finite 600)], [1; 2]%Q).
Proof.
  apply (proj1 (proj2 (proj2 (AdapterFacts.cex_adapters_best_effort (init []))))
           env_third_attempt
           (fun j => match j with
                     | O => Broken
                     | S O => RateLimited
                     | _ => Delivered [binance_record env_third_attempt "BNB" (Finite 600)]
                     end)
           2%nat).
  - lia.
  - intros [|[|j]] _.
    + left. eexists. reflexivity.
    + eexists. reflexivity.
    + eexists. split; [reflexivity|]. split; [|vm_compute; reflexivity].
      repeat constructor.
      * intros [H|(sym & tok & _ & _ & [H|H])]; discriminate H.
      * intros [H|(sym & tok & Hs & Ht & _)]; [discriminate H|].
        injection Hs as <-. vm_compute in Ht. discriminate Ht.
  - intros [|[|j]] Hj r; [discriminate|discriminate|lia].
  - reflexivity.
Defined.

(** An attempt answered with another status than 200 and 429 is not
    followed by a sleep: after an exception, a 500 and a batch the
    adapter has slept 1 only. *)
Lemma refused_attempt_sleeps_nothing :
  fetch_all_binance_prices (init []) env_server_error
  = ([binance_record env_server_error "BNB" (Finite 600)], [1]%Q).
Proof. vm_compute. reflexivity. Qed.

(** Three rate-limited attempts sleep 1, 2 and 4 before the fallback,
    which is rate-limited as well. *)
Lemma rate_limited_attempts_back_off :
  (fetch_all_binance_prices (init []) env_rate_limited).2
  = [1; 2; 4; 1 # 5; 1; 1 # 5; 1; 1 # 5; 1; 1 # 5; 1; 1 # 5; 1]%Q.
Proof. vm_compute. reflexivity. Qed.

End PoolScenarios.

(** * Further properties

    Properties of the code beyond the specification's claims. *)

Module SelectionFacts.
Import Analyzer Spec SchedulerFacts.
Import AnalyzerTerms CollectorTerms.

Lemma greedy_extends execution_time accepted rows out :
  greedy execution_time accepted rows out ->
  exists more, out = accepted ++ more /\ sublist more rows.
Proof.
  induction 1 as [acc|acc trade rest out _ _ [more [-> Hs]]|acc trade rest out _ _ [more [-> Hs]]].
  - exists []. split; [symmetry; apply app_nil_r|constructor].
  - exists (trade :: more). split; [rewrite <- app_assoc; reflexivity|].
    apply sublist_skip. exact Hs.
  - exists more. split; [reflexivity|]. apply sublist_cons. exact Hs.
Qed.

Lemma greedy_maximal execution_time accepted rows out :
  greedy execution_time accepted rows out ->
  forall t, In t rows ->
    In t out
    \/ exists a, In a out
                 /\ overlap (interval execution_time t) (interval execution_time a).
Proof.
  induction 1 as [acc|acc trade rest out _ Hg IH|acc trade rest out Hex Hg IH];
    intros t Hin.
  - destruct Hin.
  - destruct Hin as [<-|Hin]; [|apply IH; exact Hin].
    left. apply greedy_extends in Hg as [more [-> _]].
    apply in_or_app. left. apply in_or_app. right. left. reflexivity.
  - destruct Hin as [<-|Hin]; [|apply IH; exact Hin].
    right. destruct Hex as [a [Ha Hov]]. exists a. split; [|exact Hov].
    apply greedy_extends in Hg as [more [-> _]]. apply in_or_app. left. exact Ha.
Qed.

(** X1: the selection is a subsequence of the candidates as sorted; it is
    maximal, every candidate left out overlapping a selected trade; and
    the candidate the sort ranks first is always selected. *)
Theorem selection_is_maximal
  (sort_by_profit_desc : list Trade -> list Trade)
  (arb_df : list Trade) (execution_time : Z) :
  Permutation arb_df (sort_by_profit_desc arb_df) ->
  let out := filter_non_overlapping_trades sort_by_profit_desc arb_df execution_time in
  sublist out (sort_by_profit_desc arb_df)
  /\ (forall t, In t arb_df ->
        In t out
        \/ exists a, In a out
                     /\ overlap (interval execution_time t) (interval execution_time a))
  /\ (forall top rest, sort_by_profit_desc arb_df = top :: rest ->
        exists more, out = top :: more).
Proof.
  intros Hperm out.
  assert (greedy execution_time [] (sort_by_profit_desc arb_df) out) as Hg.
  { unfold out, filter_non_overlapping_trades. destruct arb_df as [|c cs].
    - apply Permutation_nil in Hperm. rewrite Hperm. constructor.
    - apply (select_trades_greedy _ _ []). }
  split; [|split].
  - destruct (greedy_extends _ _ _ _ Hg) as [more [Heq Hs]]. rewrite Heq. exact Hs.
  - intros t Hin. eapply greedy_maximal; [exact Hg|].
    eapply Permutation_in; eauto.
  - intros top rest Hs. rewrite Hs in Hg.
    inversion Hg as [|? ? ? ? _ Hg'|? ? ? ? Hex _]; subst;
      [|destruct Hex as [a [Ha _]]; destruct Ha].
    destruct (greedy_extends _ _ _ _ Hg') as [more [Heq _]]. exists more. exact Heq.
Qed.

End SelectionFacts.

Module WindowFacts.
Import Py Analyzer Spec SchedulerFacts DetectorFacts.
Import AnalyzerTerms CollectorTerms.
Local Open Scope float_scope.

(** *** The windows the drivers hand to an evaluator *)

Lemma forward_window_range token_data current_time time_window r :
  In r (forward_window token_data current_time time_window) ->
  In r token_data
  /\ (current_time <= Row.timestamp r <= current_time + time_window)%Z.
Proof.
  unfold forward_window. intros H. apply filter_In in H as [Hin Hr].
  apply andb_prop in Hr as [H1 H2]. split; [exact Hin|lia].
Qed.

Lemma scan_rows_windows {A} (P : A -> Prop)
  (find : list Row -> string -> result (option A)) token token_data time_window :
  (forall t x,
      find (forward_window token_data t time_window) token = Ok (Some x) -> P x) ->
  forall anchors found out,
    scan_rows find token token_data anchors time_window found = Ok out ->
    Forall P found -> Forall P out.
Proof.
  intros Hfind.
  induction anchors as [|row rest IH]; intros found out H Hfound; cbn [scan_rows] in H.
  - injection H as <-. exact Hfound.
  - match type of H with (if ?c then _ else _) = _ => destruct c end;
      [|eapply IH; eauto].
    destruct (find _ token) as [[x|]|e] eqn:E; cbn [mbind result_bind] in H;
      [| |discriminate].
    + eapply IH; [exact H|]. apply Forall_app. split; [exact Hfound|].
      constructor; [|constructor]. eapply Hfind; eauto.
    + eapply IH; eauto.
Qed.

Lemma scan_tokens_windows {A} (P : A -> Prop)
  (find : list Row -> string -> result (option A)) time_window :
  (forall token_data token t x,
      find (forward_window token_data t time_window) token = Ok (Some x) -> P x) ->
  forall df toks found out,
    scan_tokens find df toks time_window found = Ok out ->
    Forall P found -> Forall P out.
Proof.
  intros Hfind df toks.
  induction toks as [|token rest IH]; intros found out H Hfound; simpl in H.
  - injection H as <-. exact Hfound.
  - destruct (scan_rows find token _ _ time_window found) as [found'|e] eqn:E;
      cbn [mbind result_bind] in H; [|discriminate].
    eapply IH; [exact H|]. eapply scan_rows_windows; [|exact E|exact Hfound].
    intros t x. apply Hfind.
Qed.

(** *** The leveraged evaluator *)

Lemma leveraged_pair_cases token binance_row dex_row st st' :
  leveraged_pair token binance_row dex_row st = Ok st' ->
  st' = st
  \/ exists o, st' = (Some o, Opportunity.final_profit o)
               /\ leveraged_step binance_row dex_row st o.
Proof.
  unfold leveraged_pair. intros H.
  repeat (step_eq_in H; try (left; congruence)).
  injection H as <-. right.
  match goal with |- exists o, (Some ?x, _) = _ /\ _ => exists x end.
  split; [reflexivity|]. unfold leveraged_step. cbn. auto.
Qed.

Section LeveragedLoops.
Variable P : Opportunity -> Prop.
Local Abbreviation best := (AnalyzerTerms.best Opportunity.final_profit).
Variable R : Row -> Row -> Prop.
Hypothesis step :
  forall binance_row dex_row st o,
    R binance_row dex_row -> leveraged_step binance_row dex_row st o -> P o.

Lemma leveraged_pair_best token binance_row dex_row st st' :
  R binance_row dex_row ->
  leveraged_pair token binance_row dex_row st = Ok st' ->
  best P st -> best P st'.
Proof.
  intros HR H Hst. apply leveraged_pair_cases in H as [->|[o [-> Ho]]]; [exact Hst|].
  unfold best, holds. cbn. split; [|reflexivity]. eapply step; eauto.
Qed.

Lemma leveraged_inner_best token binance_row nearby_dex :
  (forall r, In r nearby_dex -> R binance_row r) ->
  forall st st',
    leveraged_inner token binance_row nearby_dex st = Ok st' ->
    best P st -> best P st'.
Proof.
  induction nearby_dex as [|dex_row rest IH]; intros Hd st st' H Hst; simpl in H.
  - congruence.
  - destruct (leveraged_pair token binance_row dex_row st) as [st1|] eqn:E;
      cbn [mbind result_bind] in H; [|discriminate].
    eapply IH; [intros r Hr; apply Hd; right; exact Hr|exact H|].
    eapply leveraged_pair_best; eauto. apply Hd. left. reflexivity.
Qed.

Lemma leveraged_outer_best token binance_data dex_data :
  (forall b d, In b binance_data -> In d (nearby dex_data (Row.timestamp b)) -> R b d) ->
  forall st st',
    leveraged_outer token binance_data dex_data st = Ok st' ->
    best P st -> best P st'.
Proof.
  induction binance_data as [|binance_row rest IH]; intros HR st st' H Hst; simpl in H.
  - congruence.
  - destruct (leveraged_inner token binance_row _ st) as [st1|] eqn:E;
      cbn [mbind result_bind] in H; [|discriminate].
    eapply IH; [intros b d Hb; apply HR; right; exact Hb|exact H|].
    eapply leveraged_inner_best; [|exact E|exact Hst].
    intros r Hr. apply HR; [left; reflexivity|exact Hr].
Qed.

Lemma find_leveraged_best window_data token o :
  (forall b d, In b window_data -> In d window_data ->
               (Z.abs (Row.timestamp b - Row.timestamp d) <= 300)%Z -> R b d) ->
  find_leveraged_opportunity window_data token = Ok (Some o) ->
  P o /\ (0 <? Opportunity.final_profit o) = true.
Proof.
  unfold find_leveraged_opportunity. intros HR H.
  destruct (leveraged_outer token _ _ (None, 0)) as [st|] eqn:E;
    cbn [mbind result_bind] in H; [|discriminate].
  apply leveraged_outer_best in E; [| |exact I].
  - injection H as H. destruct (0 <? snd st) eqn:Hpos; [|discriminate].
    unfold best, holds in E. rewrite H in E. destruct E as [HP Hfp].
    split; [exact HP|]. rewrite Hfp. exact Hpos.
  - intros b d Hb Hd. apply filter_In in Hb as [Hb _].
    unfold nearby in Hd. apply filter_In in Hd as [Hd Ht].
    apply filter_In in Hd as [Hd _]. apply andb_prop in Ht as [H1 H2].
    apply HR; [exact Hb|exact Hd|lia].
Qed.

End LeveragedLoops.


(** X2: every opportunity of the leveraged analysis pairs two observations
    at most 300 seconds and at most the analysis window apart, whose
    prices differ by 0.05% or more, and has a positive profit. *)
Theorem leveraged_opportunities_within_window
  (sort_by_timestamp : list Row -> list Row) (csv : list Row) (time_window : Z) df found :
  analyze_leveraged_arbitrage sort_by_timestamp csv time_window = Ok (df, found) ->
  Forall (leveraged_ok time_window) found.
Proof.
  unfold analyze_leveraged_arbitrage. intros H.
  destruct (scan_tokens find_leveraged_opportunity _ _ _ []) as [found'|] eqn:E;
    cbn [mbind result_bind] in H; [|discriminate].
  injection H as _ <-.
  eapply scan_tokens_windows; [|exact E|constructor].
  intros token_data token t o Ho.
  apply (find_leveraged_best
           (fun o => (0 <= Opportunity.time_diff o <= 300)%Z
                     /\ (Opportunity.time_diff o <= time_window)%Z
                     /\ (Opportunity.price_diff_pct o <? 0.05) = false)
           (fun b d => (Z.abs (Row.timestamp b - Row.timestamp d) <= 300)%Z
                       /\ (Z.abs (Row.timestamp b - Row.timestamp d) <= time_window)%Z))
    in Ho.
  - unfold leveraged_ok. tauto.
  - intros b d st o' [H300 Hw] (Htd & _ & Hpct & _). rewrite Htd.
    split; [lia|]. split; [exact Hw|exact Hpct].
  - intros b d Hb Hd H300. split; [exact H300|].
    apply forward_window_range in Hb as [_ Hb].
    apply forward_window_range in Hd as [_ Hd]. lia.
Qed.

(** *** The full-cycle evaluator *)

Lemma cycle_pair_cases token buy_data sell_data st st' :
  cycle_pair token buy_data sell_data st = Ok st' ->
  st' = st
  \/ exists c, st' = (Some c, Cycle.final_profit c)
               /\ cycle_step buy_data sell_data st c.
Proof.
  unfold cycle_pair. intros H.
  repeat (step_eq_in H; try (left; congruence)).
  assert (st' = catch (Ok st') (fun _ => st')) as Hs by reflexivity.
  rewrite <- H in Hs. cbn [catch] in Hs. right.
  match type of Hs with _ = (Some ?x, _) => exists x end.
  split; [exact Hs|]. clear Hs H.
  assert (same_venue buy_data sell_data = false) as Hv.
  { unfold same_venue. rewrite andb_comm. assumption. }
  assert (negb (Row.chain buy_data =? Row.chain sell_data)%string
          || negb (Row.source buy_data =? Row.source sell_data)%string = true) as Hn.
  { destruct (Row.chain buy_data =? Row.chain sell_data)%string;
      destruct (Row.source buy_data =? Row.source sell_data)%string;
      try reflexivity; discriminate. }
  unfold cycle_step. cbn -[TRANSFER_COSTS float_of_int]. rewrite Hv, Hn.
  rewrite Hv in Heqb3.
  split; [reflexivity|]. split; [reflexivity|]. split; [lia|].
  split; [reflexivity|]. split; [reflexivity|].
  split; [|split; [reflexivity|split; assumption]].
  destruct (Row.source buy_data =? Row.source sell_data)%string eqn:Es.
  - right. apply String.eqb_neq.
    destruct (Row.chain buy_data =? Row.chain sell_data)%string;
      [discriminate|reflexivity].
  - left. apply String.eqb_neq. exact Es.
Qed.

Section CycleLoops.
Variable P : Cycle -> Prop.
Variable R : Row -> Row -> Prop.
Local Abbreviation best := (AnalyzerTerms.best Cycle.final_profit).
Hypothesis step :
  forall buy_data sell_data st c,
    R buy_data sell_data -> cycle_step buy_data sell_data st c -> P c.

Lemma cycle_pair_best token buy_data sell_data st st' :
  R buy_data sell_data ->
  cycle_pair token buy_data sell_data st = Ok st' ->
  best P st -> best P st'.
Proof.
  intros HR H Hst. apply cycle_pair_cases in H as [->|[c [-> Hc]]]; [exact Hst|].
  unfold AnalyzerTerms.best, holds. cbn. split; [|reflexivity]. eapply step; eauto.
Qed.

Lemma cycle_inner_best token buy_data sells :
  (forall r, In r sells -> R buy_data r) ->
  forall st st',
    cycle_inner token buy_data sells st = Ok st' ->
    best P st -> best P st'.
Proof.
  induction sells as [|sell_data rest IH]; intros Hd st st' H Hst; simpl in H.
  - congruence.
  - destruct (cycle_pair token buy_data sell_data st) as [st1|] eqn:E;
      cbn [mbind result_bind] in H; [|discriminate].
    eapply IH; [intros r Hr; apply Hd; right; exact Hr|exact H|].
    eapply cycle_pair_best; eauto. apply Hd. left. reflexivity.
Qed.

Lemma cycle_outer_best token buys window_data :
  (forall b s, In b buys -> In s window_data -> R b s) ->
  forall st st',
    cycle_outer token buys window_data st = Ok st' ->
    best P st -> best P st'.
Proof.
  induction buys as [|buy_data rest IH]; intros HR st st' H Hst; simpl in H.
  - congruence.
  - destruct (cycle_inner token buy_data window_data st) as [st1|] eqn:E;
      cbn [mbind result_bind] in H; [|discriminate].
    eapply IH; [intros b s Hb; apply HR; right; exact Hb|exact H|].
    eapply cycle_inner_best; [|exact E|exact Hst].
    intros r Hr. apply HR; [left; reflexivity|exact Hr].
Qed.

Lemma find_cycle_best window_data token c :
  (forall b s, In b window_data -> In s window_data -> R b s) ->
  find_profitable_cycle window_data token = Ok (Some c) ->
  P c /\ (0 <? Cycle.final_profit c) = true.
Proof.
  unfold find_profitable_cycle. intros HR H.
  destruct (cycle_outer token _ _ (None, 0)) as [st|] eqn:E;
    cbn [mbind result_bind] in H; [|discriminate].
  apply cycle_outer_best in E; [|exact HR|exact I].
  injection H as H. destruct (0 <? snd st) eqn:Hpos; [|discriminate].
  unfold AnalyzerTerms.best, holds in E. rewrite H in E. destruct E as [HP Hfp].
  split; [exact HP|]. rewrite Hfp. exact Hpos.
Qed.

End CycleLoops.

(** X3: every cycle of the full-cycle analysis joins two different venues,
    so it always needs a transfer; its two observations are at most the
    analysis window apart, the sell price is more than 1% above the buy
    price, and the profit is positive. *)
Theorem complete_cycles_cross_venue
  (sort_by_timestamp : list Row -> list Row) (csv : list Row) (time_window : Z) df found :
  analyze_complete_arbitrage_cycle sort_by_timestamp csv time_window = Ok (df, found) ->
  Forall (cycle_ok time_window) found.
Proof.
  unfold analyze_complete_arbitrage_cycle. intros H.
  destruct (scan_tokens find_profitable_cycle _ _ _ []) as [found'|] eqn:E;
    cbn [mbind result_bind] in H; [|discriminate].
  injection H as _ <-.
  eapply scan_tokens_windows; [|exact E|constructor].
  intros token_data token t c Hc.
  apply (find_cycle_best
           (fun c => Cycle.needs_transfer c = true
                     /\ Cycle.transfer_type c
                        = (Cycle.buy_chain c +:+ "→" +:+ Cycle.sell_chain c)%string
                     /\ (Cycle.buy_source c <> Cycle.sell_source c
                         \/ Cycle.buy_chain c <> Cycle.sell_chain c)
                     /\ (- time_window <= Cycle.time_diff c <= time_window)%Z
                     /\ (Cycle.sell_price c <=? Cycle.buy_price c * 1.01) = false)
           (fun b s => (- time_window <= Row.timestamp s - Row.timestamp b <= time_window)%Z))
    in Hc.
  - unfold cycle_ok. tauto.
  - intros b s st c' Hw (Htd & _ & _ & Hn & Ht & Hv & _ & Hp & _). rewrite Htd. tauto.
  - intros b s Hb Hs.
    apply forward_window_range in Hb as [_ Hb].
    apply forward_window_range in Hs as [_ Hs]. lia.
Qed.

End WindowFacts.

Module DriverFacts.
Import Py Analyzer Spec SchedulerFacts DetectorFacts WindowFacts.
Import AnalyzerTerms CollectorTerms.
Local Open Scope float_scope.

(** *** How many records an analysis returns *)

Lemma scan_rows_length {A} (find : list Row -> string -> result (option A))
  token token_data time_window :
  forall anchors found out,
    scan_rows find token token_data anchors time_window found = Ok out ->
    (length out <= length found + length anchors)%nat.
Proof.
  induction anchors as [|row rest IH]; intros found out H; cbn [scan_rows] in H.
  - injection H as <-. simpl. lia.
  - match type of H with (if ?c then _ else _) = _ => destruct c end.
    + destruct (find _ token) as [[x|]|e]; cbn [mbind result_bind] in H;
        [| |discriminate]; apply IH in H; rewrite ?length_app in H; simpl in *; lia.
    + apply IH in H. simpl. lia.
Qed.

Lemma scan_tokens_length {A} (find : list Row -> string -> result (option A))
  df time_window :
  forall toks found out,
    scan_tokens find df toks time_window found = Ok out ->
    (length out
     <= length found + list_sum (map (fun tok => length (rows_of_token df tok)) toks))%nat.
Proof.
  induction toks as [|token rest IH]; intros found out H; simpl in H.
  - injection H as <-. simpl. lia.
  - destruct (scan_rows find token _ _ time_window found) as [found'|e] eqn:E;
      cbn [mbind result_bind] in H; [|discriminate].
    apply IH in H. apply scan_rows_length in E. simpl. lia.
Qed.

Lemma unique_In x l : In x l <-> In x (unique l).
Proof.
  induction l as [|y l IH]; simpl; [tauto|]. split.
  - intros [->|H]; [left; reflexivity|].
    destruct (String.eqb y x) eqn:E.
    + left. apply String.eqb_eq. exact E.
    + right. apply filter_In. split; [apply IH; exact H|]. rewrite E. reflexivity.
  - intros [->|H]; [left; reflexivity|]. right.
    apply filter_In in H as [H _]. apply IH. exact H.
Qed.

Lemma unique_NoDup l : List.NoDup (unique l).
Proof.
  induction l as [|y l IH]; simpl; constructor.
  - intros H. apply filter_In in H as [_ H].
    rewrite String.eqb_refl in H. discriminate.
  - apply List.NoDup_filter. exact IH.
Qed.

Lemma rows_of_token_partition df :
  forall toks, List.NoDup toks ->
    (list_sum (map (fun tok => length (rows_of_token df tok)) toks) <= length df)%nat.
Proof.
  induction df as [|r df IH]; intros toks Hnd.
  - induction toks as [|t toks IHt]; simpl; [lia|].
    inversion Hnd; subst. apply IHt. assumption.
  - specialize (IH toks Hnd). unfold rows_of_token in *. simpl.
    assert (forall l, List.NoDup l ->
              (list_sum (map (fun tok =>
                   length (if (Row.token r =? tok)%string
                           then r :: List.filter (fun r0 => (Row.token r0 =? tok)%string) df
                           else List.filter (fun r0 => (Row.token r0 =? tok)%string) df)) l)
               <= list_sum (map (fun tok =>
                      length (List.filter (fun r0 => (Row.token r0 =? tok)%string) df)) l)
                  + (if bool_decide (Row.token r ∈ l) then 1 else 0))%nat) as Hl.
    { clear. induction l as [|t l IHl]; intros Hnd; simpl; [lia|].
      inversion Hnd as [|? ? Hnt Hnd']; subst. specialize (IHl Hnd').
      rewrite <- list_elem_of_In in Hnt.
      destruct (Row.token r =? t)%string eqn:E.
      - apply String.eqb_eq in E. subst t.
        rewrite bool_decide_eq_true_2 by apply list_elem_of_here.
        rewrite bool_decide_eq_false_2 in IHl by exact Hnt. simpl. lia.
      - apply String.eqb_neq in E.
        destruct (bool_decide (Row.token r ∈ l)) eqn:D.
        + apply bool_decide_eq_true in D.
          rewrite bool_decide_eq_true_2 by (apply list_elem_of_further; exact D). lia.
        + apply bool_decide_eq_false in D.
          rewrite bool_decide_eq_false_2
            by (rewrite elem_of_cons; intros [?|?]; [congruence|contradiction]).
          lia. }
    specialize (Hl toks Hnd).
    destruct (bool_decide (Row.token r ∈ toks)); lia.
Qed.

(** *** The token a record carries *)

Lemma leveraged_pair_token token binance_row dex_row st st' :
  leveraged_pair token binance_row dex_row st = Ok st' ->
  holds (fun o => Opportunity.token o = token) st ->
  holds (fun o => Opportunity.token o = token) st'.
Proof.
  unfold leveraged_pair. intros H Hst.
  repeat (step_in H; try congruence).
  injection H as <-. reflexivity.
Qed.

Lemma leveraged_inner_token token binance_row nearby_dex :
  forall st st',
    leveraged_inner token binance_row nearby_dex st = Ok st' ->
    holds (fun o => Opportunity.token o = token) st ->
    holds (fun o => Opportunity.token o = token) st'.
Proof.
  induction nearby_dex as [|dex_row rest IH]; intros st st' H Hst; simpl in H.
  - congruence.
  - destruct (leveraged_pair token binance_row dex_row st) as [st1|] eqn:E;
      cbn [mbind result_bind] in H; [|discriminate].
    eapply IH; [exact H|]. eapply leveraged_pair_token; eauto.
Qed.

Lemma leveraged_outer_token token binance_data dex_data :
  forall st st',
    leveraged_outer token binance_data dex_data st = Ok st' ->
    holds (fun o => Opportunity.token o = token) st ->
    holds (fun o => Opportunity.token o = token) st'.
Proof.
  induction binance_data as [|binance_row rest IH]; intros st st' H Hst; simpl in H.
  - congruence.
  - destruct (leveraged_inner token binance_row _ st) as [st1|] eqn:E;
      cbn [mbind result_bind] in H; [|discriminate].
    eapply IH; [exact H|]. eapply leveraged_inner_token; eauto.
Qed.

Lemma find_leveraged_token window_data token o :
  find_leveraged_opportunity window_data token = Ok (Some o) ->
  Opportunity.token o = token.
Proof.
  unfold find_leveraged_opportunity. intros H.
  destruct (leveraged_outer token _ _ (None, 0)) as [st|] eqn:E;
    cbn [mbind result_bind] in H; [|discriminate].
  apply leveraged_outer_token in E; [|exact I].
  injection H as H. destruct (0 <? snd st); [|discriminate].
  unfold holds in E. rewrite H in E. exact E.
Qed.

Lemma cycle_pair_token token buy_data sell_data st st' :
  cycle_pair token buy_data sell_data st = Ok st' ->
  holds (fun c => Cycle.token c = token) st ->
  holds (fun c => Cycle.token c = token) st'.
Proof.
  unfold cycle_pair. intros H Hst.
  repeat (step_in H; try congruence).
  assert (st' = catch (Ok st') (fun _ => st')) as Hs by reflexivity.
  rewrite <- H in Hs. cbn [catch] in Hs. rewrite Hs. reflexivity.
Qed.

Lemma cycle_inner_token token buy_data sells :
  forall st st',
    cycle_inner token buy_data sells st = Ok st' ->
    holds (fun c => Cycle.token c = token) st ->
    holds (fun c => Cycle.token c = token) st'.
Proof.
  induction sells as [|sell_data rest IH]; intros st st' H Hst; simpl in H.
  - congruence.
  - destruct (cycle_pair token buy_data sell_data st) as [st1|] eqn:E;
      cbn [mbind result_bind] in H; [|discriminate].
    eapply IH; [exact H|]. eapply cycle_pair_token; eauto.
Qed.

Lemma cycle_outer_token token buys window_data :
  forall st st',
    cycle_outer token buys window_data st = Ok st' ->
    holds (fun c => Cycle.token c = token) st ->
    holds (fun c => Cycle.token c = token) st'.
Proof.
  induction buys as [|buy_data rest IH]; intros st st' H Hst; simpl in H.
  - congruence.
  - destruct (cycle_inner token buy_data window_data st) as [st1|] eqn:E;
      cbn [mbind result_bind] in H; [|discriminate].
    eapply IH; [exact H|]. eapply cycle_inner_token; eauto.
Qed.

Lemma find_cycle_token window_data token c :
  find_profitable_cycle window_data token = Ok (Some c) -> Cycle.token c = token.
Proof.
  unfold find_profitable_cycle. intros H.
  destruct (cycle_outer token _ _ (None, 0)) as [st|] eqn:E;
    cbn [mbind result_bind] in H; [|discriminate].
  apply cycle_outer_token in E; [|exact I].
  injection H as H. destruct (0 <? snd st); [|discriminate].
  unfold holds in E. rewrite H in E. exact E.
Qed.

(** *** The records of a token *)

Section Counting.
Context {A : Type}.
Variable find : list Row -> string -> result (option A).
Variable token_of : A -> string.
Hypothesis find_token :
  forall window_data token x, find window_data token = Ok (Some x) -> token_of x = token.

(** The anchors of a token add its records only, one at most each, and
    none when the token has a single row. *)
Lemma scan_rows_extra token token_data time_window :
  forall anchors found out,
    scan_rows find token token_data anchors time_window found = Ok out ->
    exists extra,
      out = found ++ extra
      /\ Forall (fun x => token_of x = token) extra
      /\ (length extra <= length anchors)%nat
      /\ (extra <> [] -> (2 <= length token_data)%nat).
Proof.
  induction anchors as [|row rest IH]; intros found out H; cbn [scan_rows] in H.
  - injection H as <-. exists []. rewrite app_nil_r.
    split; [reflexivity|]. split; [constructor|]. split; [simpl; lia|].
    intros Hne. destruct Hne. reflexivity.
  - destruct (2 <=? length (forward_window token_data (Row.timestamp row) time_window))%nat
      eqn:Hw.
    + assert (2 <= length token_data)%nat as Hlen.
      { apply Nat.leb_le in Hw. etransitivity; [exact Hw|].
        unfold forward_window. apply List.filter_length_le. }
      destruct (find _ token) as [[x|]|e] eqn:E; cbn [mbind result_bind] in H;
        [| |discriminate].
      * apply IH in H as (extra & -> & Hall & Hle & _).
        exists (x :: extra). rewrite <- app_assoc.
        split; [reflexivity|].
        split; [constructor; [eapply find_token; exact E|exact Hall]|].
        split; [simpl; lia|]. intros _. exact Hlen.
      * apply IH in H as (extra & -> & Hall & Hle & _).
        exists extra. split; [reflexivity|]. split; [exact Hall|].
        split; [simpl; lia|]. intros _. exact Hlen.
    + apply IH in H as (extra & -> & Hall & Hle & Hne).
      exists extra. split; [reflexivity|]. split; [exact Hall|].
      split; [simpl; lia|exact Hne].
Qed.

Lemma records_of_app token (l l' : list A) :
  records_of token_of token (l ++ l')
  = records_of token_of token l ++ records_of token_of token l'.
Proof. unfold records_of. apply List.filter_app. Qed.

Lemma records_of_other token token' (l : list A) :
  Forall (fun x => token_of x = token') l -> token' <> token ->
  records_of token_of token l = [].
Proof.
  intros Hall Hne. unfold records_of. induction Hall as [|x l Hx _ IH]; [reflexivity|].
  simpl. rewrite Hx. apply String.eqb_neq in Hne. rewrite Hne. exact IH.
Qed.

(** Over distinct tokens: the records of a token are no more than its
    rows, and a token with records has two rows or more. *)
Lemma scan_tokens_extra df time_window :
  forall toks found out,
    List.NoDup toks ->
    scan_tokens find df toks time_window found = Ok out ->
    exists extra,
      out = found ++ extra
      /\ Forall (fun x => In (token_of x) toks
                          /\ (2 <= length (rows_of_token df (token_of x)))%nat) extra
      /\ forall token,
           (length (records_of token_of token extra)
            <= length (rows_of_token df token))%nat.
Proof.
  induction toks as [|tok rest IH]; intros found out Hnd H; simpl in H.
  - injection H as <-. exists []. rewrite app_nil_r.
    split; [reflexivity|]. split; [constructor|]. intros token. simpl. lia.
  - inversion Hnd as [|? ? Hnotin Hnd']; subst.
    destruct (scan_rows find tok _ _ time_window found) as [found'|e] eqn:E;
      cbn [mbind result_bind] in H; [|discriminate].
    apply scan_rows_extra in E as (e1 & -> & Hall1 & Hle1 & Hne1).
    apply IH in H as (e2 & -> & Hall2 & Hcount2); [|exact Hnd'].
    exists (e1 ++ e2). rewrite app_assoc. split; [reflexivity|]. split.
    + apply Forall_app. split.
      * apply List.Forall_forall. intros x Hx.
        assert (token_of x = tok) as Hxt
          by (rewrite List.Forall_forall in Hall1; apply Hall1; exact Hx).
        rewrite Hxt. split; [left; reflexivity|].
        apply Hne1. intros ->. destruct Hx.
      * eapply List.Forall_impl; [|exact Hall2].
        intros x [Hin Hlen]. split; [right; exact Hin|exact Hlen].
    + intros token. rewrite records_of_app, length_app.
      destruct (String.eqb tok token) eqn:Et.
      * apply String.eqb_eq in Et. subst token.
        assert (records_of token_of tok e2 = []) as ->.
        { unfold records_of.
          destruct (List.filter (fun x => String.eqb (token_of x) tok) e2)
            as [|x l] eqn:Ef; [reflexivity|].
          assert (In x (List.filter (fun x => String.eqb (token_of x) tok) e2)) as Hx
            by (rewrite Ef; left; reflexivity).
          apply filter_In in Hx as [Hx Hxt]. apply String.eqb_eq in Hxt.
          rewrite List.Forall_forall in Hall2. destruct (Hall2 x Hx) as [Hin _].
          rewrite Hxt in Hin. contradiction. }
        simpl. rewrite Nat.add_0_r.
        etransitivity; [apply List.filter_length_le|exact Hle1].
      * apply String.eqb_neq in Et.
        rewrite (records_of_other token tok e1 Hall1 Et). simpl. apply Hcount2.
Qed.

End Counting.

Lemma rows_of_token_permutation (df df' : list Row) token :
  Permutation df df' ->
  length (rows_of_token df token) = length (rows_of_token df' token).
Proof.
  unfold rows_of_token. induction 1 as [|r l l' _ IH|r r' l|l l' l'' _ IH1 _ IH2]; simpl.
  - reflexivity.
  - destruct (String.eqb (Row.token r) token); simpl; congruence.
  - destruct (String.eqb (Row.token r) token), (String.eqb (Row.token r') token);
      reflexivity.
  - congruence.
Qed.

(** What a driver returns, for an evaluator whose records carry the
    token they were asked for. *)
Lemma scan_tokens_per_token {A} (find : list Row -> string -> result (option A))
  (token_of : A -> string) (csv df : list Row) (time_window : Z) (found : list A) :
  (forall window_data token x,
      find window_data token = Ok (Some x) -> token_of x = token) ->
  Permutation csv df ->
  scan_tokens find df (tokens_of df) time_window [] = Ok found ->
  (length found <= length csv)%nat
  /\ forall token,
       (length (records_of token_of token found)
        <= length (rows_of_token csv token))%nat
       /\ ((length (rows_of_token csv token) < 2)%nat ->
           records_of token_of token found = []).
Proof.
  intros Hfind Hperm E. split.
  - apply scan_tokens_length in E.
    pose proof (rows_of_token_partition df _ (unique_NoDup (map Row.token df))) as Hp.
    unfold tokens_of in E. simpl in E. rewrite (Permutation_length Hperm). lia.
  - apply (scan_tokens_extra find token_of Hfind) in E
      as (extra & Heq & Hall & Hcount); [|apply unique_NoDup].
    simpl in Heq. subst extra. intros token.
    rewrite (rows_of_token_permutation csv df token Hperm).
    split; [apply Hcount|]. intros Hlt.
    unfold records_of.
    destruct (List.filter (fun x => String.eqb (token_of x) token) found)
      as [|x l] eqn:Ef; [reflexivity|].
    assert (In x (List.filter (fun x => String.eqb (token_of x) token) found)) as Hx
      by (rewrite Ef; left; reflexivity).
    apply filter_In in Hx as [Hx Hxt]. apply String.eqb_eq in Hxt.
    rewrite List.Forall_forall in Hall. destruct (Hall x Hx) as [_ Hlen].
    rewrite Hxt in Hlen. lia.
Qed.

(** X4: an analysis returns at most one record for each row of the log.
    When the sort returns a permutation of the log, the records are no
    more than the rows; for every token, the records of the token are
    no more than its rows; and a token the log holds a single row of
    has no record. *)
Theorem analyses_return_at_most_one_record_per_row
  (sort_by_timestamp : list Row -> list Row) (csv : list Row) (time_window : Z) :
  Permutation csv (sort_by_timestamp csv) ->
  (forall df found,
      analyze_leveraged_arbitrage sort_by_timestamp csv time_window = Ok (df, found) ->
      (length found <= length csv)%nat
      /\ forall token,
           (length (records_of Opportunity.token token found)
            <= length (rows_of_token csv token))%nat
           /\ ((length (rows_of_token csv token) < 2)%nat ->
               records_of Opportunity.token token found = []))
  /\ (forall df found,
         analyze_complete_arbitrage_cycle sort_by_timestamp csv time_window
         = Ok (df, found) ->
         (length found <= length csv)%nat
         /\ forall token,
              (length (records_of Cycle.token token found)
               <= length (rows_of_token csv token))%nat
              /\ ((length (rows_of_token csv token) < 2)%nat ->
                  records_of Cycle.token token found = [])).
Proof.
  intros Hperm. split; intros df found H.
  - unfold analyze_leveraged_arbitrage in H.
    destruct (scan_tokens find_leveraged_opportunity _ _ _ []) as [found'|] eqn:E;
      cbn [mbind result_bind] in H; [|discriminate].
    injection H as _ <-.
    eapply scan_tokens_per_token; [|exact Hperm|exact E].
    intros w token o. apply find_leveraged_token.
  - unfold analyze_complete_arbitrage_cycle in H.
    destruct (scan_tokens find_profitable_cycle _ _ _ []) as [found'|] eqn:E;
      cbn [mbind result_bind] in H; [|discriminate].
    injection H as _ <-.
    eapply scan_tokens_per_token; [|exact Hperm|exact E].
    intros w token c. apply find_cycle_token.
Qed.

End DriverFacts.

Module AbortFacts.
Import Py Analyzer Spec SchedulerFacts DetectorFacts WindowFacts DriverFacts.
Import AnalyzerTerms CollectorTerms.
Local Open Scope float_scope.

(** *** A zero price in the log *)

Lemma fdiv_raises a b e : fdiv a b = Raise e -> e = ZeroDivisionError.
Proof. unfold fdiv. destruct (b =? 0); congruence. Qed.

Ltac fdiv_raised :=
  match goal with
  | Hq : fdiv _ _ = Raise _ |- _ => apply fdiv_raises in Hq; congruence
  end.

Lemma leveraged_pair_raises token binance_row dex_row st e :
  leveraged_pair token binance_row dex_row st = Raise e -> e = ZeroDivisionError.
Proof.
  unfold leveraged_pair. intros H.
  repeat (step_eq_in H; try discriminate; try fdiv_raised).
Qed.

Lemma leveraged_inner_raises token binance_row nearby_dex :
  forall st e,
    leveraged_inner token binance_row nearby_dex st = Raise e -> e = ZeroDivisionError.
Proof.
  induction nearby_dex as [|dex_row rest IH]; intros st e H; simpl in H; [discriminate|].
  destruct (leveraged_pair token binance_row dex_row st) as [st1|e1] eqn:E;
    cbn [mbind result_bind] in H.
  - eapply IH; eauto.
  - apply leveraged_pair_raises in E. congruence.
Qed.

Lemma leveraged_outer_raises token binance_data dex_data :
  forall st e,
    leveraged_outer token binance_data dex_data st = Raise e -> e = ZeroDivisionError.
Proof.
  induction binance_data as [|binance_row rest IH]; intros st e H; simpl in H;
    [discriminate|].
  destruct (leveraged_inner token binance_row _ st) as [st1|e1] eqn:E;
    cbn [mbind result_bind] in H.
  - eapply IH; eauto.
  - apply leveraged_inner_raises in E. congruence.
Qed.

Lemma find_leveraged_raises window_data token e :
  find_leveraged_opportunity window_data token = Raise e -> e = ZeroDivisionError.
Proof.
  unfold find_leveraged_opportunity. intros H.
  destruct (leveraged_outer token _ _ (None, 0)) as [st|e1] eqn:E;
    cbn [mbind result_bind] in H; [discriminate|].
  apply leveraged_outer_raises in E. congruence.
Qed.

Lemma leveraged_pair_zero token binance_row dex_row st :
  Row.price_usd dex_row = 0 -> (0 <? Row.price_usd binance_row) = true ->
  leveraged_pair token binance_row dex_row st = Raise ZeroDivisionError.
Proof.
  unfold leveraged_pair. intros Hd Hb. cbv zeta. rewrite Hd, Hb. reflexivity.
Qed.

Lemma leveraged_inner_zero token binance_row dex_row :
  Row.price_usd dex_row = 0 -> (0 <? Row.price_usd binance_row) = true ->
  forall nearby_dex st,
    In dex_row nearby_dex ->
    leveraged_inner token binance_row nearby_dex st = Raise ZeroDivisionError.
Proof.
  intros Hd Hb. induction nearby_dex as [|r rest IH]; intros st Hin; [destruct Hin|].
  simpl. destruct (leveraged_pair token binance_row r st) as [st1|e1] eqn:E;
    cbn [mbind result_bind].
  - destruct Hin as [->|Hin]; [|apply IH; exact Hin].
    rewrite leveraged_pair_zero in E by assumption. discriminate.
  - apply leveraged_pair_raises in E. congruence.
Qed.

Lemma leveraged_outer_zero token binance_row dex_row dex_data :
  Row.price_usd dex_row = 0 -> (0 <? Row.price_usd binance_row) = true ->
  In dex_row (nearby dex_data (Row.timestamp binance_row)) ->
  forall binance_data st,
    In binance_row binance_data ->
    leveraged_outer token binance_data dex_data st = Raise ZeroDivisionError.
Proof.
  intros Hd Hb Hn. induction binance_data as [|r rest IH]; intros st Hin; [destruct Hin|].
  simpl. destruct (leveraged_inner token r _ st) as [st1|e1] eqn:E;
    cbn [mbind result_bind].
  - destruct Hin as [->|Hin]; [|apply IH; exact Hin].
    rewrite (leveraged_inner_zero token binance_row dex_row) in E by assumption.
    discriminate.
  - apply leveraged_inner_raises in E. congruence.
Qed.

Lemma find_leveraged_zero window_data token binance_row dex_row :
  In binance_row window_data -> In dex_row window_data ->
  Row.source binance_row = "bybit"%string -> Row.source dex_row <> "binance"%string ->
  Row.price_usd dex_row = 0 -> (0 <? Row.price_usd binance_row) = true ->
  (Z.abs (Row.timestamp binance_row - Row.timestamp dex_row) <= 300)%Z ->
  find_leveraged_opportunity window_data token = Raise ZeroDivisionError.
Proof.
  intros Hb Hd Hsb Hsd Hpd Hpb Ht. unfold find_leveraged_opportunity.
  rewrite (leveraged_outer_zero token binance_row dex_row); try assumption.
  - reflexivity.
  - unfold nearby. apply filter_In. split.
    + apply filter_In. split; [exact Hd|]. apply negb_true_iff.
      apply String.eqb_neq. exact Hsd.
    + apply andb_true_intro. split; apply Z.leb_le; lia.
  - apply filter_In. split; [exact Hb|]. apply String.eqb_eq. exact Hsb.
Qed.

Section Abort.
Context {A : Type}.
Variable find : list Row -> string -> result (option A).
Hypothesis find_raises :
  forall window_data token e, find window_data token = Raise e -> e = ZeroDivisionError.

Lemma scan_rows_raises token token_data time_window :
  forall anchors found e,
    scan_rows find token token_data anchors time_window found = Raise e ->
    e = ZeroDivisionError.
Proof.
  induction anchors as [|row rest IH]; intros found e H; cbn [scan_rows] in H;
    [discriminate|].
  match type of H with (if ?c then _ else _) = _ => destruct c end;
    [|eapply IH; eauto].
  destruct (find _ token) as [r|e1] eqn:E; cbn [mbind result_bind] in H.
  - eapply IH; eauto.
  - apply find_raises in E. congruence.
Qed.

Lemma scan_rows_abort token token_data time_window row :
  (2 <= length (forward_window token_data (Row.timestamp row) time_window))%nat ->
  find (forward_window token_data (Row.timestamp row) time_window) token
  = Raise ZeroDivisionError ->
  forall anchors found,
    In row anchors ->
    scan_rows find token token_data anchors time_window found = Raise ZeroDivisionError.
Proof.
  intros Hlen Hfind. induction anchors as [|r rest IH]; intros found Hin; [destruct Hin|].
  cbn [scan_rows].
  destruct Hin as [->|Hin].
  - apply Nat.leb_le in Hlen. rewrite Hlen, Hfind. reflexivity.
  - match goal with |- (if ?c then _ else _) = _ => destruct c end;
      [|apply IH; exact Hin].
    destruct (find (forward_window token_data (Row.timestamp r) time_window) token)
      as [x|e1] eqn:E; cbn [mbind result_bind].
    + apply IH. exact Hin.
    + apply find_raises in E. congruence.
Qed.

Lemma scan_tokens_abort df time_window row :
  In row df ->
  (2 <= length (forward_window (rows_of_token df (Row.token row))
                  (Row.timestamp row) time_window))%nat ->
  find (forward_window (rows_of_token df (Row.token row)) (Row.timestamp row) time_window)
       (Row.token row)
  = Raise ZeroDivisionError ->
  forall toks found,
    In (Row.token row) toks ->
    scan_tokens find df toks time_window found = Raise ZeroDivisionError.
Proof.
  intros Hrow Hlen Hfind. induction toks as [|t rest IH]; intros found Hin; [destruct Hin|].
  simpl. destruct (scan_rows find t _ _ time_window found) as [found'|e1] eqn:E;
    cbn [mbind result_bind].
  - destruct Hin as [->|Hin]; [|apply IH; exact Hin].
    rewrite (scan_rows_abort _ _ _ row) in E; try assumption; [discriminate|].
    unfold rows_of_token. apply filter_In. split; [exact Hrow|].
    apply String.eqb_refl.
  - apply scan_rows_raises in E. congruence.
Qed.

End Abort.

Lemma two_members {A} (x y : A) (l : list A) :
  In x l -> In y l -> x <> y -> (2 <= length l)%nat.
Proof.
  destruct l as [|a [|b l]]; simpl; intros Hx Hy Hne; [destruct Hx| |lia].
  destruct Hx as [Hx|[]], Hy as [Hy|[]]. congruence.
Qed.

(** X5: one zero price is enough to lose a whole leveraged analysis.  When
    the sorted log holds a "bybit" row at a positive price and, at most
    the window and 300 seconds later, a row of the same token at price
    zero whose source is not "binance", the division by the buy price
    raises, and [main] reports the error in place of every opportunity
    of the log. *)
Theorem zero_price_aborts_leveraged_analysis
  (sort_by_timestamp : list Row -> list Row)
  (read_csv : string -> option (list Row)) (args : Args)
  (csv : list Row) (binance_row dex_row : Row) :
  read_csv (file args) = Some csv ->
  strategy args = leveraged ->
  In binance_row (sort_by_timestamp csv) ->
  In dex_row (sort_by_timestamp csv) ->
  Row.token dex_row = Row.token binance_row ->
  Row.source binance_row = "bybit"%string ->
  Row.source dex_row <> "binance"%string ->
  Row.price_usd dex_row = 0 ->
  (0 <? Row.price_usd binance_row) = true ->
  (Row.timestamp binance_row <= Row.timestamp dex_row
   <= Row.timestamp binance_row + window args)%Z ->
  (Row.timestamp dex_row <= Row.timestamp binance_row + 300)%Z ->
  main sort_by_timestamp read_csv args = ErrorReport ZeroDivisionError.
Proof.
  intros Hread Hstrat Hb Hd Htok Hsb Hsd Hpd Hpb Hw H300.
  unfold main. rewrite Hread, Hstrat. unfold analyze_leveraged_arbitrage.
  set (df := sort_by_timestamp csv) in *.
  set (W := forward_window (rows_of_token df (Row.token binance_row))
              (Row.timestamp binance_row) (window args)).
  assert (In binance_row W) as HbW.
  { apply filter_In. split.
    - apply filter_In. split; [exact Hb|]. apply String.eqb_refl.
    - apply andb_true_intro. split; apply Z.leb_le; lia. }
  assert (In dex_row W) as HdW.
  { apply filter_In. split.
    - apply filter_In. split; [exact Hd|]. apply String.eqb_eq. exact Htok.
    - apply andb_true_intro. split; apply Z.leb_le; lia. }
  rewrite (scan_tokens_abort find_leveraged_opportunity find_leveraged_raises
             df (window args) binance_row).
  - reflexivity.
  - exact Hb.
  - apply (two_members binance_row dex_row); [exact HbW|exact HdW|].
    intros ->. rewrite Hpd in Hpb. discriminate Hpb.
  - apply (find_leveraged_zero _ _ binance_row dex_row); try assumption. lia.
  - unfold tokens_of. apply (proj1 (unique_In _ _)). apply in_map. exact Hb.
Qed.

End AbortFacts.

Module SpreadFacts.
Import Py Analyzer Spec SchedulerFacts DetectorFacts.
Import AnalyzerTerms CollectorTerms.
Local Open Scope float_scope.

(** *** The candidates of the spread scan *)

Lemma foldl_Forall {A B} (P : A -> Prop) (Q : B -> Prop) (f : list A -> B -> list A)
  (l : list B) :
  (forall acc x, Q x -> Forall P acc -> Forall P (f acc x)) ->
  (forall x, In x l -> Q x) ->
  forall acc, Forall P acc -> Forall P (foldl f acc l).
Proof.
  intros Hf. induction l as [|x l IH]; intros HQ acc Hacc; simpl; [exact Hacc|].
  apply IH; [intros y Hy; apply HQ; right; exact Hy|].
  apply Hf; [apply HQ; left; reflexivity|exact Hacc].
Qed.

Lemma spread_pair_ok token row other_row time_window opps :
  (Z.abs (Row.timestamp row - Row.timestamp other_row) <= time_window)%Z ->
  Forall (candidate_ok time_window) opps ->
  Forall (candidate_ok time_window) (spread_pair token row other_row opps).
Proof.
  intros Ht Hopps. unfold spread_pair.
  destruct (0 <? Py.min _ _) eqn:Hmin; [|exact Hopps].
  destruct (0.05 <=? _) eqn:Hpct; [|exact Hopps].
  destruct (Row.price_usd row <? Row.price_usd other_row);
    (destruct (existsb _ opps); cbn [negb]; [exact Hopps|]);
    (apply Forall_app; split; [exact Hopps|]);
    (constructor; [|constructor]);
    unfold candidate_ok, make_arb_key; cbn.
  - repeat split; auto.
  - rewrite Z.min_comm, Z.max_comm. repeat split; auto; lia.
Qed.

Lemma around_window_range token_data row time_window r :
  In r (around_window token_data row time_window) ->
  (Z.abs (Row.timestamp row - Row.timestamp r) <= time_window)%Z.
Proof.
  unfold around_window. intros H. apply filter_In in H as [_ H].
  apply andb_prop in H as [H _]. apply andb_prop in H as [H1 H2]. lia.
Qed.

(** X6: every candidate of the spread scan joins two observations at most
    the window apart, the cheaper of them at a positive price; its
    spread is 0.05% or more of that price; its key is made of the token
    and the two timestamps in ascending order. *)
Theorem spread_candidates_well_formed
  (sort_by_timestamp : list Row -> list Row) (csv : list Row) (time_window : Z) :
  Forall (candidate_ok time_window)
         (load_and_analyze_arbitrage sort_by_timestamp csv time_window).2.
Proof.
  unfold load_and_analyze_arbitrage. cbn [snd].
  apply (foldl_Forall _ (fun _ => True)); [|auto|constructor].
  intros opps token _ Hopps. unfold spread_token.
  apply (foldl_Forall _ (fun _ => True)); [|auto|exact Hopps].
  clear opps Hopps. intros opps row _ Hopps. unfold spread_anchor.
  apply (foldl_Forall _ (fun r =>
           (Z.abs (Row.timestamp row - Row.timestamp r) <= time_window)%Z));
    [| |exact Hopps].
  - intros acc other_row Hr Hacc. apply spread_pair_ok; assumption.
  - intros r Hr. eapply around_window_range. exact Hr.
Qed.

(** *** Profit potential *)

Lemma select_trades_In execution_time rows :
  forall selected occupied t,
    In t (select_trades execution_time rows selected occupied) ->
    In t selected \/ In t rows.
Proof.
  induction rows as [|trade rest IH]; intros selected occupied t H; simpl in H.
  - left. exact H.
  - destruct (negb _); apply IH in H as [H|H]; simpl; auto.
    apply in_app_or in H as [H|[<-|[]]]; auto.
Qed.

(** X7: the trades [calculate_profit_potential] schedules come from
    candidates whose spread exceeds the 0.5% round-trip fee; each is
    credited the notional times the spread left after the fee; and no
    two of them overlap, a trade taking 30 seconds. *)
Theorem profit_potential_trades
  (sort_by_profit_desc : list Trade -> list Trade)
  (arb_df : list Candidate) (investment_amount : float) :
  (forall l t, In t (sort_by_profit_desc l) -> In t l) ->
  let out := calculate_profit_potential sort_by_profit_desc arb_df investment_amount in
  Forall (trade_ok arb_df investment_amount) out
  /\ ForallOrdPairs
       (fun a b => ~ overlap (interval 30 b) (interval 30 a)) out.
Proof.
  intros Hsort out. unfold calculate_profit_potential in out.
  change (0.0025 * 100 * 2) with 0.5 in out.
  split.
  - apply List.Forall_forall. intros tr Htr. unfold out in Htr.
    unfold filter_non_overlapping_trades in Htr.
    match type of Htr with
    | In _ (match ?l with [] => _ | _ => _ end) =>
        assert (In tr l) as Hin
    end.
    { destruct (map _ _) eqn:E; [exact Htr|]. rewrite <- E in *.
      apply select_trades_In in Htr as [[]|Htr]. apply Hsort. exact Htr. }
    apply in_map_iff in Hin as [c [<- Hc]]. apply filter_In in Hc as [Hc Hs].
    unfold trade_ok. cbn. auto.
  - unfold out, filter_non_overlapping_trades.
    destruct (map _ _) eqn:E; [constructor|]. rewrite <- E.
    eapply greedy_no_overlap; [apply (select_trades_greedy _ _ [])|constructor].
Qed.

End SpreadFacts.

Module OrderFacts.
Import Collector Dec Spec PoolFacts.
Import AnalyzerTerms CollectorTerms.

Lemma in_all_ascii (c : ascii) : In c all_ascii.
Proof.
  unfold all_ascii. rewrite <- (ascii_nat_embedding c). apply in_map.
  apply in_seq. pose proof (nat_ascii_bounded c). lia.
Qed.

Lemma digit_order (c d : ascii) x y :
  hex_digit c = Some x -> hex_digit d = Some y ->
  Ascii.compare (lower_ascii c) (lower_ascii d) = (x ?= y) /\ 0 <= x < 16.
Proof.
  intros Hc Hd.
  assert (forallb (fun c => forallb (digit_order_agrees c) all_ascii) all_ascii = true)
    as Hall by (vm_compute; reflexivity).
  rewrite forallb_forall in Hall. specialize (Hall c (in_all_ascii c)).
  rewrite forallb_forall in Hall. specialize (Hall d (in_all_ascii d)).
  unfold digit_order_agrees in Hall. rewrite Hc, Hd in Hall.
  apply andb_prop in Hall as [Hall H16]. apply andb_prop in Hall as [Hcmp H0].
  split; [|lia].
  destruct (Ascii.compare _ _), (x ?= y); try reflexivity; discriminate.
Qed.

Lemma hex_value_acc (s : string) :
  forall acc,
    hex_value acc s
    = (v ← hex_value 0 s; Some (acc * 16 ^ Z.of_nat (String.length s) + v)).
Proof.
  induction s as [|c s IH]; intros acc; cbn [hex_value String.length].
  - cbn. f_equal. lia.
  - destruct (hex_digit c) as [d|]; cbn [mbind option_bind]; [|reflexivity].
    rewrite (IH (16 * acc + d)), (IH (16 * 0 + d)).
    destruct (hex_value 0 s) as [v|]; cbn [mbind option_bind]; [|reflexivity].
    f_equal. rewrite Nat2Z.inj_succ, Z.pow_succ_r by lia. lia.
Qed.

Lemma hex_value_cons c s v :
  hex_value 0 (String c s) = Some v ->
  exists d v', hex_digit c = Some d /\ hex_value 0 s = Some v'
               /\ v = d * 16 ^ Z.of_nat (String.length s) + v'.
Proof.
  cbn [hex_value]. destruct (hex_digit c) as [d|]; cbn [mbind option_bind];
    [|discriminate].
  rewrite hex_value_acc. destruct (hex_value 0 s) as [v'|]; cbn [mbind option_bind];
    [|discriminate].
  intros H. injection H as <-. exists d, v'. split; [reflexivity|].
  split; [reflexivity|]. ring.
Qed.

Lemma hex_value_bound s :
  forall v, hex_value 0 s = Some v -> 0 <= v < 16 ^ Z.of_nat (String.length s).
Proof.
  induction s as [|c s IH]; intros v H.
  - injection H as <-. simpl. lia.
  - apply hex_value_cons in H as (d & v' & Hd & Hv & ->).
    destruct (digit_order c c d d Hd Hd) as [_ Hd16]. specialize (IH v' Hv).
    cbn [String.length]. rewrite Nat2Z.inj_succ, Z.pow_succ_r by lia. nia.
Qed.

(** For digit strings of one length, the lexicographic order of the
    lowered texts is the order of the numbers. *)
Lemma hex_compare s :
  forall t v w,
    String.length s = String.length t ->
    hex_value 0 s = Some v -> hex_value 0 t = Some w ->
    String.compare (lower s) (lower t) = (v ?= w).
Proof.
  induction s as [|c s IH]; intros [|d t] v w Hlen Hv Hw; try discriminate.
  - injection Hv as <-. injection Hw as <-. reflexivity.
  - cbn [String.length] in Hlen. injection Hlen as Hlen.
    pose proof Hv as Hv0. pose proof Hw as Hw0.
    apply hex_value_cons in Hv as (x & v' & Hx & Hv' & ->).
    apply hex_value_cons in Hw as (y & w' & Hy & Hw' & ->).
    destruct (digit_order c d x y Hx Hy) as [Hcmp _].
    pose proof (hex_value_bound s v' Hv') as Bv.
    pose proof (hex_value_bound t w' Hw') as Bw.
    rewrite <- Hlen in *.
    cbn [lower String.compare]. rewrite Hcmp. specialize (IH t v' w' Hlen Hv' Hw').
    set (P := 16 ^ Z.of_nat (String.length s)) in *.
    destruct (x ?= y) eqn:E.
    + apply Z.compare_eq in E. subst y. rewrite IH.
      destruct (v' ?= w') eqn:E'; symmetry.
      * apply Z.compare_eq in E'. subst. apply Z.compare_refl.
      * apply Z.compare_lt_iff. rewrite Z.compare_lt_iff in E'. lia.
      * apply Z.compare_gt_iff. rewrite Z.compare_gt_iff in E'. lia.
    + symmetry. apply Z.compare_lt_iff. rewrite Z.compare_lt_iff in E.
      assert ((x + 1) * P <= y * P) by (apply Z.mul_le_mono_nonneg_r; lia). lia.
    + symmetry. apply Z.compare_gt_iff. rewrite Z.compare_gt_iff in E.
      assert ((y + 1) * P <= x * P) by (apply Z.mul_le_mono_nonneg_r; lia). lia.
Qed.

Lemma address_value_shape a v :
  address_value a = Some v ->
  exists s, a = String "0" (String "x" s)
            /\ String.length s = 40%nat /\ hex_value 0 s = Some v.
Proof.
  unfold address_value. intros H.
  destruct a as [|c0 a]; [discriminate|].
  destruct c0 as [[] [] [] [] [] [] [] []]; try discriminate.
  destruct a as [|c1 s]; [discriminate|].
  destruct c1 as [[] [] [] [] [] [] [] []]; try discriminate.
  destruct (String.length s =? 40)%nat eqn:Ls; [|discriminate].
  apply Nat.eqb_eq in Ls. exists s. auto.
Qed.

(** X8: the ordering flag agrees with Uniswap's rule.  For two well-formed
    addresses, in whatever case their digits are written, the token is
    token0 exactly when its address is the smaller number, and the two
    addresses are returned in ascending order. *)
Theorem token_order_is_numeric_order (token_address usdc : string) (va vb : Z) :
  address_value token_address = Some va ->
  address_value usdc = Some vb ->
  _determine_token_order token_address usdc
  = if va <? vb then (true, token_address, usdc) else (false, usdc, token_address).
Proof.
  intros Ha Hb.
  apply address_value_shape in Ha as (s & -> & Ls & Hs).
  apply address_value_shape in Hb as (t & -> & Lt & Ht).
  unfold _determine_token_order, String.ltb.
  change (lower (String "0" (String "x" s))) with (String "0" (String "x" (lower s))).
  change (lower (String "0" (String "x" t))) with (String "0" (String "x" (lower t))).
  change (String.compare (String "0" (String "x" (lower s)))
                         (String "0" (String "x" (lower t))))
    with (String.compare (lower s) (lower t)).
  rewrite (hex_compare s t va vb) by congruence.
  unfold Z.ltb. destruct (va ?= vb); reflexivity.
Qed.

(** *** Pool discovery *)

Lemma try_fee_levels_first env chain_name token_address usdc :
  forall fees pool fee,
    try_fee_levels env chain_name token_address usdc fees = Ok (Some pool, Some fee) ->
    exists earlier later,
      fees = earlier ++ fee :: later
      /\ getPool env chain_name token_address usdc fee = Ok pool
      /\ pool <> zero_address
      /\ Forall (fun f => getPool env chain_name token_address usdc f = Ok zero_address)
                earlier.
Proof.
  induction fees as [|f rest IH]; intros pool fee H; simpl in H; [discriminate|].
  destruct (getPool env chain_name token_address usdc f) as [p|] eqn:E;
    cbn [mbind result_bind] in H; [|discriminate].
  destruct (String.eqb p zero_address) eqn:Ez.
  - apply IH in H as (earlier & later & -> & Hp & Hnz & Hall).
    exists (f :: earlier), later. split; [reflexivity|]. split; [exact Hp|].
    split; [exact Hnz|]. constructor; [|exact Hall].
    apply String.eqb_eq in Ez. rewrite E, Ez. reflexivity.
  - injection H as <- <-. exists [], rest. split; [reflexivity|].
    split; [exact E|]. split; [apply String.eqb_neq; exact Ez|constructor].
Qed.

Lemma pool_lookup_takes_first_tier_aux env cache chain_name config token_address
  cache_key pool fee :
  cache !! cache_key = None ->
  _get_pool_address_cached env cache chain_name config token_address cache_key
  = (Some pool, Some fee) ->
  exists earlier later,
    fee_levels = earlier ++ fee :: later
    /\ getPool env chain_name token_address (usdc_address config) fee = Ok pool
    /\ pool <> zero_address
    /\ Forall (fun f => getPool env chain_name token_address (usdc_address config) f
                        = Ok zero_address)
              earlier.
Proof.
  unfold _get_pool_address_cached. intros -> H.
  destruct (try_fee_levels env chain_name token_address (usdc_address config)
              fee_levels) as [r|] eqn:E; cbn [catch] in H; [|discriminate].
  subst r. eapply try_fee_levels_first. exact E.
Qed.

(** The tiers answered with the zero address are passed over. *)
Lemma try_fee_levels_skip env chain_name token_address usdc earlier rest :
  Forall (fun f => getPool env chain_name token_address usdc f = Ok zero_address)
         earlier ->
  try_fee_levels env chain_name token_address usdc (earlier ++ rest)
  = try_fee_levels env chain_name token_address usdc rest.
Proof.
  induction 1 as [|f earlier Hf _ IH]; [reflexivity|].
  cbn [app try_fee_levels]. rewrite Hf. cbn [mbind result_bind].
  rewrite String.eqb_refl. exact IH.
Qed.

(** X9: the factory is asked for the 0.3%, 0.05%, 1% and 0.01% tiers in this
    order, and the first pool that exists is returned with its tier:
    when the tiers before a tier are answered with the zero address and
    the tier with another address, that address and that tier are the
    result.  Neither an address nor a fee is returned when the call for
    the first tier not answered with the zero address fails, or when
    all four are answered with the zero address.  Conversely a pool
    returned is the first that exists, and never the zero address.  A
    cached pair is answered from the cache, whatever the factory would
    say. *)
Theorem pool_lookup_takes_first_tier (env : Env) (cache : gmap string PoolCacheEntry)
  (chain_name : string) (config : ChainConfig) (token_address cache_key : string) :
  (forall entry, cache !! cache_key = Some entry ->
     _get_pool_address_cached env cache chain_name config token_address cache_key
     = (Some (pool_address entry), Some (pool_fee entry)))
  /\ (cache !! cache_key = None ->
      forall earlier fee later,
        fee_levels = earlier ++ fee :: later ->
        Forall (fun f => getPool env chain_name token_address (usdc_address config) f
                         = Ok zero_address)
               earlier ->
        (forall pool,
            getPool env chain_name token_address (usdc_address config) fee = Ok pool ->
            pool <> zero_address ->
            _get_pool_address_cached env cache chain_name config token_address cache_key
            = (Some pool, Some fee))
        /\ (forall e,
               getPool env chain_name token_address (usdc_address config) fee = Raise e ->
               _get_pool_address_cached env cache chain_name config token_address
                 cache_key
               = (None, None)))
  /\ (cache !! cache_key = None ->
      Forall (fun f => getPool env chain_name token_address (usdc_address config) f
                       = Ok zero_address)
             fee_levels ->
      _get_pool_address_cached env cache chain_name config token_address cache_key
      = (None, None))
  /\ (cache !! cache_key = None ->
      forall pool fee,
        _get_pool_address_cached env cache chain_name config token_address cache_key
        = (Some pool, Some fee) ->
        exists earlier later,
          fee_levels = earlier ++ fee :: later
          /\ getPool env chain_name token_address (usdc_address config) fee = Ok pool
          /\ pool <> zero_address
          /\ Forall (fun f => getPool env chain_name token_address
                                (usdc_address config) f = Ok zero_address)
                    earlier).
Proof.
  unfold _get_pool_address_cached. split; [|split; [|split]].
  - intros entry ->. reflexivity.
  - intros -> earlier fee later -> Hearlier.
    rewrite (try_fee_levels_skip env chain_name token_address (usdc_address config)
               earlier (fee :: later) Hearlier).
    cbn [try_fee_levels]. split.
    + intros pool -> Hnz. cbn [mbind result_bind].
      apply String.eqb_neq in Hnz. rewrite Hnz. reflexivity.
    + intros e ->. reflexivity.
  - intros -> Hall.
    rewrite <- (app_nil_r fee_levels).
    rewrite (try_fee_levels_skip env chain_name token_address (usdc_address config)
               fee_levels [] Hall).
    reflexivity.
  - intros -> pool fee H.
    destruct (try_fee_levels env chain_name token_address (usdc_address config)
                fee_levels) as [r|] eqn:E; cbn [catch] in H; [|discriminate].
    subst r. eapply try_fee_levels_first. exact E.
Qed.

End OrderFacts.

Module CacheFacts.
Import Collector Dec Spec PoolFacts AggregatorFacts OrderFacts DecFacts.
Import AnalyzerTerms CollectorTerms.

(** *** The pool cache *)

Lemma fetch_uniswap_price_grows self env cache chain_name token_symbol :
  cache ⊆ (fetch_uniswap_price self env cache chain_name token_symbol).1.
Proof.
  unfold fetch_uniswap_price.
  destruct (as_map (tokens self) !! token_symbol) as [tc|]; [|reflexivity].
  destruct (negb (bool_decide (chain_name ∈ web3_instances self))); [reflexivity|].
  destruct (as_map (chains self) !! chain_name) as [config|]; [|reflexivity].
  destruct (as_map (chain_tokens config) !! token_symbol) as [token_address|];
    [|reflexivity].
  destruct (cache !! (chain_name +:+ "_" +:+ token_symbol)%string) as [pool_info|] eqn:Hk;
    [reflexivity|].
  destruct (_get_pool_address_cached env cache chain_name config token_address _)
    as [[pool|] [fee|]]; try reflexivity.
  destruct (String.eqb pool ""); [reflexivity|]. cbn [fst].
  apply insert_subseteq. exact Hk.
Qed.

Lemma dex_loop_grows self env tasks :
  forall cache acc, cache ⊆ (dex_loop self env tasks cache acc).1.
Proof.
  induction tasks as [|[chain_name token_symbol] rest IH]; intros cache acc; simpl;
    [reflexivity|].
  pose proof (fetch_uniswap_price_grows self env cache chain_name token_symbol) as H.
  destruct (fetch_uniswap_price self env cache chain_name token_symbol) as [cache' r].
  cbn [fst] in H.
  destruct r as [[pd|]|e]; (etransitivity; [exact H|apply IH]).
Qed.

Lemma fetch_uniswap_price_again self env cache chain_name token_symbol :
  fetch_uniswap_price self env
    (fetch_uniswap_price self env cache chain_name token_symbol).1
    chain_name token_symbol
  = fetch_uniswap_price self env cache chain_name token_symbol.
Proof.
  unfold fetch_uniswap_price.
  destruct (as_map (tokens self) !! token_symbol) as [tc|]; [|reflexivity].
  destruct (negb (bool_decide (chain_name ∈ web3_instances self))); [reflexivity|].
  destruct (as_map (chains self) !! chain_name) as [config|]; [|reflexivity].
  destruct (as_map (chain_tokens config) !! token_symbol) as [token_address|];
    [|reflexivity].
  destruct (cache !! (chain_name +:+ "_" +:+ token_symbol)%string) as [pool_info|] eqn:Hk;
    [cbn [fst]; rewrite Hk; reflexivity|].
  destruct (_get_pool_address_cached env cache chain_name config token_address _)
    as [[pool|] [fee|]] eqn:Hp;
    try (cbn [fst]; rewrite Hk, Hp; reflexivity).
  destruct (String.eqb pool "") eqn:He;
    [cbn [fst]; rewrite Hk, Hp, He; reflexivity|].
  cbn [fst]. rewrite lookup_insert_eq. reflexivity.
Qed.

(** X10: the pool cache only grows.  A fetch, a pass over the pools and a
    whole collection pass leave every cached entry as it was; and a
    fetch repeated against the same network state rebuilds nothing: it
    returns what the first returned, cache included. *)
Theorem pool_cache_only_grows (self : UnifiedPriceSystem) (env : Env)
  (cache : gmap string PoolCacheEntry) :
  (forall chain_name token_symbol,
      cache ⊆ (fetch_uniswap_price self env cache chain_name token_symbol).1
      /\ fetch_uniswap_price self env
           (fetch_uniswap_price self env cache chain_name token_symbol).1
           chain_name token_symbol
         = fetch_uniswap_price self env cache chain_name token_symbol)
  /\ cache ⊆ (get_dex_prices self env cache).1
  /\ cache ⊆ (get_all_prices self env cache).1.
Proof.
  split; [|split].
  - intros chain_name token_symbol. split.
    + apply fetch_uniswap_price_grows.
    + apply fetch_uniswap_price_again.
  - apply dex_loop_grows.
  - unfold get_all_prices, get_dex_prices.
    pose proof (dex_loop_grows self env (dex_tasks self) cache []) as H.
    destruct (dex_loop self env (dex_tasks self) cache []) as [cache' dex_prices].
    exact H.
Qed.

(** X11: a pair whose pool is cached is priced from the pool alone: whatever
    the factory answers, or fails to answer, the fetch returns the same
    observation, and the cache is left as it is. *)
Theorem cached_pool_needs_no_factory_call (self : UnifiedPriceSystem) (env env' : Env)
  (cache : gmap string PoolCacheEntry) (chain_name token_symbol : string)
  (entry : PoolCacheEntry) :
  cache !! (chain_name +:+ "_" +:+ token_symbol)%string = Some entry ->
  slot0 env' = slot0 env ->
  now env' = now env ->
  fetch_uniswap_price self env' cache chain_name token_symbol
  = fetch_uniswap_price self env cache chain_name token_symbol
  /\ (fetch_uniswap_price self env cache chain_name token_symbol).1 = cache.
Proof.
  intros Hk Hs Hn. unfold fetch_uniswap_price.
  destruct (as_map (tokens self) !! token_symbol) as [tc|]; [|auto].
  destruct (negb (bool_decide (chain_name ∈ web3_instances self))); [auto|].
  destruct (as_map (chains self) !! chain_name) as [config|]; [|auto].
  destruct (as_map (chain_tokens config) !! token_symbol) as [token_address|]; [|auto].
  rewrite Hk. split; [|reflexivity]. unfold read_pool. rewrite Hs, Hn. reflexivity.
Qed.

End CacheFacts.

Module QuoteFacts.
Import Collector Dec Spec PoolFacts AggregatorFacts OrderFacts DecFacts CacheFacts.
Import AnalyzerTerms CollectorTerms.
Local Open Scope Q_scope.

(** *** The synthetic quotes of a pool *)

Lemma price_lower_bound_pos : 0 < price_lower_bound.
Proof. reflexivity. Qed.

(** A loose form of the rounding bound, with literal constants. *)
Lemma rnd_bounds_loose (x : Q) :
  0 < x ->
  (999999999 # 1000000000) * x <= rnd x /\ rnd x <= (1000000001 # 1000000000) * x.
Proof.
  intros Hx. destruct (rnd_bounds x Hx) as [L U].
  assert ((999999999 # 1000000000) * x <= (1 - u) * x) as L'
    by (apply Qmult_le_compat_r; [vm_compute; discriminate|lra]).
  assert ((1 + u) * x <= (1000000001 # 1000000000) * x) as U'
    by (apply Qmult_le_compat_r; [vm_compute; discriminate|lra]).
  split; lra.
Qed.

Lemma read_pool_quoted env chain_name token_symbol tc config pool_info pd :
  (0 < pool_fee pool_info < 1000000)%Z ->
  catch (read_pool env chain_name token_symbol tc config pool_info) (fun _ => None)
  = Some pd ->
  quoted pd.
Proof.
  intros Hfee H. apply read_pool_some in H
    as (raw & f & p & _ & _ & Hprice & _ & Hlo & Hf & _ & _ & _ & Hbid & Hask & Hrate).
  unfold ltb in Hlo. apply negb_false_iff in Hlo. apply Qle_bool_iff in Hlo.
  pose proof price_lower_bound_pos as Hpos.
  unfold quoted. rewrite Hprice, Hbid, Hask, Hrate.
  assert (0 < p) as Hp by lra. clear Hlo Hpos Hprice Hbid Hask Hrate.
  rewrite div_nonzero in Hf by discriminate. injection Hf as Hf.
  unfold of_int in *.
  assert (1 <= inject_Z (pool_fee pool_info)
          /\ inject_Z (pool_fee pool_info) <= 999999) as [HF1 HF2].
  { split.
    - change 1 with (inject_Z 1). rewrite <- Zle_Qle. lia.
    - change 999999 with (inject_Z 999999). rewrite <- Zle_Qle. lia. }
  change (inject_Z 1000000) with 1000000 in Hf.
  change (inject_Z 1) with 1 in *.
  generalize dependent (inject_Z (pool_fee pool_info)). intros F Hf HF1 HF2.
  assert (1 # 1000000 <= F / 1000000 /\ F / 1000000 <= 999999 # 1000000) as [Hq1 Hq2].
  { split.
    - apply Qle_shift_div_l; [reflexivity|]. lra.
    - apply Qle_shift_div_r; [reflexivity|]. lra. }
  generalize dependent (F / 1000000). intros q Hf Hq1 Hq2.
  destruct (rnd_bounds_loose q ltac:(lra)) as [Lf Uf]. rewrite Hf in Lf, Uf.
  clear Hf.
  assert (9 # 10000000 <= f /\ f <= 1 - (9 # 10000000)) as [Hf1 Hf2] by (split; lra).
  unfold Dec.mul, Dec.sub, Dec.add in *.
  destruct (rnd_bounds_loose (1 - f) ltac:(lra)) as [Ls Us].
  destruct (rnd_bounds_loose (1 + f) ltac:(lra)) as [La Ua].
  generalize dependent (rnd (1 - f)). intros s Ls Us.
  generalize dependent (rnd (1 + f)). intros a La Ua.
  assert (8 # 10000000 <= s /\ s <= 1 - (8 # 10000000)) as [Hs1 Hs2] by (split; lra).
  assert (1 + (8 # 10000000) <= a) as Ha1 by lra.
  assert (0 < p * s) as Hps by (apply Qmult_lt_0_compat; lra).
  assert (0 < p * a) as Hpa by (apply Qmult_lt_0_compat; lra).
  assert (p * s <= p * (1 - (8 # 10000000))) as Hps2
    by (apply Qmult_le_l; [exact Hp|exact Hs2]).
  assert (p * (1 + (8 # 10000000)) <= p * a) as Hpa2
    by (apply Qmult_le_l; [exact Hp|exact Ha1]).
  destruct (rnd_bounds_loose (p * s) Hps) as [Lb Ub].
  destruct (rnd_bounds_loose (p * a) Hpa) as [Lk Uk].
  exists p, (rnd (p * s)), (rnd (p * a)), f.
  split; [reflexivity|]. split; [reflexivity|]. split; [reflexivity|].
  split; [reflexivity|].
  generalize dependent (rnd (p * s)). intros bid Lb Ub.
  generalize dependent (rnd (p * a)). intros ask Lk Uk.
  generalize dependent (p * s). intros ps Hps Hps2 Lb Ub.
  generalize dependent (p * a). intros pa Hpa Hpa2 Lk Uk.
  repeat split; lra.
Qed.

Lemma fee_levels_range fee earlier later :
  fee_levels = earlier ++ fee :: later -> (0 < fee < 1000000)%Z.
Proof.
  intros H.
  assert (In fee fee_levels) as Hin
    by (rewrite H; apply in_or_app; right; left; reflexivity).
  unfold fee_levels in Hin. simpl in Hin.
  destruct Hin as [<-|[<-|[<-|[<-|[]]]]]; lia.
Qed.

Lemma fetch_uniswap_price_keeps_fees_ok self env cache chain_name token_symbol :
  fees_ok cache ->
  fees_ok (fetch_uniswap_price self env cache chain_name token_symbol).1.
Proof.
  intros Hok. unfold fetch_uniswap_price.
  destruct (as_map (tokens self) !! token_symbol) as [tc|]; [|exact Hok].
  destruct (negb (bool_decide (chain_name ∈ web3_instances self))); [exact Hok|].
  destruct (as_map (chains self) !! chain_name) as [config|]; [|exact Hok].
  destruct (as_map (chain_tokens config) !! token_symbol) as [token_address|];
    [|exact Hok].
  destruct (cache !! (chain_name +:+ "_" +:+ token_symbol)%string) as [pool_info|] eqn:Hk;
    [exact Hok|].
  destruct (_get_pool_address_cached env cache chain_name config token_address _)
    as [[pool|] [fee|]] eqn:Hp; try exact Hok.
  destruct (String.eqb pool ""); [exact Hok|]. cbn [fst].
  intros k entry Hentry.
  destruct (decide ((chain_name +:+ "_" +:+ token_symbol)%string = k)) as [<-|Hne].
  - rewrite lookup_insert_eq in Hentry. injection Hentry as <-. cbn [pool_fee].
    destruct (pool_lookup_takes_first_tier_aux env cache chain_name config token_address
                _ pool fee Hk Hp) as (earlier & later & Hfees & _).
    eapply fee_levels_range. exact Hfees.
  - rewrite lookup_insert_ne in Hentry by exact Hne. eapply Hok. exact Hentry.
Qed.

Lemma fetch_uniswap_price_quoted self env cache chain_name token_symbol cache' pd :
  fees_ok cache ->
  fetch_uniswap_price self env cache chain_name token_symbol = (cache', Ok (Some pd)) ->
  quoted pd.
Proof.
  intros Hok H.
  pose proof (fetch_uniswap_price_keeps_fees_ok self env cache chain_name token_symbol Hok)
    as Hok'.
  rewrite H in Hok'. cbn [fst] in Hok'.
  unfold fetch_uniswap_price in H.
  destruct (as_map (tokens self) !! token_symbol) as [tc|]; [|discriminate].
  destruct (negb (bool_decide (chain_name ∈ web3_instances self))); [discriminate|].
  destruct (as_map (chains self) !! chain_name) as [config|]; [|discriminate].
  destruct (as_map (chain_tokens config) !! token_symbol) as [token_address|];
    [|discriminate].
  destruct (cache !! (chain_name +:+ "_" +:+ token_symbol)%string) as [pool_info|] eqn:Hk.
  - injection H as _ H. eapply read_pool_quoted; [|exact H]. eapply Hok. exact Hk.
  - destruct (_get_pool_address_cached env cache chain_name config token_address _)
      as [[pool|] [fee|]]; try discriminate.
    destruct (String.eqb pool ""); [discriminate|].
    injection H as <- H. eapply read_pool_quoted; [|exact H].
    apply (Hok' (chain_name +:+ "_" +:+ token_symbol)%string).
    apply lookup_insert_eq.
Qed.

Lemma dex_loop_quoted self env tasks :
  forall cache acc,
    fees_ok cache -> Forall quoted acc ->
    Forall quoted (dex_loop self env tasks cache acc).2.
Proof.
  induction tasks as [|[chain_name token_symbol] rest IH]; intros cache acc Hok Hacc;
    simpl; [exact Hacc|].
  pose proof (fetch_uniswap_price_keeps_fees_ok self env cache chain_name token_symbol Hok)
    as Hok'.
  destruct (fetch_uniswap_price self env cache chain_name token_symbol)
    as [cache' r] eqn:E. cbn [fst] in Hok'.
  destruct r as [[pd|]|e]; try (apply IH; assumption).
  apply IH; [exact Hok'|]. apply Forall_app. split; [exact Hacc|].
  constructor; [|constructor].
  eapply fetch_uniswap_price_quoted; [exact Hok|exact E].
Qed.

(** X12: every on-chain observation of a pass carries a positive bid below
    its mid price and an ask above it, whatever the rounding of the
    decimal arithmetic, and a fee rate between 0 and 1: provided the
    pools cached before the pass have fee tiers between 1 and 999999
    (as the four tiers the factory is asked for do; the empty cache of a
    fresh system qualifies). *)
Theorem onchain_quotes_straddle_price (self : UnifiedPriceSystem) (env : Env)
  (cache : gmap string PoolCacheEntry) :
  fees_ok cache ->
  Forall quoted (get_dex_prices self env cache).2
  /\ fees_ok (get_dex_prices self env cache).1.
Proof.
  intros Hok. split.
  - apply dex_loop_quoted; [exact Hok|constructor].
  - unfold get_dex_prices. generalize (@nil PriceData).
    revert cache Hok. induction (dex_tasks self) as [|[c t] rest IH]; intros cache Hok acc;
      simpl; [exact Hok|].
    pose proof (fetch_uniswap_price_keeps_fees_ok self env cache c t Hok) as Hok'.
    destruct (fetch_uniswap_price self env cache c t) as [cache' r]. cbn [fst] in Hok'.
    destruct r as [[pd|]|e]; apply IH; exact Hok'.
Qed.

End QuoteFacts.

Module PerpetualFacts.
Import Collector Dec Spec PoolFacts AggregatorFacts AdapterFacts.
Import AnalyzerTerms CollectorTerms.

(** *** The perpetual venues *)

Lemma hyperliquid_parse_good env items :
  forall results,
    Forall (fun item => ~ hyperliquid_bad item) items ->
    hyperliquid_parse env results items
    = Ok (results ++ omap (hyperliquid_expected env) items).
Proof.
  induction items as [|[sym p] rest IH]; intros results Hgood; simpl.
  - rewrite app_nil_r. reflexivity.
  - inversion Hgood as [|? ? Hitem Hrest]; subst.
    unfold hyperliquid_expected at 1. cbn [fst snd].
    destruct (as_map hyperliquid_mappings !! sym) as [tok|] eqn:E.
    + destruct p as [| |q].
      * exfalso. apply Hitem. split; [cbn [fst]; rewrite E; eauto|left; reflexivity].
      * exfalso. apply Hitem. split; [cbn [fst]; rewrite E; eauto|right; reflexivity].
      * cbn [to_decimal mbind result_bind]. rewrite IH by exact Hrest.
        rewrite <- app_assoc. reflexivity.
    + apply IH. exact Hrest.
Qed.

Lemma hyperliquid_parse_bad env items :
  forall results,
    Exists hyperliquid_bad items ->
    exists e, hyperliquid_parse env results items = Raise e.
Proof.
  induction items as [|[sym p] rest IH]; intros results Hbad;
    [inversion Hbad|]. simpl.
  destruct (as_map hyperliquid_mappings !! sym) as [tok|] eqn:E.
  - destruct p as [| |q]; cbn [to_decimal mbind result_bind]; eauto.
    apply IH. inversion Hbad as [? ? [_ [H|H]]|]; subst; [discriminate..|assumption].
  - apply IH. inversion Hbad as [? ? [[tok Htok] _]|]; subst; [|assumption].
    cbn [fst] in Htok. congruence.
Qed.

(** X13: a reply of Hyperliquid is taken whole or not at all: when each
    mapped symbol has a price that converts, the adapter returns one
    record for each mapped symbol, in the order of the reply, and skips
    the others; one mapped symbol whose price is missing or malformed
    empties the batch. *)
Theorem hyperliquid_batch_all_or_nothing (env : Env) (data : list (string * field Dec.dec)) :
  hyperliquid_mids env = HttpResponse 200 (Ok data) ->
  (Forall (fun item => ~ hyperliquid_bad item) data ->
   fetch_all_hyperliquid_prices env = omap (hyperliquid_expected env) data)
  /\ (Exists hyperliquid_bad data -> fetch_all_hyperliquid_prices env = []).
Proof.
  intros Hreply. unfold fetch_all_hyperliquid_prices. rewrite Hreply.
  cbn [Z.eqb Pos.eqb mbind result_bind]. split.
  - intros Hgood. rewrite hyperliquid_parse_good by exact Hgood. reflexivity.
  - intros Hbad. destruct (hyperliquid_parse_bad env data [] Hbad) as [e ->].
    reflexivity.
Qed.

Lemma dydx_parse_good env markets :
  forall results,
    Forall (fun market => ~ dydx_bad market) markets ->
    dydx_parse env results markets = Ok (results ++ omap (dydx_expected env) markets).
Proof.
  induction markets as [|[market_id oracle] rest IH]; intros results Hgood; simpl.
  - rewrite app_nil_r. reflexivity.
  - inversion Hgood as [|? ? Hitem Hrest]; subst.
    unfold dydx_expected at 1. cbn [fst snd].
    destruct (as_map dydx_mappings !! market_id) as [tok|] eqn:E.
    + destruct oracle as [[| |q]|].
      * exfalso. apply Hitem. split; [cbn [fst]; rewrite E; eauto|left; reflexivity].
      * exfalso. apply Hitem. split; [cbn [fst]; rewrite E; eauto|right; reflexivity].
      * cbn [to_decimal mbind result_bind]. rewrite IH by exact Hrest.
        rewrite <- app_assoc. reflexivity.
      * apply IH. exact Hrest.
    + apply IH. exact Hrest.
Qed.

Lemma dydx_parse_bad env markets :
  forall results,
    Exists dydx_bad markets ->
    exists e, dydx_parse env results markets = Raise e.
Proof.
  induction markets as [|[market_id oracle] rest IH]; intros results Hbad;
    [inversion Hbad|]. simpl.
  destruct (as_map dydx_mappings !! market_id) as [tok|] eqn:E.
  - destruct oracle as [[| |q]|]; cbn [to_decimal mbind result_bind]; eauto.
    + apply IH. inversion Hbad as [? ? [_ [H|H]]|]; subst; [discriminate..|assumption].
    + apply IH. inversion Hbad as [? ? [_ [H|H]]|]; subst; [discriminate..|assumption].
  - apply IH. inversion Hbad as [? ? [[tok Htok] _]|]; subst; [|assumption].
    cbn [fst] in Htok. congruence.
Qed.

(** X14: a reply of dYdX is taken whole or not at all: when each mapped
    market that has an oracle price has one that converts, the adapter
    returns one record for each of them, in the order of the reply, and
    skips the markets without an oracle price or outside its mapping;
    one mapped market whose oracle price is malformed empties the
    batch. *)
Theorem dydx_batch_all_or_nothing (env : Env)
  (markets : list (string * option (field Dec.dec))) :
  dydx_markets env = HttpResponse 200 (Ok (Some markets)) ->
  (Forall (fun market => ~ dydx_bad market) markets ->
   fetch_all_dydx_prices env = omap (dydx_expected env) markets)
  /\ (Exists dydx_bad markets -> fetch_all_dydx_prices env = []).
Proof.
  intros Hreply. unfold fetch_all_dydx_prices. rewrite Hreply.
  cbn [Z.eqb Pos.eqb mbind result_bind]. split.
  - intros Hgood. rewrite dydx_parse_good by exact Hgood. reflexivity.
  - intros Hbad. destruct (dydx_parse_bad env markets [] Hbad) as [e ->].
    reflexivity.
Qed.

(** *** The per-instrument fallback of Binance *)

Lemma fetch_binance_price_record self env tok pd slept :
  fetch_binance_price self env tok = (Ok (Some pd), slept) ->
  token pd = tok /\ source pd = "binance"%string /\ chain pd = "reference"%string.
Proof.
  unfold fetch_binance_price. intros H.
  destruct (as_map (tokens self) !! tok); [|discriminate].
  destruct (as_map (cex_symbols_binance self) !! tok) as [sym|]; [|discriminate].
  destruct (binance_single env sym) as [e|status body]; [discriminate|].
  destruct (status =? 200).
  - destruct body as [[| |q]|e]; cbn in H; try discriminate.
    injection H as <- _. auto.
  - destruct (status =? 429); discriminate.
Qed.

Lemma fetch_binance_price_sleep self env tok :
  (total_sleep (fetch_binance_price self env tok).2 <= 12 # 10)%Q.
Proof.
  unfold fetch_binance_price.
  destruct (as_map (tokens self) !! tok); [|discriminate].
  destruct (as_map (cex_symbols_binance self) !! tok) as [sym|]; [|discriminate].
  destruct (binance_single env sym) as [e|status body]; [discriminate|].
  destruct (status =? 200); [discriminate|].
  destruct (status =? 429); discriminate.
Qed.

Lemma total_sleep_app a b : (total_sleep (a ++ b) == total_sleep a + total_sleep b)%Q.
Proof.
  unfold total_sleep. induction a as [|x a IH]; simpl; [ring|]. rewrite IH. ring.
Qed.

Lemma binance_individual_loop_spec self env toks :
  forall results slept,
    exists found,
      (binance_individual_loop self env toks results slept).1 = results ++ found
      /\ sublist (map token found) toks
      /\ Forall (fun pd => source pd = "binance"%string
                           /\ chain pd = "reference"%string) found
      /\ (total_sleep (binance_individual_loop self env toks results slept).2
          <= total_sleep slept + (12 # 10) * inject_Z (Z.of_nat (length toks)))%Q.
Proof.
  induction toks as [|tok rest IH]; intros results slept.
  - exists []. simpl. rewrite app_nil_r. split; [reflexivity|].
    split; [constructor|]. split; [constructor|]. ring_simplify. apply Qle_refl.
  - cbn [binance_individual_loop].
    pose proof (fetch_binance_price_sleep self env tok) as Hs.
    destruct (fetch_binance_price self env tok) as [r s] eqn:E. cbn [snd] in Hs.
    assert (inject_Z (Z.of_nat (length (tok :: rest)))
            == 1 + inject_Z (Z.of_nat (length rest)))%Q as Hlen.
    { cbn [length]. rewrite Nat2Z.inj_succ, <- Z.add_1_l, inject_Z_plus. reflexivity. }
    destruct r as [[pd|]|e].
    + destruct (IH (results ++ [pd]) (slept ++ s)) as (found & Hr & Hsub & Hsrc & Hsl).
      apply fetch_binance_price_record in E as (Htok & Hsrc0 & Hch0).
      exists (pd :: found). split; [rewrite Hr, <- app_assoc; reflexivity|].
      split; [cbn [map]; rewrite Htok; apply sublist_skip; exact Hsub|].
      split; [constructor; auto|].
      rewrite total_sleep_app in Hsl. rewrite Hlen. lra.
    + destruct (IH results (slept ++ s)) as (found & Hr & Hsub & Hsrc & Hsl).
      exists found. split; [exact Hr|]. split; [apply sublist_cons; exact Hsub|].
      split; [exact Hsrc|]. rewrite total_sleep_app in Hsl. rewrite Hlen. lra.
    + destruct (IH results (slept ++ s)) as (found & Hr & Hsub & Hsrc & Hsl).
      exists found. split; [exact Hr|]. split; [apply sublist_cons; exact Hsub|].
      split; [exact Hsrc|]. rewrite total_sleep_app in Hsl. rewrite Hlen. lra.
Qed.

Lemma binance_fallback_covers_five_tokens_aux (self : UnifiedPriceSystem) (env : Env) :
  let '(results, slept) := _fetch_binance_individual self env in
  sublist (map token results) (firstn 5 (keys (tokens self)))
  /\ (length results <= 5)%nat
  /\ Forall (fun pd => source pd = "binance"%string /\ chain pd = "reference"%string)
            results
  /\ (total_sleep slept <= 6)%Q.
Proof.
  unfold _fetch_binance_individual.
  destruct (binance_individual_loop_spec self env (firstn 5 (keys (tokens self))) [] [])
    as (found & Hr & Hsub & Hsrc & Hsl).
  destruct (binance_individual_loop self env _ [] []) as [results slept].
  cbn [fst snd] in *. subst results. cbn [app].
  split; [exact Hsub|]. split.
  - apply sublist_length in Hsub. rewrite length_map in Hsub.
    pose proof (firstn_le_length 5 (keys (tokens self))). lia.
  - split; [exact Hsrc|].
    pose proof (firstn_le_length 5 (keys (tokens self))) as H5.
    assert (inject_Z (Z.of_nat (length (firstn 5 (keys (tokens self))))) <= 5)%Q as Hq.
    { change 5%Q with (inject_Z 5). rewrite <- Zle_Qle. lia. }
    change (total_sleep []) with 0%Q in Hsl. lra.
Qed.

(** X15: the fallback covers the first five configured tokens only: it
    returns at most five observations, all of Binance, for a
    subsequence of these five tokens, and sleeps six seconds at most. *)
Theorem binance_fallback_covers_five_tokens (self : UnifiedPriceSystem) (env : Env) :
  let '(results, slept) := _fetch_binance_individual self env in
  sublist (map token results) (firstn 5 (keys (tokens self)))
  /\ (length results <= 5)%nat
  /\ Forall (fun pd => source pd = "binance"%string /\ chain pd = "reference"%string)
            results
  /\ (total_sleep slept <= 6)%Q.
Proof. apply binance_fallback_covers_five_tokens_aux. Qed.

Lemma binance_fallback_sleep self env :
  (total_sleep (_fetch_binance_individual self env).2 <= 6)%Q.
Proof.
  pose proof (binance_fallback_covers_five_tokens_aux self env) as H.
  destruct (_fetch_binance_individual self env) as [results slept]. apply H.
Qed.

Lemma total_sleep_nonneg slept : Forall (fun d => 0 <= d)%Q slept -> (0 <= total_sleep slept)%Q.
Proof.
  induction 1 as [|x l Hx _ IH]; cbn; [discriminate|].
  change (0 <= x + total_sleep l)%Q. lra.
Qed.

End PerpetualFacts.

Module ArbitrageFacts.
Import Collector Dec Conv Arbitrage Spec DecFacts PoolFacts.
Import AnalyzerTerms CollectorTerms.
Local Open Scope Q_scope.

(** *** The venue dict *)

Lemma dict_set_In {V} (d : list (string * V)) k v k' v' :
  In (k', v') (dict_set d k v) -> (k' = k /\ v' = v) \/ In (k', v') d.
Proof.
  induction d as [|[k0 v0] d IH]; simpl.
  - intros [H|[]]. injection H as <- <-. auto.
  - destruct (String.eqb k0 k) eqn:E.
    + apply String.eqb_eq in E. subst k0. intros [H|H]; [|auto].
      injection H as <- <-. auto.
    + intros [H|H]; [auto|]. apply IH in H as [H|H]; auto.
Qed.

Lemma dict_set_keys {V} (d : list (string * V)) k v k' :
  In k' (map fst (dict_set d k v)) -> k' = k \/ In k' (map fst d).
Proof.
  intros H. apply in_map_iff in H as [[k0 v0] [<- H]].
  apply dict_set_In in H as [[-> _]|H]; [auto|]. right.
  apply in_map_iff. exists (k0, v0). auto.
Qed.

Lemma dict_set_NoDup {V} (d : list (string * V)) k v :
  List.NoDup (map fst d) -> List.NoDup (map fst (dict_set d k v)).
Proof.
  induction d as [|[k0 v0] d IH]; simpl; intros Hnd.
  - constructor; [intros []|constructor].
  - inversion Hnd as [|? ? Hnotin Hnd']; subst.
    destruct (String.eqb k0 k) eqn:E; simpl.
    + constructor; assumption.
    + constructor; [|apply IH; exact Hnd'].
      intros H. apply dict_set_keys in H as [->|H]; [|contradiction].
      rewrite String.eqb_refl in E. discriminate.
Qed.

Lemma chain_prices_of_spec price_list :
  List.NoDup (map fst (chain_prices_of price_list))
  /\ Forall (fun kv => exists pd, In pd price_list
                                  /\ chain pd <> "reference"%string
                                  /\ kv = (venue_key pd, price pd))
            (chain_prices_of price_list).
Proof.
  unfold chain_prices_of.
  induction price_list as [|pd l IH] using rev_ind.
  - split; constructor.
  - rewrite foldl_snoc. destruct IH as [Hnd Hall].
    assert (Forall (fun kv => exists pd0, In pd0 (l ++ [pd])
                                          /\ chain pd0 <> "reference"%string
                                          /\ kv = (venue_key pd0, price pd0))
                   (foldl (fun chain_prices price_data =>
                             if negb (String.eqb (chain price_data) "reference") then
                               dict_set chain_prices
                                 (source price_data +:+ "_" +:+ chain price_data)%string
                                 (price price_data)
                             else chain_prices) [] l)) as Hall'.
    { eapply List.Forall_impl; [|exact Hall].
      intros kv (pd0 & Hin & Hc & Hkv). exists pd0. split; [|auto].
      apply in_or_app. left. exact Hin. }
    destruct (String.eqb (chain pd) "reference") eqn:E; cbn [negb].
    + split; assumption.
    + split; [apply dict_set_NoDup; exact Hnd|].
      apply List.Forall_forall. intros [k v] Hin.
      apply dict_set_In in Hin as [[-> ->]|Hin].
      * exists pd. split; [apply in_or_app; right; left; reflexivity|].
        split; [apply String.eqb_neq; exact E|reflexivity].
      * rewrite List.Forall_forall in Hall'. apply Hall'. exact Hin.
Qed.

(** *** Arithmetic on finite values *)

Lemma less_finite a b :
  finite a -> finite b -> Dec.less a b = Ok (ltb (finite_value a) (finite_value b)).
Proof. destruct a, b; cbn; intros; try contradiction; reflexivity. Qed.

Lemma subtract_finite a b :
  finite a -> finite b ->
  Dec.subtract a b = Ok (Finite (Dec.sub (finite_value a) (finite_value b))).
Proof. destruct a, b; cbn; intros; try contradiction; reflexivity. Qed.

Lemma divide_finite a b :
  finite a -> finite b ->
  Dec.divide a b = (q ← Dec.div (finite_value a) (finite_value b); Ok (Finite q)).
Proof. destruct a, b; cbn; intros; try contradiction; reflexivity. Qed.

Lemma equal_refl d : d <> NaN -> Dec.equal d d = true.
Proof.
  destruct d as [q| |[|]|]; cbn; intros H; try reflexivity.
  - apply Qeq_bool_iff. reflexivity.
  - contradiction.
Qed.

Lemma equal_finite a b :
  Dec.equal a b = true ->
  (finite a /\ finite b /\ finite_value a == finite_value b)
  \/ exists negative, a = Infinity negative /\ b = Infinity negative.
Proof.
  destruct a as [qa| |na|], b as [qb| |nb|]; cbn; intros H; try discriminate;
    try (left; split; [exact I|]; split; [exact I|]; apply Qeq_bool_iff; exact H).
  right. exists na. apply Bool.eqb_prop in H. subst nb. auto.
Qed.

(** The operations raise [InvalidOperation] only. *)
Lemma less_raises a b e : Dec.less a b = Raise e -> e = InvalidOperation.
Proof. destruct a as [| |[|]|], b as [| |[|]|]; cbn; congruence. Qed.

Lemma subtract_raises a b e : Dec.subtract a b = Raise e -> e = InvalidOperation.
Proof. destruct a as [| |[|]|], b as [| |[|]|]; cbn; congruence. Qed.

Lemma div_raises a b e : Dec.div a b = Raise e -> e = InvalidOperation.
Proof. unfold Dec.div. destruct (Qeq_bool b 0); congruence. Qed.

Lemma divide_raises a b e : Dec.divide a b = Raise e -> e = InvalidOperation.
Proof.
  destruct a as [qa| |[|]|], b as [qb| |[|]|]; cbn; try congruence;
    match goal with
    | |- context [Dec.div ?x ?y] =>
        destruct (Dec.div x y) eqn:E; cbn [mbind result_bind]; [discriminate|];
        intros H; injection H as <-; eapply div_raises; exact E
    end.
Qed.

Lemma multiply_raises a b e : Dec.multiply a b = Raise e -> e = InvalidOperation.
Proof.
  destruct a as [qa| |[|]|], b as [qb| |[|]|]; cbn; try congruence;
    match goal with
    | |- context [Qeq_bool ?x 0] => destruct (Qeq_bool x 0); congruence
    end.
Qed.

(** *** Minimum and maximum *)

Lemma py_min_In prices : forall m r, py_min m prices = Ok r -> In r (m :: prices).
Proof.
  induction prices as [|x l IH]; intros m r H; cbn [py_min] in H.
  - injection H as <-. left. reflexivity.
  - destruct (Dec.less x m) as [smaller|]; cbn [mbind result_bind] in H; [|discriminate].
    apply IH in H. destruct smaller; simpl in *; tauto.
Qed.

Lemma py_max_In prices : forall m r, py_max m prices = Ok r -> In r (m :: prices).
Proof.
  induction prices as [|x l IH]; intros m r H; cbn [py_max] in H.
  - injection H as <-. left. reflexivity.
  - destruct (Dec.greater x m) as [larger|]; cbn [mbind result_bind] in H; [|discriminate].
    apply IH in H. destruct larger; simpl in *; tauto.
Qed.

Lemma py_min_raises prices : forall m e, py_min m prices = Raise e -> e = InvalidOperation.
Proof.
  induction prices as [|x l IH]; intros m e H; cbn [py_min] in H; [discriminate|].
  destruct (Dec.less x m) as [smaller|] eqn:E; cbn [mbind result_bind] in H.
  - eapply IH. exact H.
  - injection H as <-. eapply less_raises. exact E.
Qed.

Lemma py_max_raises prices : forall m e, py_max m prices = Raise e -> e = InvalidOperation.
Proof.
  induction prices as [|x l IH]; intros m e H; cbn [py_max] in H; [discriminate|].
  destruct (Dec.greater x m) as [larger|] eqn:E; cbn [mbind result_bind] in H.
  - eapply IH. exact H.
  - injection H as <-. eapply less_raises. exact E.
Qed.

(** On finite prices [min] does not raise, and gives a smallest one. *)
Lemma py_min_finite prices :
  forall m, finite m -> Forall finite prices ->
    exists r, py_min m prices = Ok r /\ finite r
              /\ forall x, In x (m :: prices) -> finite_value r <= finite_value x.
Proof.
  induction prices as [|y l IH]; intros m Hm Hall; cbn [py_min].
  - exists m. split; [reflexivity|]. split; [exact Hm|].
    intros x [<-|[]]. apply Qle_refl.
  - inversion Hall as [|? ? Hy Hl]; subst.
    rewrite (less_finite y m Hy Hm). cbn [mbind result_bind].
    destruct (ltb (finite_value y) (finite_value m)) eqn:E; unfold ltb in E.
    + apply negb_true_iff in E.
      assert (finite_value y < finite_value m) as Hlt.
      { apply Qnot_le_lt. intros Hle. apply Qle_bool_iff in Hle. congruence. }
      destruct (IH y Hy Hl) as (r & Hr & Hf & Hmin). exists r.
      split; [exact Hr|]. split; [exact Hf|].
      intros x [<-|[<-|Hin]].
      * eapply Qle_trans; [apply Hmin; left; reflexivity|].
        apply Qlt_le_weak. exact Hlt.
      * apply Hmin. left. reflexivity.
      * apply Hmin. right. exact Hin.
    + apply negb_false_iff in E. apply Qle_bool_iff in E.
      destruct (IH m Hm Hl) as (r & Hr & Hf & Hmin). exists r.
      split; [exact Hr|]. split; [exact Hf|].
      intros x [<-|[<-|Hin]].
      * apply Hmin. left. reflexivity.
      * eapply Qle_trans; [apply Hmin; left; reflexivity|exact E].
      * apply Hmin. right. exact Hin.
Qed.

Lemma py_max_finite prices :
  forall m, finite m -> Forall finite prices ->
    exists r, py_max m prices = Ok r /\ finite r.
Proof.
  induction prices as [|y l IH]; intros m Hm Hall; cbn [py_max].
  - exists m. auto.
  - inversion Hall as [|? ? Hy Hl]; subst.
    unfold Dec.greater. rewrite (less_finite m y Hm Hy). cbn [mbind result_bind].
    destruct (ltb (finite_value m) (finite_value y)); apply IH; assumption.
Qed.

Lemma first_key_In (d : list (string * dec)) p :
  In p (values d) -> p <> NaN ->
  exists v, In (first_key d p, v) d /\ Dec.equal v p = true.
Proof.
  unfold first_key, values. intros Hin Hp.
  apply in_map_iff in Hin as [[k v] [Hv Hin]]. cbn [snd] in Hv. subst v.
  assert (In (k, p) (List.filter (fun kv => Dec.equal kv.2 p) d)) as Hf.
  { apply filter_In. split; [exact Hin|]. apply equal_refl. exact Hp. }
  destruct (List.filter (fun kv => Dec.equal kv.2 p) d) as [|[k1 v1] rest] eqn:E;
    [destruct Hf|].
  assert (In (k1, v1) (List.filter (fun kv => Dec.equal kv.2 p) d)) as H1
    by (rewrite E; left; reflexivity).
  apply filter_In in H1 as [H1 Hq]. exists v1. cbn [map hd fst].
  split; [exact H1|exact Hq].
Qed.

Lemma NoDup_keys_value {V} (d : list (string * V)) k v v' :
  List.NoDup (map fst d) -> In (k, v) d -> In (k, v') d -> v = v'.
Proof.
  induction d as [|[k0 v0] d IH]; simpl; intros Hnd H1 H2; [destruct H1|].
  inversion Hnd as [|? ? Hnotin Hnd']; subst.
  destruct H1 as [H1|H1], H2 as [H2|H2].
  - congruence.
  - injection H1 as -> ->. exfalso. apply Hnotin.
    apply in_map_iff. exists (k, v'). auto.
  - injection H2 as -> ->. exfalso. apply Hnotin.
    apply in_map_iff. exists (k, v). auto.
  - eapply IH; eauto.
Qed.

(** *** One token *)

(** A NaN among the two extremes gives a NaN percentage, which is not
    above the threshold. *)
Lemma nan_is_not_reported (mn mx spread ratio pct : dec) :
  mn = NaN \/ mx = NaN ->
  Dec.subtract mx mn = Ok spread ->
  Dec.divide spread mn = Ok ratio ->
  Dec.multiply ratio (Finite (of_int 100)) = Ok pct ->
  (0.1 <? float_of_decimal pct)%float = false.
Proof.
  intros Hnan Hs Hd Hm.
  assert (spread = NaN) as ->.
  { destruct Hnan as [-> | ->]; [destruct mx|destruct mn]; cbn in Hs; congruence. }
  cbn in Hd. injection Hd as <-. cbn in Hm. injection Hm as <-. reflexivity.
Qed.

(** Equal extremes give a spread of zero, which is not reported. *)
Lemma zero_spread_is_not_reported (v mn mx spread ratio pct : dec) :
  Dec.equal v mn = true -> Dec.equal v mx = true ->
  Dec.subtract mx mn = Ok spread ->
  Dec.divide spread mn = Ok ratio ->
  Dec.multiply ratio (Finite (of_int 100)) = Ok pct ->
  (0.1 <? float_of_decimal pct)%float = false.
Proof.
  intros H1 H2 Hs Hd Hm.
  apply equal_finite in H1 as [(Hv & Hmn & E1)|(n1 & -> & ->)].
  - apply equal_finite in H2 as [(_ & Hmx & E2)|(n2 & -> & _)]; [|destruct Hv].
    rewrite (subtract_finite mx mn Hmx Hmn) in Hs. injection Hs as <-.
    assert (Dec.sub (finite_value mx) (finite_value mn) = 0) as Hz.
    { unfold Dec.sub. apply rnd_zero. rewrite <- E1, <- E2. ring. }
    rewrite Hz in Hd. rewrite (divide_finite (Finite 0) mn I Hmn) in Hd.
    cbn [finite_value] in Hd. unfold Dec.div in Hd.
    destruct (Qeq_bool (finite_value mn) 0); cbn [mbind result_bind] in Hd;
      [discriminate|].
    injection Hd as <-.
    rewrite (rnd_zero (0 / finite_value mn)) in Hm by (unfold Qdiv; ring).
    cbn in Hm. injection Hm as <-. reflexivity.
  - apply equal_finite in H2 as [([] & _)|(n2 & Hn & ->)].
    injection Hn as <-. cbn in Hs. rewrite Bool.eqb_reflx in Hs. discriminate.
Qed.

Lemma analyze_token_ok token price_list o :
  analyze_token token price_list = Ok (Some o) ->
  exists pd_buy pd_sell,
    Spread.token o = token
    /\ In pd_buy price_list /\ In pd_sell price_list
    /\ chain pd_buy <> "reference"%string /\ chain pd_sell <> "reference"%string
    /\ Spread.buy_on o = venue_key pd_buy
    /\ Spread.sell_on o = venue_key pd_sell
    /\ Spread.buy_on o <> Spread.sell_on o
    /\ (0.1 <? Spread.spread_pct o)%float = true.
Proof.
  unfold analyze_token. intros H.
  destruct (length price_list <? 2)%nat; [discriminate|].
  destruct (chain_prices_of_spec price_list) as [Hnd Hall].
  set (cp := chain_prices_of price_list) in *.
  destruct (length cp <? 2)%nat; [discriminate|].
  destruct (values cp) as [|p prices] eqn:Ev; [discriminate|].
  destruct (py_min p prices) as [mn|] eqn:Emin; cbn [mbind result_bind] in H;
    [|discriminate].
  destruct (py_max p prices) as [mx|] eqn:Emax; cbn [mbind result_bind] in H;
    [|discriminate].
  destruct (Dec.subtract mx mn) as [spread|] eqn:Es; cbn [mbind result_bind] in H;
    [|discriminate].
  destruct (Dec.divide spread mn) as [ratio|] eqn:Ed; cbn [mbind result_bind] in H;
    [|discriminate].
  destruct (Dec.multiply ratio (Finite (of_int 100))) as [pct|] eqn:Em;
    cbn [mbind result_bind] in H; [|discriminate].
  cbv zeta in H.
  destruct (0.1 <? float_of_decimal pct)%float eqn:Et; [|discriminate].
  injection H as <-. cbn [Spread.token Spread.buy_on Spread.sell_on Spread.spread_pct].
  assert (mn <> NaN) as Hmn.
  { intros Hn.
    rewrite (nan_is_not_reported mn mx spread ratio pct (or_introl Hn) Es Ed Em) in Et.
    discriminate. }
  assert (mx <> NaN) as Hmx.
  { intros Hn.
    rewrite (nan_is_not_reported mn mx spread ratio pct (or_intror Hn) Es Ed Em) in Et.
    discriminate. }
  apply py_min_In in Emin. apply py_max_In in Emax. rewrite <- Ev in Emin, Emax.
  destruct (first_key_In cp mn Emin Hmn) as (v1 & Hk1 & Hv1).
  destruct (first_key_In cp mx Emax Hmx) as (v2 & Hk2 & Hv2).
  rewrite List.Forall_forall in Hall.
  destruct (Hall _ Hk1) as (pd1 & Hin1 & Hc1 & Hkv1).
  destruct (Hall _ Hk2) as (pd2 & Hin2 & Hc2 & Hkv2).
  injection Hkv1 as Hkey1 Hp1. injection Hkv2 as Hkey2 Hp2.
  exists pd1, pd2. repeat (split; [assumption || reflexivity|]).
  split; [|exact Et].
  intros Heq. rewrite Heq in Hk1.
  pose proof (NoDup_keys_value cp _ _ _ Hnd Hk1 Hk2) as Hv. rewrite <- Hv in Hv2.
  rewrite (zero_spread_is_not_reported v1 mn mx spread ratio pct Hv1 Hv2 Es Ed Em) in Et.
  discriminate.
Qed.

Lemma analyze_token_raises token price_list e :
  analyze_token token price_list = Raise e -> e = InvalidOperation.
Proof.
  unfold analyze_token. intros H.
  destruct (length price_list <? 2)%nat; [discriminate|].
  destruct (length (chain_prices_of price_list) <? 2)%nat; [discriminate|].
  destruct (values (chain_prices_of price_list)) as [|p prices]; [discriminate|].
  destruct (py_min p prices) as [mn|] eqn:Emin; cbn [mbind result_bind] in H;
    [|injection H as <-; eapply py_min_raises; exact Emin].
  destruct (py_max p prices) as [mx|] eqn:Emax; cbn [mbind result_bind] in H;
    [|injection H as <-; eapply py_max_raises; exact Emax].
  destruct (Dec.subtract mx mn) as [spread|] eqn:Es; cbn [mbind result_bind] in H;
    [|injection H as <-; eapply subtract_raises; exact Es].
  destruct (Dec.divide spread mn) as [ratio|] eqn:Ed; cbn [mbind result_bind] in H;
    [|injection H as <-; eapply divide_raises; exact Ed].
  destruct (Dec.multiply ratio (Finite (of_int 100))) as [pct|] eqn:Em;
    cbn [mbind result_bind] in H;
    [|injection H as <-; eapply multiply_raises; exact Em].
  cbv zeta in H. destruct (0.1 <? _)%float; discriminate.
Qed.

Lemma chain_prices_of_length price_list :
  (length (chain_prices_of price_list) <= length price_list)%nat.
Proof.
  unfold chain_prices_of.
  assert (forall l d, (length (foldl (fun chain_prices price_data =>
                           if negb (String.eqb (chain price_data) "reference") then
                             dict_set chain_prices
                               (source price_data +:+ "_" +:+ chain price_data)%string
                               (price price_data)
                           else chain_prices) d l)
                       <= length d + length l)%nat) as Hl.
  { induction l as [|pd l IH]; intros d; simpl; [lia|].
    etransitivity; [apply IH|].
    destruct (negb _); [|lia].
    assert (forall (d : list (string * dec)) k v,
               (length (dict_set d k v) <= S (length d))%nat) as Hs.
    { clear. induction d as [|[k0 v0] d IHd]; intros k v; simpl; [lia|].
      destruct (String.eqb k0 k); simpl; [lia|]. specialize (IHd k v). lia. }
    specialize (Hs d (source pd +:+ "_" +:+ chain pd)%string (price pd)). lia. }
  specialize (Hl price_list []). simpl in Hl. lia.
Qed.

Lemma analyze_token_zero token price_list :
  (2 <= length (chain_prices_of price_list))%nat ->
  Forall (fun kv => finite_nonneg kv.2) (chain_prices_of price_list) ->
  Exists (fun kv => zero_price kv.2) (chain_prices_of price_list) ->
  analyze_token token price_list = Raise InvalidOperation.
Proof.
  intros Hlen Hpos Hzero. unfold analyze_token.
  pose proof (chain_prices_of_length price_list) as Hlen'.
  assert (2 <= length price_list)%nat as Hlen'' by lia.
  apply Nat.ltb_ge in Hlen, Hlen''. rewrite Hlen'', Hlen.
  assert (Forall finite_nonneg (values (chain_prices_of price_list))) as Hvals.
  { unfold values. apply List.Forall_forall. intros v Hv.
    apply in_map_iff in Hv as [[k v'] [<- Hin]].
    rewrite List.Forall_forall in Hpos. apply (Hpos (k, v')). exact Hin. }
  assert (exists z, In z (values (chain_prices_of price_list)) /\ zero_price z)
    as (z & Hz & Hzz).
  { apply List.Exists_exists in Hzero as [[k v] [Hin Hv]].
    exists v. split; [|exact Hv]. unfold values. apply in_map_iff. exists (k, v). auto. }
  destruct (values (chain_prices_of price_list)) as [|p prices]; [destruct Hz|].
  assert (Forall finite (p :: prices)) as Hfin.
  { eapply List.Forall_impl; [|exact Hvals]. intros d [Hd _]. exact Hd. }
  inversion Hfin as [|? ? Hp Hrest]; subst.
  destruct (py_min_finite prices p Hp Hrest) as (mn & Emin & Hmn & Hmin).
  pose proof (py_min_In prices p mn Emin) as Hin. rewrite Emin.
  destruct (py_max_finite prices p Hp Hrest) as (mx & -> & Hmx).
  cbn [mbind result_bind].
  rewrite (subtract_finite mx mn Hmx Hmn). cbn [mbind result_bind].
  rewrite (divide_finite (Finite (Dec.sub (finite_value mx) (finite_value mn))) mn
             I Hmn).
  cbn [finite_value].
  assert (finite_value mn == 0) as Hzero'.
  { apply Qle_antisym.
    - destruct Hzz as [_ Hzv]. rewrite <- Hzv. apply Hmin. exact Hz.
    - rewrite List.Forall_forall in Hvals. apply (Hvals mn). exact Hin. }
  unfold Dec.div. apply Qeq_bool_iff in Hzero'. rewrite Hzero'. reflexivity.
Qed.

(** *** All tokens *)

Lemma analyze_groups_ok all_prices :
  forall (P : Spread -> Prop) opportunities out,
    (forall token price_list o,
        In (token, price_list) all_prices ->
        analyze_token token price_list = Ok (Some o) -> P o) ->
    analyze_groups all_prices opportunities = Ok out ->
    Forall P opportunities -> Forall P out.
Proof.
  induction all_prices as [|[token price_list] rest IH];
    intros P opportunities out HP H Hacc; simpl in H.
  - injection H as <-. exact Hacc.
  - destruct (analyze_token token price_list) as [r|] eqn:E;
      cbn [mbind result_bind] in H; [|discriminate].
    eapply IH; [|exact H|].
    + intros t pl o Hin. apply HP. right. exact Hin.
    + destruct r as [o|]; [|exact Hacc].
      apply Forall_app. split; [exact Hacc|]. constructor; [|constructor].
      eapply HP; [left; reflexivity|exact E].
Qed.

Lemma analyze_groups_raises all_prices :
  forall opportunities e,
    analyze_groups all_prices opportunities = Raise e -> e = InvalidOperation.
Proof.
  induction all_prices as [|[token price_list] rest IH]; intros opportunities e H;
    simpl in H; [discriminate|].
  destruct (analyze_token token price_list) as [r|e1] eqn:E;
    cbn [mbind result_bind] in H.
  - eapply IH. exact H.
  - apply analyze_token_raises in E. congruence.
Qed.

Lemma analyze_groups_abort all_prices token price_list :
  In (token, price_list) all_prices ->
  analyze_token token price_list = Raise InvalidOperation ->
  forall opportunities,
    analyze_groups all_prices opportunities = Raise InvalidOperation.
Proof.
  intros Hin Hraise. induction all_prices as [|[t pl] rest IH]; intros opportunities;
    [destruct Hin|]. simpl.
  destruct (analyze_token t pl) as [r|e1] eqn:E; cbn [mbind result_bind].
  - destruct Hin as [Hin|Hin]; [injection Hin as -> ->; congruence|].
    apply IH. exact Hin.
  - apply analyze_token_raises in E. congruence.
Qed.

Lemma insert_desc_In o l x : In x (insert_desc o l) -> x = o \/ In x l.
Proof.
  induction l as [|y l IH]; simpl.
  - intros [<-|[]]. auto.
  - destruct (Spread.spread_pct o <? Spread.spread_pct y)%float; simpl.
    + intros [<-|H]; [auto|]. apply IH in H as [H|H]; auto.
    + intros [<-|[<-|H]]; auto.
Qed.

Lemma sorted_desc_In l x : In x (sorted_desc l) -> In x l.
Proof.
  unfold sorted_desc. induction l as [|o l IH]; simpl; [auto|].
  intros H. apply insert_desc_In in H as [->|H]; auto.
Qed.

(** X16: every opportunity the collector's own analysis reports joins two
    different venues of one token, neither of them a reference venue
    (Binance or Bybit), and has a spread above 0.1%: a token quoted by
    centralized venues only, or by a single other venue, is never
    reported. *)
Theorem spreads_join_two_venues (all_prices : list (string * list PriceData))
  (opportunities : list Spread) :
  analyze_arbitrage_opportunities all_prices = Ok opportunities ->
  Forall (spread_ok all_prices) opportunities.
Proof.
  unfold analyze_arbitrage_opportunities. intros H.
  destruct (analyze_groups all_prices []) as [opps|] eqn:E;
    cbn [mbind result_bind] in H; [|discriminate].
  injection H as <-.
  apply List.Forall_forall. intros o Ho. apply sorted_desc_In in Ho.
  assert (Forall (spread_ok all_prices) opps) as Hall.
  { eapply analyze_groups_ok; [|exact E|constructor].
    intros token price_list o' Hin Ho'.
    apply analyze_token_ok in Ho' as (pd_buy & pd_sell & <- & Hrest).
    exists price_list, pd_buy, pd_sell. split; [exact Hin|exact Hrest]. }
  rewrite List.Forall_forall in Hall. apply Hall. exact Ho.
Qed.

(** X17: a price of zero at one venue makes the whole analysis raise: when
    a token has two venues or more outside the reference venues, all of
    them at finite prices, none negative and one zero, the spread is
    divided by a minimum of zero, and no opportunity of any token is
    returned. *)
Theorem zero_price_aborts_spread_analysis
  (all_prices : list (string * list PriceData)) (token : string)
  (price_list : list PriceData) :
  In (token, price_list) all_prices ->
  (2 <= length (chain_prices_of price_list))%nat ->
  Forall (fun kv => finite_nonneg kv.2) (chain_prices_of price_list) ->
  Exists (fun kv => zero_price kv.2) (chain_prices_of price_list) ->
  analyze_arbitrage_opportunities all_prices = Raise InvalidOperation.
Proof.
  intros Hin Hlen Hpos Hzero. unfold analyze_arbitrage_opportunities.
  rewrite (analyze_groups_abort all_prices token price_list Hin); [reflexivity|].
  apply analyze_token_zero; assumption.
Qed.

End ArbitrageFacts.

Module PassFacts.
Import Collector Dec Spec PoolFacts AggregatorFacts AdapterFacts CacheFacts PerpetualFacts.
Import AnalyzerTerms CollectorTerms.
Import Arbitrage DriverFacts.

(** *** A pass over the pools *)

Lemma fetch_uniswap_price_from_pool self env cache chain_name token_symbol cache' pd :
  fetch_uniswap_price self env cache chain_name token_symbol = (cache', Ok (Some pd)) ->
  from_pool self cache' pd
  /\ chain pd = chain_name /\ token pd = token_symbol.
Proof.
  unfold fetch_uniswap_price, from_pool. intros H.
  destruct (as_map (tokens self) !! token_symbol) as [tc|] eqn:Ht; [|discriminate].
  destruct (bool_decide (chain_name ∈ web3_instances self)) eqn:Hw;
    cbn [negb] in H; [|discriminate].
  apply bool_decide_eq_true in Hw.
  destruct (as_map (chains self) !! chain_name) as [config|] eqn:Hc; [|discriminate].
  destruct (as_map (chain_tokens config) !! token_symbol) as [token_address|] eqn:Ha;
    [|discriminate].
  destruct (cache !! (chain_name +:+ "_" +:+ token_symbol)%string) as [pool_info|] eqn:Hk.
  - injection H as <- H. apply read_pool_some in H
      as (raw & f & p & _ & _ & _ & _ & _ & _ & Hsrc & Hch & Htok & _).
    rewrite Hch, Htok, Ht, Hk. repeat split; eauto.
  - destruct (_get_pool_address_cached env cache chain_name config token_address _)
      as [[pool|] [fee|]]; try discriminate.
    destruct (String.eqb pool ""); [discriminate|].
    injection H as <- H. apply read_pool_some in H
      as (raw & f & p & _ & _ & _ & _ & _ & _ & Hsrc & Hch & Htok & _).
    rewrite Hch, Htok, Ht, lookup_insert_eq. repeat split; eauto.
Qed.

Lemma from_pool_grows self cache cache' pd :
  cache ⊆ cache' -> from_pool self cache pd -> from_pool self cache' pd.
Proof.
  intros Hsub (H1 & H2 & H3 & H4 & [entry H5]). repeat split; try assumption.
  exists entry. eapply lookup_weaken; eauto.
Qed.

Lemma dex_loop_from_pool self env tasks :
  forall cache acc,
    Forall (from_pool self cache) acc ->
    exists found,
      (dex_loop self env tasks cache acc).2 = acc ++ found
      /\ Forall (from_pool self (dex_loop self env tasks cache acc).1) (acc ++ found)
      /\ sublist (map (fun pd => (chain pd, token pd)) found) tasks.
Proof.
  induction tasks as [|[chain_name token_symbol] rest IH]; intros cache acc Hacc; simpl.
  - exists []. rewrite app_nil_r. split; [reflexivity|]. split; [exact Hacc|constructor].
  - pose proof (fetch_uniswap_price_grows self env cache chain_name token_symbol) as Hg.
    destruct (fetch_uniswap_price self env cache chain_name token_symbol)
      as [cache' r] eqn:E. cbn [fst] in Hg.
    assert (Forall (from_pool self cache') acc) as Hacc'.
    { eapply List.Forall_impl; [|exact Hacc]. intros pd. apply from_pool_grows. exact Hg. }
    destruct r as [[pd|]|e].
    + apply fetch_uniswap_price_from_pool in E as (Hpd & Hc & Ht).
      destruct (IH cache' (acc ++ [pd])) as (found & Hr & Hall & Hsub).
      { apply Forall_app. split; [exact Hacc'|]. constructor; [exact Hpd|constructor]. }
      exists (pd :: found). rewrite Hr, <- app_assoc. split; [reflexivity|].
      split; [rewrite <- app_assoc in Hall; exact Hall|].
      cbn [map]. rewrite Hc, Ht. apply sublist_skip. exact Hsub.
    + destruct (IH cache' acc Hacc') as (found & Hr & Hall & Hsub).
      exists found. split; [exact Hr|]. split; [exact Hall|].
      apply sublist_cons. exact Hsub.
    + destruct (IH cache' acc Hacc') as (found & Hr & Hall & Hsub).
      exists found. split; [exact Hr|]. split; [exact Hall|].
      apply sublist_cons. exact Hsub.
Qed.

(** X18: a pass over the pools returns observations of configured tokens on
    connected chains only, one at most for each pair of a configured
    chain and a token, in the order of the pairs; and the pool of every
    observation returned is in the cache when the pass ends. *)
Theorem pool_pass_covers_connected_chains (self : UnifiedPriceSystem) (env : Env)
  (cache : gmap string PoolCacheEntry) :
  let '(cache', dex_prices) := get_dex_prices self env cache in
  Forall (from_pool self cache') dex_prices
  /\ sublist (map (fun pd => (chain pd, token pd)) dex_prices) (dex_tasks self)
  /\ (length dex_prices <= length (chains self) * length (tokens self))%nat.
Proof.
  unfold get_dex_prices.
  destruct (dex_loop_from_pool self env (dex_tasks self) cache [] (Forall_nil_2 _))
    as (found & Hr & Hall & Hsub).
  destruct (dex_loop self env (dex_tasks self) cache []) as [cache' dex_prices].
  cbn [fst snd app] in *. subst found.
  split; [exact Hall|]. split; [exact Hsub|].
  apply sublist_length in Hsub. rewrite length_map in Hsub.
  etransitivity; [exact Hsub|]. unfold dex_tasks, keys.
  rewrite <- (length_map fst (chains self)), <- (length_map fst (tokens self)).
  generalize (map fst (tokens self)) as ts. generalize (map fst (chains self)) as cs.
  clear. intros cs ts. induction cs as [|c cs IH]; cbn [mbind list_bind]; [simpl; lia|].
  cbn. rewrite length_app.
  assert (length (t ← ts; [(c, t)]) = length ts) as ->.
  { clear. induction ts as [|t ts IH]; [reflexivity|]. cbn. f_equal. exact IH. }
  cbn in IH. lia.
Qed.

(** *** The waiting of the Binance adapter *)

Lemma binance_attempts_sleep self env :
  forall attempts slept,
    (total_sleep (binance_attempts self env attempts slept).2
     <= total_sleep slept + 6
        + total_sleep (map (fun attempt => inject_Z (2 ^ Z.of_nat attempt)) attempts))%Q.
Proof.
  induction attempts as [|attempt rest IH]; intros slept; cbn [binance_attempts].
  - pose proof (binance_fallback_sleep self env) as Hf.
    destruct (_fetch_binance_individual self env) as [r s]. cbn [snd] in *.
    rewrite total_sleep_app. cbn [map total_sleep fold_right]. lra.
  - cbn [map]. change (total_sleep (?x :: ?l)) with (x + total_sleep l)%Q.
    assert (1 <= inject_Z (2 ^ Z.of_nat attempt))%Q as Hpow.
    { change 1%Q with (inject_Z 1). rewrite <- Zle_Qle.
      pose proof (Z.pow_pos_nonneg 2 (Z.of_nat attempt)). lia. }
    assert (forall s,
               (total_sleep s <= inject_Z (2 ^ Z.of_nat attempt))%Q ->
               (total_sleep (binance_attempts self env rest (slept ++ s)).2
                <= total_sleep slept + 6
                   + (inject_Z (2 ^ Z.of_nat attempt)
                      + total_sleep (map (fun attempt => inject_Z (2 ^ Z.of_nat attempt))
                                         rest)))%Q) as Hstep.
    { intros s Hs. eapply Qle_trans; [apply IH|]. rewrite total_sleep_app. lra. }
    assert (total_sleep (if (attempt <? max_retries - 1)%nat then [1%Q] else [])
            <= inject_Z (2 ^ Z.of_nat attempt))%Q as Hexc.
    { destruct (attempt <? max_retries - 1)%nat; cbn; lra. }
    destruct (binance_bulk env attempt) as [e|status body]; [apply Hstep; exact Hexc|].
    destruct (status =? 200).
    + destruct (body ≫= _) as [results|e]; [|apply Hstep; exact Hexc].
      cbn [snd]. pose proof (total_sleep_nonneg
                    (map (fun attempt => inject_Z (2 ^ Z.of_nat attempt)) rest)
                    ltac:(apply List.Forall_forall; intros x Hx;
                          apply in_map_iff in Hx as [a [<- _]];
                          change 0%Q with (inject_Z 0); rewrite <- Zle_Qle;
                          apply Z.pow_nonneg; lia)).
      lra.
    + destruct (status =? 429).
      * apply Hstep. cbn. lra.
      * specialize (Hstep []). rewrite app_nil_r in Hstep. apply Hstep. cbn. lra.
Qed.

(** X19: whatever Binance answers, the adapter sleeps 13 seconds at most:
    1, 2 and 4 seconds after the three attempts at the most, and 6
    seconds in the fallback. *)
Theorem binance_adapter_waits_at_most_13_seconds (self : UnifiedPriceSystem) (env : Env) :
  (total_sleep (fetch_all_binance_prices self env).2 <= 13)%Q.
Proof.
  unfold fetch_all_binance_prices.
  eapply Qle_trans; [apply binance_attempts_sleep|]. vm_compute. discriminate.
Qed.

End PassFacts.

Module GroupFacts.
Import Collector Dec Spec PoolFacts AggregatorFacts Py Arbitrage DriverFacts.
Import AnalyzerTerms CollectorTerms.

(** *** The grouped dict, in insertion order *)

Lemma unique_snoc l x :
  unique (l ++ [x]) = unique l ++ (if existsb (String.eqb x) l then [] else [x]).
Proof.
  induction l as [|y l IH]; [reflexivity|].
  cbn [app unique existsb]. rewrite IH, List.filter_app.
  f_equal. f_equal.
  destruct (existsb (String.eqb x) l); [rewrite orb_true_r; reflexivity|].
  rewrite orb_false_r. cbn [List.filter]. rewrite (String.eqb_sym y x).
  destruct (String.eqb x y); reflexivity.
Qed.

Lemma existsb_unique k l :
  existsb (String.eqb k) (unique l) = existsb (String.eqb k) l.
Proof.
  destruct (existsb (String.eqb k) l) eqn:E.
  - apply existsb_exists in E as [x [Hin Hx]]. apply existsb_exists.
    exists x. split; [apply (proj1 (unique_In _ _)); exact Hin|exact Hx].
  - destruct (existsb (String.eqb k) (unique l)) eqn:E'; [|reflexivity].
    apply existsb_exists in E' as [x [Hin Hx]].
    assert (existsb (String.eqb k) l = true) as Ht.
    { apply existsb_exists. exists x. split; [apply unique_In; exact Hin|exact Hx]. }
    congruence.
Qed.

Lemma dict_append_map {V} (G : string -> list V) (k : string) (v : V) :
  forall ks, List.NoDup ks ->
    dict_append (map (fun t => (t, G t)) ks) k v
    = map (fun t => (t, G t ++ if String.eqb t k then [v] else [])) ks
      ++ (if existsb (String.eqb k) ks then [] else [(k, [v])]).
Proof.
  induction ks as [|t ks IH]; intros Hnd; [reflexivity|].
  inversion Hnd as [|? ? Hnotin Hnd']; subst.
  cbn [map dict_append existsb]. rewrite (String.eqb_sym k t).
  destruct (String.eqb t k) eqn:E.
  - apply String.eqb_eq in E. subst t. cbn [orb app]. rewrite app_nil_r. f_equal.
    apply map_ext_in. intros t Ht.
    destruct (String.eqb t k) eqn:E'; [|rewrite app_nil_r; reflexivity].
    apply String.eqb_eq in E'. subst t. contradiction.
  - cbn [orb app]. rewrite app_nil_r, IH by exact Hnd'. reflexivity.
Qed.

Lemma filter_absent k (l : list PriceData) :
  existsb (String.eqb k) (map token l) = false ->
  List.filter (fun pd => String.eqb (token pd) k) l = [].
Proof.
  induction l as [|pd l IH]; [reflexivity|]. cbn [map existsb List.filter].
  intros H. apply orb_false_iff in H as [H1 H2].
  rewrite String.eqb_sym, H1. apply IH. exact H2.
Qed.

Lemma dict_append_grouped l x :
  dict_append (grouped l) (token x) x = grouped (l ++ [x]).
Proof.
  unfold grouped.
  rewrite (dict_append_map (fun t => List.filter (fun pd => String.eqb (token pd) t) l))
    by apply unique_NoDup.
  rewrite map_app. cbn [map]. rewrite unique_snoc, map_app, existsb_unique.
  f_equal.
  - apply map_ext. intros t. rewrite List.filter_app. cbn [List.filter].
    rewrite (String.eqb_sym t (token x)). reflexivity.
  - destruct (existsb (String.eqb (token x)) (map token l)) eqn:E; [reflexivity|].
    cbn [map]. rewrite List.filter_app, (filter_absent _ _ E). cbn [List.filter app].
    rewrite String.eqb_refl. reflexivity.
Qed.

Lemma group_items_grouped l : group_items l = grouped l.
Proof.
  unfold group_items. induction l as [|x l IH] using rev_ind; [reflexivity|].
  rewrite foldl_snoc, IH. apply dict_append_grouped.
Qed.

Lemma as_map_cons {V} (k : string) (v : V) (d : list (string * V)) :
  ~ In k (map fst d) -> as_map ((k, v) :: d) = <[k := v]> (as_map d).
Proof.
  unfold as_map. cbn [foldl fst snd]. generalize (∅ : gmap string V) as m.
  induction d as [|[k' v'] d IH]; intros m Hnotin; [reflexivity|].
  cbn [foldl fst snd map] in *.
  rewrite insert_insert_ne by (intros ->; apply Hnotin; left; reflexivity).
  apply IH. intros H. apply Hnotin. right. exact H.
Qed.

Lemma as_map_absent {V} (k : string) (d : list (string * V)) :
  ~ In k (map fst d) -> as_map d !! k = None.
Proof.
  intros Hnotin. destruct (as_map d !! k) as [v|] eqn:E; [|reflexivity].
  apply as_map_lookup_in in E. exfalso. apply Hnotin.
  apply in_map_iff. exists (k, v). split; [reflexivity|].
  apply list_elem_of_In. exact E.
Qed.

Lemma dict_append_keys {V} (d : list (string * list V)) k v k' :
  In k' (map fst (dict_append d k v)) <-> k' = k \/ In k' (map fst d).
Proof.
  induction d as [|[k0 l0] d IH]; simpl.
  - intuition congruence.
  - destruct (String.eqb k0 k) eqn:E; simpl.
    + apply String.eqb_eq in E. subst k0. intuition congruence.
    + rewrite IH. intuition congruence.
Qed.

Lemma as_map_dict_append {V} (d : list (string * list V)) k v :
  List.NoDup (map fst d) ->
  as_map (dict_append d k v) = <[k := default [] (as_map d !! k) ++ [v]]> (as_map d).
Proof.
  induction d as [|[k0 l0] d IH]; intros Hnd.
  - reflexivity.
  - inversion Hnd as [|? ? Hnotin Hnd']; subst. cbn [dict_append].
    rewrite (as_map_cons k0 l0 d Hnotin).
    destruct (String.eqb k0 k) eqn:E.
    + apply String.eqb_eq in E. subst k0.
      rewrite (as_map_cons k (l0 ++ [v]) d Hnotin), lookup_insert_eq.
      cbn [default]. rewrite insert_insert_eq. reflexivity.
    + assert (k0 <> k) as Hne by (apply String.eqb_neq; exact E).
      rewrite as_map_cons, IH by
        (try exact Hnd'; rewrite dict_append_keys; intros [?|?]; congruence).
      rewrite lookup_insert_ne by exact Hne.
      apply insert_insert_ne. congruence.
Qed.

(** X20: the dict of a collection pass.  Its entries are the tokens in the
    order they are first observed, each with all its observations and
    no other, in arrival order; read as a map, it is the grouped output
    of the aggregator. *)
Theorem grouped_dict_in_first_seen_order (all_prices_list : list PriceData) :
  group_items all_prices_list
  = map (fun t => (t, List.filter (fun pd => String.eqb (token pd) t) all_prices_list))
        (unique (map token all_prices_list))
  /\ List.NoDup (map fst (group_items all_prices_list))
  /\ as_map (group_items all_prices_list) = group_by_token all_prices_list.
Proof.
  split; [apply group_items_grouped|]. split.
  - rewrite group_items_grouped. unfold grouped. rewrite map_map. cbn [fst].
    rewrite map_id. apply unique_NoDup.
  - induction all_prices_list as [|x l IH] using rev_ind; [reflexivity|].
    unfold group_items, group_by_token in *. rewrite !foldl_snoc.
    rewrite as_map_dict_append, IH; [reflexivity|].
    fold (group_items l). rewrite group_items_grouped. unfold grouped.
    rewrite map_map. cbn [fst]. rewrite map_id. apply unique_NoDup.
Qed.

End GroupFacts.

Module LookupFacts.
Import Collector Dec Spec PoolFacts Py Analyzer Arbitrage GroupFacts.
Import AnalyzerTerms CollectorTerms.
Local Open Scope float_scope.

(** *** Symbol tables *)

Lemma as_map_In {V} (items : list (string * V)) k v :
  List.NoDup (map fst items) -> In (k, v) items -> as_map items !! k = Some v.
Proof.
  induction items as [|[k0 v0] d IH]; intros Hnd Hin; [destruct Hin|].
  inversion Hnd as [|? ? Hnotin Hnd']; subst.
  rewrite (as_map_cons k0 v0 d Hnotin). destruct Hin as [Hin|Hin].
  - injection Hin as -> ->. apply lookup_insert_eq.
  - rewrite lookup_insert_ne; [apply IH; assumption|].
    intros ->. apply Hnotin. apply in_map_iff. exists (k, v). auto.
Qed.

(** X21: the reversed symbol table takes a venue's symbol back to the token
    it was configured for: with no symbol configured twice, a symbol is
    found exactly when some token maps to it, and looking a token's
    symbol up gives the token back. *)
Theorem reversed_symbol_table_round_trip (items : list (string * string))
  (token_symbol venue_symbol : string) :
  List.NoDup (keys items) ->
  List.NoDup (values items) ->
  (reverse_dict items !! venue_symbol = Some token_symbol
   <-> In (token_symbol, venue_symbol) items)
  /\ (as_map items !! token_symbol = Some venue_symbol
      <-> reverse_dict items !! venue_symbol = Some token_symbol).
Proof.
  intros Hk Hv.
  assert (reverse_dict items !! venue_symbol = Some token_symbol
          <-> In (token_symbol, venue_symbol) items) as Hrev.
  { unfold reverse_dict. split.
    - intros H. apply as_map_lookup_in in H. apply list_elem_of_In in H.
      apply in_map_iff in H as [[k v] [Heq Hin]]. cbn in Heq. congruence.
    - intros Hin. apply as_map_In.
      + rewrite map_map. cbn [fst]. exact Hv.
      + apply in_map_iff. exists (token_symbol, venue_symbol). auto. }
  split; [exact Hrev|]. rewrite Hrev. split.
  - intros H. apply as_map_lookup_in in H. apply list_elem_of_In. exact H.
  - apply as_map_In. exact Hk.
Qed.

(** *** Logs without a hedge venue *)

Lemma scan_rows_none {A} (find : list Row -> string -> result (option A))
  token token_data time_window :
  (forall t, find (forward_window token_data t time_window) token = Ok None) ->
  forall anchors found,
    scan_rows find token token_data anchors time_window found = Ok found.
Proof.
  intros Hfind. induction anchors as [|row rest IH]; intros found; cbn [scan_rows];
    [reflexivity|].
  rewrite Hfind. cbn [mbind result_bind]. rewrite IH.
  destruct (2 <=? _)%nat; reflexivity.
Qed.

Lemma scan_tokens_none {A} (find : list Row -> string -> result (option A))
  df time_window :
  (forall token t,
      find (forward_window (rows_of_token df token) t time_window) token = Ok None) ->
  forall toks found, scan_tokens find df toks time_window found = Ok found.
Proof.
  intros Hfind. induction toks as [|token rest IH]; intros found; simpl; [reflexivity|].
  rewrite scan_rows_none by (intros t; apply Hfind).
  cbn [mbind result_bind]. apply IH.
Qed.

(** X22: the leveraged analysis needs "bybit" rows: of a log that has none,
    whatever its other venues quote, it returns no opportunity, and it
    does not raise. *)
Theorem log_without_bybit_has_no_leveraged_opportunity
  (sort_by_timestamp : list Row -> list Row) (csv : list Row) (time_window : Z) :
  (forall r, In r (sort_by_timestamp csv) -> In r csv) ->
  Forall (fun r => Row.source r <> "bybit"%string) csv ->
  analyze_leveraged_arbitrage sort_by_timestamp csv time_window
  = Ok (sort_by_timestamp csv, []).
Proof.
  intros Hsort Hno. unfold analyze_leveraged_arbitrage.
  rewrite scan_tokens_none; [reflexivity|].
  intros token t. unfold find_leveraged_opportunity.
  assert (List.filter (fun r => String.eqb (Row.source r) "bybit")
            (forward_window (rows_of_token (sort_by_timestamp csv) token) t time_window)
          = []) as ->; [|reflexivity].
  destruct (List.filter _ _) as [|r l] eqn:E; [reflexivity|]. exfalso.
  assert (In r (List.filter (fun r => String.eqb (Row.source r) "bybit")
                  (forward_window (rows_of_token (sort_by_timestamp csv) token) t
                     time_window))) as Hin by (rewrite E; left; reflexivity).
  apply filter_In in Hin as [Hin Hs]. apply String.eqb_eq in Hs.
  apply filter_In in Hin as [Hin _]. apply filter_In in Hin as [Hin _].
  rewrite List.Forall_forall in Hno. apply (Hno r); [apply Hsort; exact Hin|exact Hs].
Qed.

End LookupFacts.

Module FallbackFacts.
Import Collector Dec Spec PoolFacts AdapterFacts PerpetualFacts Fallback.
Import AnalyzerTerms CollectorTerms.

(** *** The per-instrument fallback of Bybit *)

Lemma fetch_bybit_price_record self env tok pd slept :
  fetch_bybit_price self env tok = (Ok (Some pd), slept) ->
  token pd = tok /\ source pd = "bybit"%string /\ chain pd = "reference"%string.
Proof.
  unfold fetch_bybit_price. intros H.
  destruct (as_map (tokens self) !! tok); [|discriminate].
  destruct (as_map (cex_symbols_bybit self) !! tok) as [sym|]; [|discriminate].
  destruct (bybit_single env sym) as [e|status body]; [discriminate|].
  destruct (status =? 200).
  - destruct body as [[rc rl]|e]; cbn in H; [|discriminate].
    destruct rc as [[|p|p]|]; try discriminate.
    destruct rl as [[[|tk tks]|]|]; try discriminate.
    destruct (bt_lastPrice tk) as [| |q]; cbn in H; try discriminate.
    injection H as <- _. auto.
  - destruct (status =? 429); discriminate.
Qed.

Lemma fetch_bybit_price_sleep self env tok :
  (total_sleep (fetch_bybit_price self env tok).2 <= 2)%Q.
Proof.
  unfold fetch_bybit_price.
  destruct (as_map (tokens self) !! tok); [|discriminate].
  destruct (as_map (cex_symbols_bybit self) !! tok) as [sym|]; [|discriminate].
  destruct (bybit_single env sym) as [e|status body]; [discriminate|].
  destruct (status =? 200); [discriminate|].
  destruct (status =? 429); discriminate.
Qed.

Lemma bybit_individual_loop_spec self env toks :
  forall results slept,
    exists found,
      (bybit_individual_loop self env toks results slept).1 = results ++ found
      /\ sublist (map token found) toks
      /\ (total_sleep (bybit_individual_loop self env toks results slept).2
          <= total_sleep slept + 2 * inject_Z (Z.of_nat (length toks)))%Q.
Proof.
  induction toks as [|tok rest IH]; intros results slept.
  - exists []. simpl. rewrite app_nil_r. split; [reflexivity|].
    split; [constructor|]. ring_simplify. apply Qle_refl.
  - cbn [bybit_individual_loop].
    pose proof (fetch_bybit_price_sleep self env tok) as Hs.
    destruct (fetch_bybit_price self env tok) as [r s] eqn:E. cbn [snd] in Hs.
    assert (inject_Z (Z.of_nat (length (tok :: rest)))
            == 1 + inject_Z (Z.of_nat (length rest)))%Q as Hlen.
    { cbn [length]. rewrite Nat2Z.inj_succ, <- Z.add_1_l, inject_Z_plus. reflexivity. }
    destruct r as [[pd|]|e].
    + destruct (IH (results ++ [pd]) (slept ++ s)) as (found & Hr & Hsub & Hsl).
      apply fetch_bybit_price_record in E as (Htok & _).
      exists (pd :: found). split; [rewrite Hr, <- app_assoc; reflexivity|].
      split; [cbn [map]; rewrite Htok; apply sublist_skip; exact Hsub|].
      rewrite total_sleep_app in Hsl. rewrite Hlen. lra.
    + destruct (IH results (slept ++ s)) as (found & Hr & Hsub & Hsl).
      exists found. split; [exact Hr|]. split; [apply sublist_cons; exact Hsub|].
      rewrite total_sleep_app in Hsl. rewrite Hlen. lra.
    + destruct (IH results (slept ++ s)) as (found & Hr & Hsub & Hsl).
      exists found. split; [exact Hr|]. split; [apply sublist_cons; exact Hsub|].
      rewrite total_sleep_app in Hsl. rewrite Hlen. lra.
Qed.

(** X23: the per-instrument fallback of Bybit returns observations for a
    subsequence of the first five configured tokens and sleeps ten
    seconds at most.  Unlike the adapter in use, it does not compare the
    symbol of the record it is sent with the symbol it asked for: it
    prices the token from the first record of the reply, where the
    adapter drops a record of another symbol. *)
Theorem bybit_fallback_trusts_first_record (self : UnifiedPriceSystem) (env : Env) :
  sublist (map token (_fetch_bybit_individual self env).1)
          (firstn 5 (keys (tokens self)))
  /\ (total_sleep (_fetch_bybit_individual self env).2 <= 10)%Q
  /\ (forall tok tc sym t ts q,
         as_map (tokens self) !! tok = Some tc ->
         as_map (cex_symbols_bybit self) !! tok = Some sym ->
         bybit_single env sym
         = HttpResponse 200 (Ok {| retCode := Some 0;
                                   result_list := Some (Some (t :: ts)) |}) ->
         bt_lastPrice t = Present q ->
         (fetch_bybit_price self env tok).1 = Ok (Some (bybit_record env tok q))
         /\ (bt_symbol t <> Some sym -> fetch_single_bybit self env sym = None)).
Proof.
  split; [|split].
  - unfold _fetch_bybit_individual.
    destruct (bybit_individual_loop_spec self env (firstn 5 (keys (tokens self))) [] [])
      as (found & Hr & Hsub & _).
    rewrite Hr. exact Hsub.
  - unfold _fetch_bybit_individual.
    destruct (bybit_individual_loop_spec self env (firstn 5 (keys (tokens self))) [] [])
      as (found & _ & _ & Hsl).
    pose proof (firstn_le_length 5 (keys (tokens self))) as H5.
    assert (inject_Z (Z.of_nat (length (firstn 5 (keys (tokens self))))) <= 5)%Q as Hq.
    { change 5%Q with (inject_Z 5). rewrite <- Zle_Qle. lia. }
    change (total_sleep []) with 0%Q in Hsl. lra.
  - intros tok tc sym t ts q Htok Hsym Hreply Hprice. split.
    + unfold fetch_bybit_price. rewrite Htok, Hsym, Hreply. cbn. rewrite Hprice.
      reflexivity.
    + intros Hne. unfold fetch_single_bybit, bybit_try. rewrite Hreply. cbn.
      destruct (bt_symbol t) as [s|]; [|reflexivity].
      destruct (String.eqb s sym) eqn:E; [|reflexivity].
      apply String.eqb_eq in E. congruence.
Qed.

End FallbackFacts.

(** ** Further scenarios *)

Module AnalyzerScenarios.
Import Py Analyzer Spec Inputs Samples SchedulerFacts.
Import AnalyzerTerms CollectorTerms.
Import SelectionFacts WindowFacts DriverFacts AbortFacts SpreadFacts LookupFacts.
Local Open Scope float_scope.

Lemma insert_by_profit_In t l x : In x (insert_by_profit t l) -> x = t \/ In x l.
Proof.
  induction l as [|y l IH]; simpl.
  - intros [<-|[]]. auto.
  - destruct (profit_gtb y t); simpl.
    + intros [<-|H]; [auto|]. apply IH in H as [H|H]; auto.
    + intros [<-|[<-|H]]; auto.
Qed.

Lemma isort_by_profit_desc_In l x : In x (isort_by_profit_desc l) -> In x l.
Proof.
  unfold isort_by_profit_desc. induction l as [|t l IH]; simpl; [auto|].
  intros H. apply insert_by_profit_In in H as [->|H]; auto.
Qed.

Lemma insert_by_timestamp_In r l x : In x (insert_by_timestamp r l) -> x = r \/ In x l.
Proof.
  induction l as [|y l IH]; simpl.
  - intros [<-|[]]. auto.
  - destruct (Row.timestamp r <=? Row.timestamp y)%Z; simpl.
    + intros [<-|[<-|H]]; auto.
    + intros [<-|H]; [auto|]. apply IH in H as [H|H]; auto.
Qed.

Lemma isort_by_timestamp_In l x : In x (isort_by_timestamp l) -> In x l.
Proof.
  unfold isort_by_timestamp. induction l as [|r l IH]; simpl; [auto|].
  intros H. apply insert_by_timestamp_In in H as [->|H]; auto.
Qed.

Lemma selection_is_maximal_witness :
  Permutation [c30; c50; c40] (isort_by_profit_desc [c30; c50; c40])
  /\ (In c40 (filter_non_overlapping_trades isort_by_profit_desc [c30; c50; c40] 30)
      \/ exists a,
           In a (filter_non_overlapping_trades isort_by_profit_desc [c30; c50; c40] 30)
           /\ overlap (interval 30 c40) (interval 30 a)).
Proof.
  split; [vm_compute; apply Permutation_cons_append|].
  apply (proj1 (proj2 (selection_is_maximal isort_by_profit_desc [c30; c50; c40] 30
                         ltac:(vm_compute; apply Permutation_cons_append)))
           c40).
  right. right. left. reflexivity.
Defined.

Lemma profit_potential_trades_witness :
  length (calculate_profit_potential isort_by_profit_desc three_candidates 1000) = 1%nat
  /\ Forall (trade_ok three_candidates 1000)
            (calculate_profit_potential isort_by_profit_desc three_candidates 1000).
Proof.
  split; [vm_compute; reflexivity|].
  apply (proj1 (profit_potential_trades isort_by_profit_desc three_candidates 1000
                  isort_by_profit_desc_In)).
Defined.

Lemma analyses_return_at_most_one_record_per_row_witness :
  exists df found,
    analyze_leveraged_arbitrage isort_by_timestamp lone_weth_csv 30 = Ok (df, found)
    /\ length found = 1%nat
    /\ (length found <= length lone_weth_csv)%nat
    /\ records_of Opportunity.token "WETH" found = [].
Proof.
  eexists. eexists. split; [vm_compute; reflexivity|]. split; [reflexivity|].
  edestruct (proj1 (analyses_return_at_most_one_record_per_row isort_by_timestamp
                      lone_weth_csv 30 ltac:(vm_compute; apply Permutation_refl)))
    as [Hlen Htoken]; [vm_compute; reflexivity|].
  split; [exact Hlen|]. apply (proj2 (Htoken "WETH"%string)). vm_compute. lia.
Defined.

Lemma leveraged_opportunities_within_window_witness :
  exists df found,
    analyze_leveraged_arbitrage isort_by_timestamp hedge_csv 30 = Ok (df, found)
    /\ length found = 1%nat
    /\ Forall (leveraged_ok 30) found.
Proof.
  eexists. eexists. split; [vm_compute; reflexivity|]. split; [reflexivity|].
  eapply (leveraged_opportunities_within_window isort_by_timestamp hedge_csv 30).
  vm_compute. reflexivity.
Defined.

Lemma complete_cycles_cross_venue_witness :
  exists df found,
    analyze_complete_arbitrage_cycle isort_by_timestamp arbitrum_base_window 30
    = Ok (df, found)
    /\ length found = 1%nat
    /\ Forall (cycle_ok 30) found.
Proof.
  eexists. eexists. split; [vm_compute; reflexivity|]. split; [reflexivity|].
  eapply (complete_cycles_cross_venue isort_by_timestamp arbitrum_base_window 30).
  vm_compute. reflexivity.
Defined.

Lemma zero_price_aborts_leveraged_analysis_witness :
  main isort_by_timestamp (fun _ => Some zero_quote_csv) (args_with 500)
  = ErrorReport ZeroDivisionError.
Proof.
  apply (zero_price_aborts_leveraged_analysis isort_by_timestamp
           (fun _ => Some zero_quote_csv) (args_with 500) zero_quote_csv
           (uni_row 0 0 "bybit" "reference" 100)
           (uni_row 1 1 "hyperliquid" "perpetual" 0)).
  - reflexivity.
  - reflexivity.
  - left. reflexivity.
  - right. left. reflexivity.
  - reflexivity.
  - reflexivity.
  - discriminate.
  - reflexivity.
  - reflexivity.
  - vm_compute. split; discriminate.
  - vm_compute. discriminate.
Defined.

Lemma log_without_bybit_has_no_leveraged_opportunity_witness :
  analyze_leveraged_arbitrage isort_by_timestamp binance_pool_csv 30
  = Ok (isort_by_timestamp binance_pool_csv, []).
Proof.
  apply (log_without_bybit_has_no_leveraged_opportunity isort_by_timestamp
           binance_pool_csv 30).
  - apply isort_by_timestamp_In.
  - repeat constructor; discriminate.
Defined.

End AnalyzerScenarios.

Module CollectorScenarios.
Import Collector Dec Conv Arbitrage Spec Inputs Samples.
Import AnalyzerTerms CollectorTerms.
Import PoolFacts OrderFacts CacheFacts QuoteFacts PerpetualFacts ArbitrageFacts.
Import DriverFacts LookupFacts.

Lemma token_order_is_numeric_order_witness :
  address_value weth_address = Some 1097077688018008265106216665536940668749033598146
  /\ address_value usdc_ethereum = Some 917551056842671309452305380979543736893630245704
  /\ _determine_token_order weth_address usdc_ethereum
     = (false, usdc_ethereum, weth_address).
Proof.
  split; [vm_compute; reflexivity|]. split; [vm_compute; reflexivity|].
  apply (token_order_is_numeric_order weth_address usdc_ethereum
           1097077688018008265106216665536940668749033598146
           917551056842671309452305380979543736893630245704).
  - vm_compute. reflexivity.
  - vm_compute. reflexivity.
Defined.

(** On Ethereum the factory has no 0.3% pool of WETH and answers the
    0.05% tier with the WETH/USDC pool: this pool and 500 are returned. *)
Lemma pool_lookup_takes_first_tier_witness :
  _get_pool_address_cached env_weth_pool ∅ "ethereum" ethereum_config weth_address
    "ethereum_WETH"
  = (Some weth_usdc_pool, Some 500%Z).
Proof.
  apply (proj1 (proj1 (proj2 (pool_lookup_takes_first_tier env_weth_pool ∅ "ethereum"
                                ethereum_config weth_address "ethereum_WETH"))
                  (lookup_empty _) [3000%Z] 500%Z [10000%Z; 100%Z] eq_refl
                  ltac:(repeat constructor))).
  - reflexivity.
  - discriminate.
Defined.

Lemma cached_pool_needs_no_factory_call_witness :
  (fetch_uniswap_price (init ["ethereum"%string]) env_weth_pool ∅ "ethereum" "WETH").1
  = weth_cache
  /\ fetch_uniswap_price (init ["ethereum"%string]) env_no_factory weth_cache
       "ethereum" "WETH"
     = fetch_uniswap_price (init ["ethereum"%string]) env_weth_pool weth_cache
         "ethereum" "WETH".
Proof.
  split; [vm_compute; reflexivity|].
  apply (proj1 (cached_pool_needs_no_factory_call (init ["ethereum"%string])
                  env_weth_pool env_no_factory weth_cache "ethereum" "WETH" weth_entry
                  ltac:(vm_compute; reflexivity) eq_refl eq_refl)).
Defined.

Lemma fees_ok_empty : fees_ok ∅.
Proof. intros k entry H. rewrite lookup_empty in H. discriminate. Qed.

Lemma onchain_quotes_straddle_price_witness :
  length (get_dex_prices (init ["ethereum"%string]) env_weth_pool ∅).2 = 1%nat
  /\ Forall quoted (get_dex_prices (init ["ethereum"%string]) env_weth_pool ∅).2.
Proof.
  split; [vm_compute; reflexivity|].
  apply (proj1 (onchain_quotes_straddle_price (init ["ethereum"%string]) env_weth_pool ∅
                  fees_ok_empty)).
Defined.

Lemma hyperliquid_batch_all_or_nothing_witness :
  fetch_all_hyperliquid_prices (env_mids mids_bad) = []
  /\ map (fun pd => (token pd, price pd))
         (fetch_all_hyperliquid_prices (env_mids mids_good))
     = [("WBTC", Finite 60000); ("WETH", Finite 3800)]%string.
Proof.
  split.
  - apply (proj2 (hyperliquid_batch_all_or_nothing (env_mids mids_bad) mids_bad eq_refl)).
    apply Exists_cons_tl. apply Exists_cons_hd. split; [|right; reflexivity].
    vm_compute. eexists. reflexivity.
  - rewrite (proj1 (hyperliquid_batch_all_or_nothing (env_mids mids_good) mids_good
                      eq_refl)); [vm_compute; reflexivity|].
    repeat constructor; intros [[tok Htok] [H|H]]; vm_compute in Htok, H; discriminate.
Defined.

Lemma dydx_batch_all_or_nothing_witness :
  fetch_all_dydx_prices (env_markets markets_bad) = []
  /\ map (fun pd => (token pd, price pd))
         (fetch_all_dydx_prices (env_markets markets_good))
     = [("WBTC", Finite 60000)]%string.
Proof.
  split.
  - apply (proj2 (dydx_batch_all_or_nothing (env_markets markets_bad) markets_bad eq_refl)).
    apply Exists_cons_tl. apply Exists_cons_hd. split; [|right; reflexivity].
    vm_compute. eexists. reflexivity.
  - rewrite (proj1 (dydx_batch_all_or_nothing (env_markets markets_good) markets_good
                      eq_refl)); [vm_compute; reflexivity|].
    repeat constructor; intros [[tok Htok] [H|H]]; vm_compute in Htok, H; discriminate.
Defined.

Lemma spreads_join_two_venues_witness :
  exists opportunities,
    analyze_arbitrage_opportunities (group_items weth_pass) = Ok opportunities
    /\ map (fun o => (Spread.buy_on o, Spread.sell_on o, Spread.spread_pct o))
           opportunities
       = [("dydx_v4_perpetual", "uniswap_v3_base", 0.5277044854881267%float)]%string
    /\ Forall (spread_ok (group_items weth_pass)) opportunities.
Proof.
  eexists. split; [vm_compute; reflexivity|]. split; [reflexivity|].
  apply (spreads_join_two_venues (group_items weth_pass)). vm_compute. reflexivity.
Defined.

Lemma zero_price_aborts_spread_analysis_witness :
  analyze_arbitrage_opportunities (group_items zero_pass) = Raise InvalidOperation.
Proof.
  apply (zero_price_aborts_spread_analysis (group_items zero_pass) "UNI"
           [quote "hyperliquid" "perpetual" "UNI" 0; quote "dydx_v4" "perpetual" "UNI" 10]).
  - vm_compute. right. left. reflexivity.
  - vm_compute. lia.
  - vm_compute. repeat constructor; discriminate.
  - vm_compute. apply Exists_cons_hd. split; [exact I|reflexivity].
Defined.

(** The prices have to be finite for that: an infinite quote over a
    quote of zero is an infinite spread, which is reported. *)
Lemma infinite_quote_is_reported :
  exists o : Spread,
    analyze_arbitrage_opportunities (group_items infinite_pass) = Ok [o]
    /\ Spread.buy_on o = "hyperliquid_perpetual"%string
    /\ Spread.sell_on o = "dydx_v4_perpetual"%string
    /\ Spread.spread_pct o = infinity
    /\ Spread.min_price o = 0%float.
Proof.
  eexists. split; [vm_compute; reflexivity|]. repeat split; reflexivity.
Qed.

Lemma reversed_symbol_table_round_trip_witness :
  reverse_dict init_binance_symbols !! "ETHUSDC"%string = Some "WETH"%string
  /\ as_map init_binance_symbols !! "WETH"%string = Some "ETHUSDC"%string.
Proof.
  assert (List.NoDup (keys init_binance_symbols)) as Hk.
  { assert (Py.unique (keys init_binance_symbols) = keys init_binance_symbols) as <-
      by (vm_compute; reflexivity).
    apply unique_NoDup. }
  assert (List.NoDup (values init_binance_symbols)) as Hv.
  { assert (Py.unique (values init_binance_symbols) = values init_binance_symbols) as <-
      by (vm_compute; reflexivity).
    apply unique_NoDup. }
  pose proof (reversed_symbol_table_round_trip init_binance_symbols "WETH" "ETHUSDC"
                Hk Hv) as [H1 H2].
  assert (reverse_dict init_binance_symbols !! "ETHUSDC"%string = Some "WETH"%string) as Hr.
  { apply H1. vm_compute. left. reflexivity. }
  split; [exact Hr|]. apply H2. exact Hr.
Defined.

End CollectorScenarios.
